(** * LaTeX to Typst converter: the rule registry and the transformation engine

    A shallow embedding of [rules.py] (the registry [CONVERSION_RULES]) and of
    [main.py] ([transform]), together with a model of the part of Python's
    [re] module that [transform] calls: [re.subn] on the regular expressions
    and replacement templates that occur in the registry.

    Python strings are sequences of Unicode code points; they are modelled as
    lists of code points ([N]).  Regular expressions are kept as the pattern
    strings of the source and compiled by [Re.compile], a model of the
    parser of [re] for the syntax the registry uses: literals, escaped
    punctuation, [\s], character sets of literals, one level of greedy [*]
    and [+] on a single character position, capture groups, [^] and a
    leading [(?m)].  Matching is the backtracking search of sre; substitution
    follows [pattern.subn] of Python 3.7 and later, where an empty match next
    to a previous match is replaced too.

    [print] appends a line to an output that is passed through the
    functions; an exception is a [Raise] result. *)

From Stdlib Require Import String Ascii DecimalString.
From Stdlib Require Import List NArith Arith Bool Lia Sorted.
Import ListNotations.

Set Implicit Arguments.

(** ** Python strings *)

(** A character is a code point, a string a list of code points. *)
Abbreviation char := N (only parsing).
Abbreviation str := (list N) (only parsing).

(** The code points of an ASCII literal. *)
Definition py (s : string) : str := map N_of_ascii (list_ascii_of_string s).

(** The double quote and the rightwards arrow of the rule descriptions. *)
Definition dquote : str := [34%N].
Definition arrow : str := [8594%N].

(** [str(n)] for a non-negative integer. *)
Definition str_of_nat (n : nat) : str := py (NilZero.string_of_uint (Nat.to_uint n)).

(** Exceptions and results. *)
Inductive exn := re_error.

Inductive result (A : Type) :=
| Ok (a : A)
| Raise (e : exn).
Arguments Raise {A} e.

(** ** Model of Python's [re] for the syntax of the registry *)

Module Re.

Local Open Scope N_scope.

(** [Py_UNICODE_ISSPACE], the category behind [\s] in a str pattern. *)
Definition uni_isspace (c : char) : bool :=
  ((9 <=? c) && (c <=? 13)) || ((28 <=? c) && (c <=? 32)) ||
  (c =? 133) || (c =? 160) || (c =? 5760) ||
  ((8192 <=? c) && (c <=? 8202)) ||
  (c =? 8232) || (c =? 8233) || (c =? 8239) || (c =? 8287) || (c =? 12288).

(** What one character position can be asked to match. *)
Inductive cset :=
| Literal (c : char)
| Category_space
| In (negate : bool) (members : list char).

Definition memb (c : char) (l : list char) : bool := existsb (N.eqb c) l.

Definition charset (cs : cset) (c : char) : bool :=
  match cs with
  | Literal c' => c =? c'
  | Category_space => uni_isspace c
  | In negate members => xorb negate (memb c members)
  end.

(** Compiled code: a flat sequence, groups delimited by marks as in sre
    (group [g] opens at mark [2(g-1)] and closes at mark [2(g-1)+1]).
    Repetition is greedy, unbounded above, and applies to a single
    character position. *)
Inductive op :=
| One (cs : cset)
| Repeat_one (min : nat) (cs : cset)
| Mark (i : nat)
| At_beginning
| At_beginning_line.

Record pattern := { code : list op; groups : nat }.

(** *** The pattern parser *)

Inductive pmode :=
| Normal
| Escaped
| SetOpen
| SetBody (negate : bool) (members : list char).

Record pstate := {
  code_rev : list op;
  ngroups : nat;
  open_groups : list nat;
  mode : pmode;
  multiline : bool
}.

Definition is_ascii_alnum (c : char) : bool :=
  ((48 <=? c) && (c <=? 57)) || ((65 <=? c) && (c <=? 90)) || ((97 <=? c) && (c <=? 122)).

Definition emit (st : pstate) (o : op) : pstate :=
  {| code_rev := o :: code_rev st; ngroups := ngroups st;
     open_groups := open_groups st; mode := Normal; multiline := multiline st |}.

Definition set_mode (st : pstate) (m : pmode) : pstate :=
  {| code_rev := code_rev st; ngroups := ngroups st;
     open_groups := open_groups st; mode := m; multiline := multiline st |}.

(** A quantifier applies to the item just parsed, which must be a single
    character position. *)
Definition quantify (st : pstate) (min : nat) : option pstate :=
  match code_rev st with
  | One cs :: before =>
      Some {| code_rev := Repeat_one min cs :: before; ngroups := ngroups st;
              open_groups := open_groups st; mode := Normal; multiline := multiline st |}
  | _ => None
  end.

Definition open_group (st : pstate) : pstate :=
  {| code_rev := Mark (2 * ngroups st) :: code_rev st; ngroups := S (ngroups st);
     open_groups := S (ngroups st) :: open_groups st; mode := Normal;
     multiline := multiline st |}.

Definition close_group (st : pstate) : option pstate :=
  match open_groups st with
  | g :: outer =>
      Some {| code_rev := Mark (2 * (g - 1) + 1) :: code_rev st; ngroups := ngroups st;
              open_groups := outer; mode := Normal; multiline := multiline st |}
  | [] => None
  end.

(** One character of the pattern.  [None] is a pattern that [re] rejects or
    that is outside the modelled syntax. *)
Definition pstep (st : pstate) (c : char) : option pstate :=
  match mode st with
  | Normal =>
      if c =? 92 then Some (set_mode st Escaped)
      else if c =? 91 then Some (set_mode st SetOpen)
      else if c =? 40 then Some (open_group st)
      else if c =? 41 then close_group st
      else if c =? 42 then quantify st 0
      else if c =? 43 then quantify st 1
      else if c =? 94 then
        Some (emit st (if multiline st then At_beginning_line else At_beginning))
      else if (c =? 46) || (c =? 36) || (c =? 63) || (c =? 123) || (c =? 124) then None
      else Some (emit st (One (Literal c)))
  | Escaped =>
      if c =? 115 then Some (emit st (One Category_space))
      else if (c <? 128) && negb (is_ascii_alnum c) then Some (emit st (One (Literal c)))
      else None
  | SetOpen =>
      if c =? 94 then Some (set_mode st (SetBody true []))
      else if (c =? 93) || (c =? 92) || (c =? 45) || (c =? 91) then None
      else Some (set_mode st (SetBody false [c]))
  | SetBody negate members =>
      if c =? 93 then
        match members with
        | [] => None
        | _ => Some (emit st (One (In negate members)))
        end
      else if (c =? 92) || (c =? 45) || (c =? 91) then None
      else Some (set_mode st (SetBody negate (members ++ [c])))
  end.

Fixpoint prun (st : pstate) (s : str) : option pattern :=
  match s with
  | [] =>
      match mode st, open_groups st with
      | Normal, [] => Some {| code := rev (code_rev st); groups := ngroups st |}
      | _, _ => None
      end
  | c :: s' =>
      match pstep st c with
      | Some st' => prun st' s'
      | None => None
      end
  end.

Definition pinit (m : bool) : pstate :=
  {| code_rev := []; ngroups := 0; open_groups := []; mode := Normal; multiline := m |}.

(** [re.compile]: a leading [(?m)] sets the MULTILINE flag. *)
Definition compile (s : str) : option pattern :=
  match s with
  | c1 :: c2 :: c3 :: c4 :: s' =>
      if (c1 =? 40) && (c2 =? 63) && (c3 =? 109) && (c4 =? 41)
      then prun (pinit true) s'
      else prun (pinit false) s
  | _ => prun (pinit false) s
  end.

(** *** The replacement template *)

Inductive titem :=
| TLit (c : char)
| TGroup (g : nat).

Definition is_digit (c : char) : bool := (48 <=? c) && (c <=? 57).

(** The items of a template: [\\] is a backslash, [\d] with [d] a non-zero
    digit not followed by another digit is a reference to group [d].  Other
    escapes are outside the modelled syntax. *)
Fixpoint template_items (s : str) : option (list titem) :=
  match s with
  | [] => Some []
  | c :: s1 =>
      if c =? 92 then
        match s1 with
        | [] => None
        | d :: s2 =>
            if d =? 92 then option_map (cons (TLit 92)) (template_items s2)
            else if (49 <=? d) && (d <=? 57) then
              match s2 with
              | d2 :: _ => if is_digit d2 then None
                           else option_map (cons (TGroup (N.to_nat (d - 48)))) (template_items s2)
              | [] => option_map (cons (TGroup (N.to_nat (d - 48)))) (template_items s2)
              end
            else None
        end
      else option_map (cons (TLit c)) (template_items s1)
  end.

Definition group_refs (t : list titem) : list nat :=
  flat_map (fun i => match i with TGroup g => [g] | TLit _ => [] end) t.

(** A reference to a group the pattern does not have is an
    "invalid group reference" error. *)
Definition valid_refs (p : pattern) (t : list titem) : bool :=
  forallb (fun g => Nat.leb g (groups p)) (group_refs t).

Definition compile_template (p : pattern) (repl : str) : option (list titem) :=
  match template_items repl with
  | Some t => if valid_refs p t then Some t else None
  | None => None
  end.

(** *** The matching engine *)

Definition marks := list (nat * nat).

Fixpoint mark_pos (i : nat) (m : marks) : option nat :=
  match m with
  | [] => None
  | (j, p) :: m' => if Nat.eqb i j then Some p else mark_pos i m'
  end.

(** A successful match: its length and the marks set on the way, positions
    counted from the start of the match. *)
Definition matched := (nat * marks)%type.

(** Greedy repetition of one character position: take as many characters as
    possible, then give them back one at a time until the rest of the code
    ([k]) matches, never going below [min]. *)
Fixpoint repeat_one (cs : cset) (min : nat)
    (k : option char -> str -> nat -> option matched)
    (prev : option char) (rest : str) (pos : nat) : option matched :=
  match rest with
  | c :: rest' =>
      if charset cs c then
        match repeat_one cs (pred min) k (Some c) rest' (S pos) with
        | Some m => Some m
        | None => if Nat.eqb min 0 then k prev rest pos else None
        end
      else if Nat.eqb min 0 then k prev rest pos else None
  | [] => if Nat.eqb min 0 then k prev rest pos else None
  end.

(** [sre_match code prev rest pos mk must_advance]: match [code] against
    [rest], the text from the current position on; [prev] is the character
    before the current position ([None] at the start of the text), [pos] the
    number of characters matched so far.  With [must_advance] an empty match
    is a failure (sre sets it after an empty match of a search loop). *)
Fixpoint sre_match (ops : list op) (prev : option char) (rest : str)
    (pos : nat) (mk : marks) (must_advance : bool) : option matched :=
  match ops with
  | [] => if must_advance && Nat.eqb pos 0 then None else Some (pos, mk)
  | One cs :: ops' =>
      match rest with
      | c :: rest' =>
          if charset cs c then sre_match ops' (Some c) rest' (S pos) mk must_advance
          else None
      | [] => None
      end
  | Repeat_one min cs :: ops' =>
      repeat_one cs min
        (fun prev' rest' pos' => sre_match ops' prev' rest' pos' mk must_advance)
        prev rest pos
  | Mark i :: ops' => sre_match ops' prev rest pos ((i, pos) :: mk) must_advance
  | At_beginning :: ops' =>
      match prev with
      | None => sre_match ops' prev rest pos mk must_advance
      | Some _ => None
      end
  | At_beginning_line :: ops' =>
      match prev with
      | None => sre_match ops' prev rest pos mk must_advance
      | Some c => if c =? 10 then sre_match ops' prev rest pos mk must_advance else None
      end
  end.

Definition match_at (p : pattern) (prev : option char) (rest : str)
    (must_advance : bool) : option matched :=
  sre_match (code p) prev rest 0 [] must_advance.

(** [re.search] from a position on: the leftmost position with a match. *)
Fixpoint search_from (p : pattern) (prev : option char) (rest : str) (at_ : nat)
    : option (nat * matched) :=
  match match_at p prev rest false with
  | Some m => Some (at_, m)
  | None =>
      match rest with
      | c :: rest' => search_from p (Some c) rest' (S at_)
      | [] => None
      end
  end.

Definition search (p : pattern) (text : str) : option (nat * matched) :=
  search_from p None text 0.

(** *** Substitution *)

(** The text of group [g] of a match that starts at [subject]. *)
Definition group_text (subject : str) (mk : marks) (g : nat) : str :=
  match mark_pos (2 * (g - 1)) mk, mark_pos (2 * (g - 1) + 1) mk with
  | Some b, Some e => firstn (e - b) (skipn b subject)
  | _, _ => []
  end.

Definition expand (t : list titem) (subject : str) (m : matched) : str :=
  flat_map (fun i => match i with
                     | TLit c => [c]
                     | TGroup g => group_text subject (snd m) g
                     end) t.

(** The matches the substitution loop finds that start at one position: an
    empty match is followed by a second attempt at the same position that
    must advance. *)
Definition matches_here (p : pattern) (prev : option char) (rest : str) : list matched :=
  match match_at p prev rest false with
  | None => []
  | Some (0%nat, mk) =>
      (0%nat, mk) :: match match_at p prev rest true with
                     | Some m => [m]
                     | None => []
                     end
  | Some m => [m]
  end.

Definition consumed (ms : list matched) : nat := list_sum (map fst ms).

(** The loop of [pattern.subn]: scan the text from left to right; at a
    position that is not inside the previous match, replace the matches
    found there by the expanded template and skip the matched characters;
    copy a character that starts no match of positive length.  [skip] is
    the number of characters still covered by the previous match. *)
Fixpoint subn_scan (p : pattern) (t : list titem) (prev : option char) (rest : str)
    (skip : nat) : str * nat :=
  match skip with
  | S skip' =>
      match rest with
      | c :: rest' => subn_scan p t (Some c) rest' skip'
      | [] => ([], 0%nat)
      end
  | O =>
      let ms := matches_here p prev rest in
      let out := flat_map (expand t rest) ms in
      match rest with
      | [] => (out, length ms)
      | c :: rest' =>
          let (tail, n) := subn_scan p t (Some c) rest' (pred (consumed ms)) in
          (out ++ (if Nat.eqb (consumed ms) 0 then [c] else []) ++ tail,
           (length ms + n)%nat)
      end
  end.

(** [re.subn(pattern, repl, text)]: compile the pattern, compile the
    template against it, substitute. *)
Definition subn (pat repl text : str) : result (str * nat) :=
  match compile pat with
  | None => Raise re_error
  | Some p =>
      match compile_template p repl with
      | None => Raise re_error
      | Some t => Ok (subn_scan p t None text 0)
      end
  end.

End Re.

(** ** rules.py *)

Record ConversionRule := {
  pattern : str;
  replacement : str;
  name : str;
  description : str
}.

Definition CONVERSION_RULES : list ConversionRule := [
  {| pattern := py "\\glspl\s*\{([^{}]+)\}";
     replacement := py "#glspl(" ++ dquote ++ py "\1" ++ dquote ++ py ")";
     name := py "glspl";
     description := py "Convert plural glossary references (\glspl{term} " ++ arrow
                    ++ py " #glspl(" ++ dquote ++ py "term" ++ dquote ++ py "))" |};
  {| pattern := py "\\gls\s*\{([^{}]+)\}";
     replacement := py "#gls(" ++ dquote ++ py "\1" ++ dquote ++ py ")";
     name := py "gls";
     description := py "Convert singular glossary references (\gls{term} " ++ arrow
                    ++ py " #gls(" ++ dquote ++ py "term" ++ dquote ++ py "))" |};
  {| pattern := py "\\textit\s*\{([^{}]+)\}";
     replacement := py "_\1_";
     name := py "textit";
     description := py "Convert italic text formatting (\textit{text} " ++ arrow
                    ++ py " _text_)" |};
  {| pattern := py "\\emph\s*\{([^{}]+)\}";
     replacement := py "_\1_";
     name := py "emph";
     description := py "Convert emphasized text (\emph{text} " ++ arrow ++ py " _text_)" |};
  {| pattern := py "\\textbf\s*\{([^{}]+)\}";
     replacement := py "*\1*";
     name := py "textbf";
     description := py "Convert bold text formatting (\textbf{text} " ++ arrow
                    ++ py " *text*)" |};
  {| pattern := py "\\chapter\s*\{([^{}]+)\}";
     replacement := py "= \1";
     name := py "chapter";
     description := py "Convert chapter headings (\chapter{Title} " ++ arrow
                    ++ py " = Title)" |};
  {| pattern := py "\\section\s*\{([^{}]+)\}";
     replacement := py "== \1";
     name := py "section";
     description := py "Convert section headings (\section{Title} " ++ arrow
                    ++ py " == Title)" |};
  {| pattern := py "\\subsection\s*\{([^{}]+)\}";
     replacement := py "=== \1";
     name := py "subsection";
     description := py "Convert subsection headings (\subsection{Title} " ++ arrow
                    ++ py " === Title)" |};
  {| pattern := py "\\subsubsection\s*\{([^{}]+)\}";
     replacement := py "==== \1";
     name := py "subsubsection";
     description := py "Convert subsubsection headings (\subsubsection{Title} " ++ arrow
                    ++ py " ==== Title)" |};
  {| pattern := py "\\label\s*\{([^{}]+)\}";
     replacement := py "<\1>";
     name := py "label";
     description := py "Convert labels for cross-references (\label{ref} " ++ arrow
                    ++ py " <ref>)" |};
  {| pattern := py "\\ref\s*\{([^{}]+)\}";
     replacement := py "@\1";
     name := py "ref";
     description := py "Convert cross-references (\ref{label} " ++ arrow ++ py " @label)" |};
  {| pattern := py "\\textcite\s*\{([^{}]+)\}";
     replacement := py "@\1";
     name := py "textcite";
     description := py "Convert textual citations (\textcite{key} " ++ arrow ++ py " @key)" |};
  {| pattern := py "\\cite\s*\{([^{}]+)\}";
     replacement := py "@\1";
     name := py "cite";
     description := py "Convert parenthetical citations (\cite{key} " ++ arrow
                    ++ py " @key)" |};
  {| pattern := py "\\footnote\s*\{([^{}]+)\}";
     replacement := py "#footnote[\1]";
     name := py "footnote";
     description := py "Convert footnotes (\footnote{text} " ++ arrow
                    ++ py " #footnote[text])" |};
  {| pattern := py "\\enquote\s*\{([^{}]+)\}";
     replacement := dquote ++ py "\1" ++ dquote;
     name := py "enquote";
     description := py "Convert quoted text (\enquote{text} " ++ arrow ++ py " "
                    ++ dquote ++ py "text" ++ dquote ++ py ")" |};
  {| pattern := py "\\\\";
     replacement := py "\\";
     name := py "double backslash";
     description := py "Convert line breaks (double backslash " ++ arrow
                    ++ py " single backslash)" |};
  {| pattern := py "(?m)^%";
     replacement := py "//";
     name := py "line comment";
     description := py "Convert LaTeX comments (% comment " ++ arrow ++ py " // comment)" |}
].

(** ** main.py *)

(** The line [print] writes for a rule that made [n] replacements. *)
Definition progress_line (rule : ConversionRule) (n : nat) : str :=
  py "[" ++ name rule ++ py "] " ++ str_of_nat n ++ py " replacements".

(** The loop of [transform] over the rules still to apply; [out] is the
    list of lines printed so far.  An exception of [re.subn] leaves the
    loop. *)
Fixpoint transform_loop (rules : list ConversionRule) (text : str) (verbose : bool)
    (out : list str) : result str * list str :=
  match rules with
  | [] => (Ok text, out)
  | rule :: rules' =>
      match Re.subn (pattern rule) (replacement rule) text with
      | Raise e => (Raise e, out)
      | Ok (new_text, n) =>
          let out' := if negb (Nat.eqb n 0) && verbose
                      then out ++ [progress_line rule n] else out in
          transform_loop rules' new_text verbose out'
      end
  end.

Definition transform (text : str) (verbose : bool) (out : list str)
    : result str * list str :=
  transform_loop CONVERSION_RULES text verbose out.

(** [print_rules] lists name and description of every rule. *)
Definition print_rules (out : list str) : list str :=
  out ++ [py "Available LaTeX to Typst conversion rules:"; concat (repeat (py "=") 50)]
      ++ map (fun rule => name rule ++ py ": " ++ description rule) CONVERSION_RULES.

(** ** Auxiliary notions for the statements *)

(** [transform] applied to its own result, printing to the same output. *)
Definition transform_twice (text : str) (verbose : bool) (out : list str)
    : result str * list str :=
  match transform text verbose out with
  | (Ok text', out') => transform text' verbose out'
  | (Raise e, out') => (Raise e, out')
  end.

(** A rule with its pattern and template compiled. *)
Definition compile_rule (rule : ConversionRule) : option (Re.pattern * list Re.titem) :=
  match Re.compile (pattern rule) with
  | Some p =>
      match Re.compile_template p (replacement rule) with
      | Some t => Some (p, t)
      | None => None
      end
  | None => None
  end.

(** The pattern and the template of [rule] compile. *)
Definition compiles (rule : ConversionRule) : Prop :=
  exists p t, compile_rule rule = Some (p, t).

(** The pattern of [rule] matches somewhere in [text] ([re.search]). *)
Definition has_match (rule : ConversionRule) (text : str) : bool :=
  match Re.compile (pattern rule) with
  | Some p => match Re.search p text with Some _ => true | None => false end
  | None => false
  end.

(** Start and length of the leftmost match of the pattern of [rule] in
    [text]. *)
Definition match_span (rule : ConversionRule) (text : str) : option (nat * nat) :=
  match Re.compile (pattern rule) with
  | Some p =>
      match Re.search p text with
      | Some (start, (len, _)) => Some (start, len)
      | None => None
      end
  | None => None
  end.

(** No rule of the registry has a match in [text]. *)
Definition unmatched (text : str) : Prop :=
  Forall (fun rule => has_match rule text = false) CONVERSION_RULES.

(** The position of the first rule called [nm] in a list of rules. *)
Fixpoint rule_index (nm : str) (rules : list ConversionRule) : option nat :=
  match rules with
  | [] => None
  | rule :: rules' =>
      if list_eq_dec N.eq_dec (name rule) nm then Some 0
      else option_map S (rule_index nm rules')
  end.

(** The first rule of the registry called [nm]. *)
Definition rule_named (nm : str) : option ConversionRule :=
  find (fun rule => if list_eq_dec N.eq_dec (name rule) nm then true else false)
       CONVERSION_RULES.

(** ** The transformation as the specification words it

    Global substitution is described by the matches found
    ([find_all], all non-overlapping matches from left to right, each the
    leftmost one after the previous match) and by the text rebuilt from
    them ([splice]); the transformation is the fold of that substitution
    over the registry, with a log of the rules that replaced something. *)

(** The matches from a position on, each with the position it starts at:
    [at_] is the current position, [prev] the character before it, [skip]
    the number of characters still covered by the previous match. *)
Fixpoint find_all_from (p : Re.pattern) (prev : option char) (rest : str)
    (at_ skip : nat) : list (nat * Re.matched) :=
  match skip with
  | S skip' =>
      match rest with
      | c :: rest' => find_all_from p (Some c) rest' (S at_) skip'
      | [] => []
      end
  | O =>
      let ms := Re.matches_here p prev rest in
      map (pair at_) ms ++
      match rest with
      | c :: rest' => find_all_from p (Some c) rest' (S at_) (pred (Re.consumed ms))
      | [] => []
      end
  end.

Definition find_all (p : Re.pattern) (text : str) : list (nat * Re.matched) :=
  find_all_from p None text 0 0.

(** A match ends before the next one starts. *)
Definition precedes (a b : nat * Re.matched) : Prop := fst a + fst (snd a) <= fst b.

(** The text between the matches is kept, every match is replaced by the
    expanded template; [from] is the end of the previous match. *)
Fixpoint splice (t : list Re.titem) (text : str) (from : nat)
    (ms : list (nat * Re.matched)) : str :=
  match ms with
  | [] => skipn from text
  | (b, m) :: ms' =>
      firstn (b - from) (skipn from text) ++ Re.expand t (skipn b text) m
      ++ splice t text (b + fst m) ms'
  end.

(** One global substitution: the new text and the number of replacements. *)
Definition global_substitution (rule : ConversionRule) (current : str)
    : option (str * nat) :=
  match compile_rule rule with
  | Some (p, t) =>
      let ms := find_all p current in Some (splice t current 0 ms, length ms)
  | None => None
  end.

(** One step of the fold: substitute, and log the rule when its count is
    positive. *)
Definition spec_pass (acc : option (str * list (str * nat))) (rule : ConversionRule)
    : option (str * list (str * nat)) :=
  match acc with
  | Some (current, log) =>
      match global_substitution rule current with
      | Some (next, count) =>
          Some (next, if Nat.ltb 0 count then log ++ [(name rule, count)] else log)
      | None => None
      end
  | None => None
  end.

Definition spec_transform (text : str) : option (str * list (str * nat)) :=
  fold_left spec_pass CONVERSION_RULES (Some (text, [])).

(** The progress line of a log entry. *)
Definition log_line (e : str * nat) : str :=
  py "[" ++ fst e ++ py "] " ++ str_of_nat (snd e) ++ py " replacements".

(** ** Pairs of backslashes *)

(** Every pair of consecutive backslashes, taken from the left without
    overlap, becomes one backslash. *)
Fixpoint collapse (s : str) : str :=
  match s with
  | [] => []
  | c :: s1 =>
      match s1 with
      | [] => [c]
      | d :: s2 =>
          if (N.eqb c 92 && N.eqb d 92)%bool then 92%N :: collapse s2
          else c :: collapse s1
      end
  end.

(** The number of those pairs. *)
Fixpoint count_pairs (s : str) : nat :=
  match s with
  | [] => 0
  | c :: s1 =>
      match s1 with
      | [] => 0
      | d :: s2 =>
          if (N.eqb c 92 && N.eqb d 92)%bool then S (count_pairs s2)
          else count_pairs s1
      end
  end.

(** ** Matches and the text they cover *)

(** The character before the position reached after [taken]. *)
Definition prev_after (prev : option char) (taken : str) : option char :=
  match rev taken with
  | [] => prev
  | c :: _ => Some c
  end.

(** At one position the substitution loop finds no match, one match, or an
    empty match followed by a match that advances. *)
Inductive here_shape : list Re.matched -> Prop :=
| here_none : here_shape []
| here_one m : here_shape [m]
| here_two mk m : 0 < fst m -> here_shape [(0, mk); m].

(** [denotes ops m]: the text [m] is made of the pieces the items of [ops]
    ask for, in order (marks and anchors ask for nothing). *)
Fixpoint denotes (ops : list Re.op) (m : str) : Prop :=
  match ops with
  | [] => m = []
  | Re.One cs :: ops' =>
      exists c m', m = c :: m' /\ Re.charset cs c = true /\ denotes ops' m'
  | Re.Repeat_one min cs :: ops' =>
      exists a m', m = a ++ m' /\ Forall (fun c => Re.charset cs c = true) a /\
                   min <= length a /\ denotes ops' m'
  | Re.Mark _ :: ops' => denotes ops' m
  | Re.At_beginning :: ops' => denotes ops' m
  | Re.At_beginning_line :: ops' => denotes ops' m
  end.

(** The code of a command rule: backslash, the command name, optional
    whitespace, and one argument in braces that holds no brace. *)
Definition command (cmd : str) : Re.pattern :=
  {| Re.code :=
       Re.One (Re.Literal 92%N) :: map (fun c => Re.One (Re.Literal c)) cmd ++
       [Re.Repeat_one 0 Re.Category_space; Re.One (Re.Literal 123%N); Re.Mark 0;
        Re.Repeat_one 1 (Re.In true [123%N; 125%N]); Re.Mark 1;
        Re.One (Re.Literal 125%N)];
     Re.groups := 1 |}.

(** The result of a command match with whitespace [sp] and argument [arg]:
    its length and the marks around the argument. *)
Definition command_result (cmd sp arg : str) : Re.matched :=
  let b := S (1 + length cmd + length sp) in
  (S (b + length arg), [(1, b + length arg); (0, b)]).

(** The compiled double backslash rule. *)
Definition double_backslash : Re.pattern :=
  {| Re.code := [Re.One (Re.Literal 92%N); Re.One (Re.Literal 92%N)]; Re.groups := 0 |}.

(** The compiled line comment rule. *)
Definition line_comment : Re.pattern :=
  {| Re.code := [Re.At_beginning_line; Re.One (Re.Literal 37%N)]; Re.groups := 0 |}.

(** An opening or a closing brace. *)
Definition is_brace (c : char) : bool := (N.eqb c 123 || N.eqb c 125)%bool.

(** The braces of a text, in order. *)
Definition braces (s : str) : str := filter is_brace s.

(** A text without braces. *)
Definition brace_free (s : str) : Prop := Forall (fun c => is_brace c = false) s.

(** ** The fragment with nested braces *)

(** A command whose argument holds braces. *)
Definition fragment : str := py "\textbf{a{b}c}".

(** The fragment after its backslash. *)
Definition fragment_body : str := py "textbf{a{b}c}".

(** The text from each of its positions on. *)
Fixpoint nonempty_suffixes (s : str) : list str :=
  match s with
  | [] => []
  | c :: s' => (c :: s') :: nonempty_suffixes s'
  end.

(** No match of [p] starts inside the fragment, whatever precedes and
    follows it. *)
Definition dead_in_fragment (p : Re.pattern) : Prop :=
  Forall (fun s => forall prev post, Re.matches_here p prev (s ++ post) = [])
         (nonempty_suffixes fragment).

(** A match of [p] that starts before the fragment ends before it, or ends
    on its backslash and is replaced by a text that ends with a backslash. *)
Definition stops_before_fragment (p : Re.pattern) (t : list Re.titem) : Prop :=
  forall x prev post adv len mk,
    x <> [] ->
    Re.match_at p prev (x ++ fragment ++ post) adv = Some (len, mk) ->
    1 <= len /\
    (len <= length x \/
     (len = S (length x) /\
      exists e, Re.expand t (x ++ fragment ++ post) (len, mk) = e ++ [92%N])).

(** A match attempt of [p] that starts before the fragment does not depend
    on what follows the backslash of the fragment; and [p] has no match at
    a backslash that ends the text, nor at the end of the text. *)
Definition local_before_fragment (p : Re.pattern) : Prop :=
  (forall x prev post adv,
     x <> [] ->
     Re.match_at p prev (x ++ fragment ++ post) adv =
     Re.match_at p prev (x ++ [92%N]) adv) /\
  (forall prev, Re.matches_here p prev [92%N] = [] /\ Re.matches_here p prev [] = []).

(** One pass over the text behind the fragment, which follows its closing
    brace. *)
Definition behind (p : Re.pattern) (t : list Re.titem) (post : str) : str :=
  fst (Re.subn_scan p t (Some 125%N) post 0).

(** The transformation of a text that follows the character [prev]: the
    passes of the rules, each started behind [prev]. *)
Definition pass_behind (prev : char) (current : str) (rule : ConversionRule) : str :=
  match compile_rule rule with
  | Some (p, t) => fst (Re.subn_scan p t (Some prev) current 0)
  | None => current
  end.

Definition transform_behind (prev : char) (text : str) : str :=
  fold_left (pass_behind prev) CONVERSION_RULES text.

(** What a match of [p] captures as its first group holds no brace. *)
Definition captures_no_brace (p : Re.pattern) : Prop :=
  forall prev rest adv len mk,
    Re.match_at p prev rest adv = Some (len, mk) ->
    brace_free (Re.group_text rest mk 1).

(** A rule whose matches leave the fragment alone. *)
Definition spares_fragment (rule : ConversionRule) : Prop :=
  exists p t,
    compile_rule rule = Some (p, t) /\ dead_in_fragment p /\
    stops_before_fragment p t /\ local_before_fragment p.

(** ** The line comment rule *)

(** The position after [prev] starts a line: the start of the text, or the
    position after a line feed. *)
Definition starts_line (prev : option char) : bool :=
  match prev with
  | None => true
  | Some c => N.eqb c 10
  end.

(** The text with [//] for every [%] that starts a line; [at_start] says
    whether the first position starts a line. *)
Fixpoint comment_from (at_start : bool) (s : str) : str :=
  match s with
  | [] => []
  | c :: s' =>
      (if (at_start && N.eqb c 37)%bool then [47%N; 47%N] else [c])
      ++ comment_from (N.eqb c 10) s'
  end.

Definition comment_lines (s : str) : str := comment_from true s.

(** The number of [%] that start a line. *)
Fixpoint count_comments_from (at_start : bool) (s : str) : nat :=
  match s with
  | [] => 0
  | c :: s' =>
      (if (at_start && N.eqb c 37)%bool then 1 else 0)
      + count_comments_from (N.eqb c 10) s'
  end.

Definition count_comments (s : str) : nat := count_comments_from true s.

(** ** Texts without backslashes *)

Definition no_backslash (s : str) : Prop := Forall (fun c => c <> 92%N) s.

(** Every match of the pattern of [rule] starts with a backslash. *)
Definition backslash_led (rule : ConversionRule) : Prop :=
  exists p t ops,
    compile_rule rule = Some (p, t) /\ Re.code p = Re.One (Re.Literal 92%N) :: ops.

(** ** Texts that the rules leave alone *)

(** A text without backslash and without [%]. *)
Definition no_marker (s : str) : Prop := Forall (fun c => c <> 92%N /\ c <> 37%N) s.

(** A text without backslash, [%] and closing brace. *)
Definition inert (s : str) : Prop :=
  Forall (fun c => c <> 92%N /\ c <> 37%N /\ c <> 125%N) s.

(** A match of [p] starts with a backslash or with [%]; in particular it is
    not empty. *)
Definition marked (p : Re.pattern) : Prop :=
  (forall prev c rest adv,
     c <> 92%N -> c <> 37%N -> Re.match_at p prev (c :: rest) adv = None) /\
  (forall prev adv, Re.match_at p prev [] adv = None).

(** A match attempt of [p] does not depend on an inert text that follows
    the text it is made on. *)
Definition blind (p : Re.pattern) : Prop :=
  forall prev x s adv,
    x <> [] -> inert s -> Re.match_at p prev (x ++ s) adv = Re.match_at p prev x adv.

Definition framed (rule : ConversionRule) : Prop :=
  exists p t, compile_rule rule = Some (p, t) /\ marked p /\ blind p.

(** ** The characters of the replacements *)

(** The literal characters of a template. *)
Definition literals (t : list Re.titem) : str :=
  flat_map (fun i => match i with Re.TLit c => [c] | Re.TGroup _ => [] end) t.

(** The characters that the templates of the registry hold. *)
Definition template_alphabet : str := py "#glsp()_*= <>@fotne[]\/" ++ dquote.

(** The template of [rule] adds characters of [alphabet] only. *)
Definition adds_from (alphabet : str) (rule : ConversionRule) : Prop :=
  exists p t, compile_rule rule = Some (p, t) /\ incl (literals t) alphabet.

(** ** Single commands *)

(** What the command rules make of a command: the command name, and the
    text put before and after the argument. *)
Definition conversions : list (str * str * str) := [
  (py "glspl", py "#glspl(" ++ dquote, dquote ++ py ")");
  (py "gls", py "#gls(" ++ dquote, dquote ++ py ")");
  (py "textit", py "_", py "_");
  (py "emph", py "_", py "_");
  (py "textbf", py "*", py "*");
  (py "chapter", py "= ", []);
  (py "section", py "== ", []);
  (py "subsection", py "=== ", []);
  (py "subsubsection", py "==== ", []);
  (py "label", py "<", py ">");
  (py "ref", py "@", []);
  (py "textcite", py "@", []);
  (py "cite", py "@", []);
  (py "footnote", py "#footnote[", py "]");
  (py "enquote", dquote, dquote)
].

(** A character of a command name: no whitespace, no brace, no backslash,
    no [%]. *)
Definition name_char (c : char) : bool :=
  negb (Re.uni_isspace c || N.eqb c 123 || N.eqb c 125 || N.eqb c 92 || N.eqb c 37)%bool.

(** A rule for a command other than [cmd]. *)
Definition other_command (cmd : str) (rule : ConversionRule) : Prop :=
  exists cmd' t,
    compile_rule rule = Some (command cmd', t) /\ cmd' <> cmd /\
    forallb name_char cmd' = true.

(** The text of a command: backslash, name, whitespace, argument in braces. *)
Definition command_text (cmd sp arg : str) : str :=
  92%N :: cmd ++ sp ++ 123%N :: arg ++ [125%N].

(** ** The command line: [process_file] and [main]

    The file system is a state [world] that is passed through the
    functions.  Paths and the operations of [pathlib] on them are kept
    abstract in a record; reading and the tests on a path observe the
    world, writing changes it, and each of them can raise.  Exceptions
    that are not instances of [Exception] are not modelled. *)

(** An exception of a file operation, as the handlers of [process_file]
    tell them apart: a [UnicodeDecodeError], or another exception with its
    message [str(e)]. *)
Inductive io_exn :=
| UnicodeDecodeError
| OtherException (message : str).

Inductive io_result (A : Type) :=
| Returns (a : A)
| Raises (e : io_exn).
Arguments Raises {A} e.

Record Pathlib := {
  path : Type;
  world : Type;
  Path : str -> path;
  str_of_path : path -> str;
  stem : path -> str;
  path_suffix : path -> str;
  parent : path -> path;
  joinpath : path -> str -> path;
  exists_ : world -> path -> io_result bool;
  is_file : world -> path -> io_result bool;
  is_dir : world -> path -> io_result bool;
  glob : world -> path -> str -> io_result (list path);
  read_text : world -> path -> io_result str;
  write_text : world -> path -> str -> world * option io_exn;
  lower : str -> str;
  str_of_exn : exn -> str
}.

(** The namespace that [parse_args] returns. *)
Record Namespace := {
  args_path : option str;
  args_inplace : bool;
  args_prefix : str;
  args_suffix : str;
  args_ext : str;
  args_recursive : bool;
  args_quiet : bool;
  args_list_rules : bool
}.

(** Truth value of a string: the empty string is false. *)
Definition truthy (s : str) : bool :=
  match s with
  | [] => false
  | _ :: _ => true
  end.

Definition str_eqb (a b : str) : bool :=
  if list_eq_dec N.eq_dec a b then true else false.

(** How [main] ends: it returns a value, leaves through [parser.error]
    (which exits with status 2), or lets an exception of a file operation
    through. *)
Inductive outcome :=
| Return (value : option nat)
| SystemExit (code : nat)
| Uncaught (e : io_exn).

(** The exit status of [sys.exit(main())]. *)
Definition exit_status (o : outcome) : nat :=
  match o with
  | Return None => 0
  | Return (Some n) => n
  | SystemExit code => code
  | Uncaught _ => 1
  end.

Section CommandLine.

Variable fs : Pathlib.

(** The line an exception handler of [process_file] prints. *)
Definition handler_line (file_path : path fs) (e : io_exn) : str :=
  match e with
  | UnicodeDecodeError =>
      py "Warning: Could not decode " ++ str_of_path fs file_path
      ++ py " as UTF-8, skipping"
  | OtherException message =>
      py "Error processing " ++ str_of_path fs file_path ++ py ": " ++ message
  end.

Definition process_file (w : world fs) (file_path : path fs) (args : Namespace)
    (out : list str) : world fs * list str :=
  let out := out ++ [py "Processing: " ++ str_of_path fs file_path] in
  match read_text fs w file_path with
  | Raises e => (w, out ++ [handler_line file_path e])
  | Returns data =>
      match transform data (negb (args_quiet args)) out with
      | (Raise e, out) =>
          (w, out ++ [handler_line file_path (OtherException (str_of_exn fs e))])
      | (Ok transformed, out) =>
          if (args_inplace args && negb (truthy (args_prefix args))
              && negb (truthy (args_suffix args)))%bool
          then
            match write_text fs w file_path transformed with
            | (w', Some e) => (w', out ++ [handler_line file_path e])
            | (w', None) =>
                (w', out ++ [py "Updated in-place: " ++ str_of_path fs file_path])
            end
          else
            let output_name :=
              args_prefix args ++ stem fs file_path ++ args_suffix args
              ++ args_ext args in
            let output_path := joinpath fs (parent fs file_path) output_name in
            match write_text fs w output_path transformed with
            | (w', Some e) => (w', out ++ [handler_line file_path e])
            | (w', None) => (w', out ++ [py "Created: " ++ str_of_path fs output_path])
            end
      end
  end.

(** The loop of [main] over the files found. *)
Fixpoint process_files (w : world fs) (tex_files : list (path fs)) (args : Namespace)
    (out : list str) : world fs * list str :=
  match tex_files with
  | [] => (w, out)
  | tex_file :: tex_files' =>
      let (w', out') := process_file w tex_file args out in
      process_files w' tex_files' args out'
  end.

Definition main (args : Namespace) (w : world fs) (out : list str)
    : outcome * world fs * list str :=
  if args_list_rules args then (Return None, w, print_rules out)
  else
    match args_path args with
    | None => (SystemExit 2, w, out)
    | Some p =>
        if negb (truthy p) then (SystemExit 2, w, out)
        else
          let path := Path fs p in
          match exists_ fs w path with
          | Raises e => (Uncaught e, w, out)
          | Returns false =>
              (Return (Some 1), w,
               out ++ [py "Error: Path '" ++ p ++ py "' does not exist."])
          | Returns true =>
              match is_file fs w path with
              | Raises e => (Uncaught e, w, out)
              | Returns true =>
                  let out :=
                    if negb (str_eqb (lower fs (path_suffix fs path)) (py ".tex"))
                    then out ++ [py "Warning: '" ++ str_of_path fs path
                                 ++ py "' does not have .tex extension"]
                    else out in
                  let (w', out') := process_file w path args out in
                  (Return (Some 0), w', out')
              | Returns false =>
                  match is_dir fs w path with
                  | Raises e => (Uncaught e, w, out)
                  | Returns true =>
                      let pattern :=
                        if args_recursive args then py "**/*.tex" else py "*.tex" in
                      match glob fs w path pattern with
                      | Raises e => (Uncaught e, w, out)
                      | Returns [] =>
                          (Return (Some 1), w,
                           out ++ [py "No .tex files found in " ++ str_of_path fs path
                                   ++ (if args_recursive args then py " (recursive)"
                                       else [])])
                      | Returns tex_files =>
                          let out :=
                            out ++ [py "Found " ++ str_of_nat (length tex_files)
                                    ++ py " .tex file(s) to process"] in
                          let (w', out') := process_files w tex_files args out in
                          (Return (Some 0), w', out')
                      end
                  | Returns false =>
                      (Return (Some 1), w,
                       out ++ [py "Error: '" ++ p
                               ++ py "' is neither a file nor a directory."])
                  end
              end
          end
    end.

End CommandLine.

(** The namespace with another value of one flag. *)
Definition with_quiet (q : bool) (args : Namespace) : Namespace :=
  {| args_path := args_path args; args_inplace := args_inplace args;
     args_prefix := args_prefix args; args_suffix := args_suffix args;
     args_ext := args_ext args; args_recursive := args_recursive args;
     args_quiet := q; args_list_rules := args_list_rules args |}.

Definition with_inplace (b : bool) (args : Namespace) : Namespace :=
  {| args_path := args_path args; args_inplace := b;
     args_prefix := args_prefix args; args_suffix := args_suffix args;
     args_ext := args_ext args; args_recursive := args_recursive args;
     args_quiet := args_quiet args; args_list_rules := args_list_rules args |}.

Definition with_ext (e : str) (args : Namespace) : Namespace :=
  {| args_path := args_path args; args_inplace := args_inplace args;
     args_prefix := args_prefix args; args_suffix := args_suffix args;
     args_ext := e; args_recursive := args_recursive args;
     args_quiet := args_quiet args; args_list_rules := args_list_rules args |}.

(** A file system in memory, for examples: a path is its own name, the
    world lists the files with their content, [None] for a file that is
    not valid UTF-8; every path is an existing directory that holds all
    the files. *)
Definition memory_read (w : list (str * option str)) (p : str) : io_result str :=
  match find (fun f => str_eqb (fst f) p) w with
  | Some (_, Some content) => Returns content
  | Some (_, None) => Raises UnicodeDecodeError
  | None => Raises (OtherException (py "No such file"))
  end.

Definition memory_fs : Pathlib :=
  {| path := str;
     world := list (str * option str);
     Path := fun s => s;
     str_of_path := fun p => p;
     stem := fun p => p;
     path_suffix := fun p => [];
     parent := fun p => [];
     joinpath := fun d n => d ++ n;
     exists_ := fun w p => Returns true;
     is_file := fun w p => Returns (existsb (fun f => str_eqb (fst f) p) w);
     is_dir := fun w p => Returns true;
     glob := fun w p pattern => Returns (map fst w);
     read_text := memory_read;
     write_text := fun w p s => ((p, Some s) :: w, None);
     lower := fun s => s;
     str_of_exn := fun e => py "error" |}.

(** A pattern without [^] outside MULTILINE mode: a match attempt after a
    line feed is a match attempt at the start of the text. *)
Definition unanchored (p : Re.pattern) : Prop :=
  Forall (fun o => o <> Re.At_beginning) (Re.code p).

(** ** Nested commands *)

(** The template that puts [pre] before and [suf] after the argument. *)
Definition around (pre suf : str) : list Re.titem :=
  map Re.TLit pre ++ Re.TGroup 1 :: map Re.TLit suf.

(** A text without backslash and braces. *)
Definition plain_arg (s : str) : Prop :=
  Forall (fun c => c <> 92%N /\ c <> 123%N /\ c <> 125%N) s.

(** [rule] is the rule of the entry [e] of the table. *)
Definition rule_of (rule : ConversionRule) (e : str * str * str) : Prop :=
  compile_rule rule = Some (command (fst (fst e)), around (snd (fst e)) (snd e)).

(** The name of an entry is a command name, its texts are plain. *)
Definition entry_ok (e : str * str * str) : Prop :=
  forallb name_char (fst (fst e)) = true /\ plain_arg (snd (fst e)) /\ plain_arg (snd e).

(** The command names of entries. *)
Definition names (es : list (str * str * str)) : list str :=
  map (fun e => fst (fst e)) es.

(** The rules [rules] turn [text] into [text'], whatever they print. *)
Definition runs (rules : list ConversionRule) (text text' : str) : Prop :=
  forall verbose out,
  exists out', transform_loop rules text verbose out = (Ok text', out').

(** ** Flat documents *)

(** A piece of a flat document: a text without backslash, or a command of
    the table [conversions] with whitespace before its brace and an
    argument without backslash and braces. *)
Inductive piece :=
| Text (s : str)
| Cmd (e : str * str * str) (sp arg : str).

Definition piece_ok (x : piece) : Prop :=
  match x with
  | Text s => no_backslash s
  | Cmd e sp arg =>
      In e conversions /\ Forall (fun c => Re.uni_isspace c = true) sp /\
      plain_arg arg /\ arg <> []
  end.

(** The LaTeX text of a piece, and the Typst text it stands for. *)
Definition latex (x : piece) : str :=
  match x with
  | Text s => s
  | Cmd e sp arg => command_text (fst (fst e)) sp arg
  end.

Definition typst (x : piece) : str :=
  match x with
  | Text s => s
  | Cmd e sp arg => snd (fst e) ++ arg ++ snd e
  end.

(** A piece after the rules of the entries [es]. *)
Definition converted (es : list (str * str * str)) (x : piece) : piece :=
  match x with
  | Text s => Text s
  | Cmd e sp arg =>
      if existsb (str_eqb (fst (fst e))) (names es) then Text (typst x) else x
  end.

(** ** The transformation as the rule table words it

    Each rule of the table is read as a function on texts that does not go
    through regular expressions.  A command rule replaces every occurrence
    of its command, taken from left to right: the backslash and the command
    name, optional whitespace, and between braces an argument that is not
    empty and holds no brace; the occurrence becomes the argument between
    the two texts of the entry of the table.  The double backslash rule is
    [collapse], the line comment rule is [comment_lines].  The
    transformation is the fold of these passes, with a log of the passes
    that replaced something. *)

(** The longest prefix of [s] whose characters satisfy [f], and what
    follows it. *)
Fixpoint span (f : char -> bool) (s : str) : str * str :=
  match s with
  | [] => ([], [])
  | c :: s' =>
      if f c then let (taken, rest) := span f s' in (c :: taken, rest)
      else ([], s)
  end.

(** [s] without the text [lit] it starts with. *)
Fixpoint strip (lit s : str) : option str :=
  match lit with
  | [] => Some s
  | l :: lit' =>
      match s with
      | c :: s' => if N.eqb l c then strip lit' s' else None
      | [] => None
      end
  end.

(** An occurrence of the command [cmd] at the start of [s]: its argument
    and the text behind its closing brace. *)
Definition occurrence (cmd s : str) : option (str * str) :=
  match strip (92%N :: cmd) s with
  | Some s1 =>
      match snd (span Re.uni_isspace s1) with
      | c :: s2 =>
          if N.eqb c 123 then
            match span (fun x => negb (is_brace x)) s2 with
            | (x :: arg, d :: rest) =>
                if N.eqb d 125 then Some (x :: arg, rest) else None
            | _ => None
            end
          else None
      | [] => None
      end
  | None => None
  end.

(** Every occurrence of the command, from left to right, becomes its
    argument between [pre] and [suf]; the other characters are copied.
    [covered] is the number of characters that still belong to the
    occurrence just replaced.  The result is the new text and the number
    of occurrences. *)
Fixpoint replace_command (cmd pre suf s : str) (covered : nat) : str * nat :=
  match s with
  | [] => ([], 0)
  | c :: s' =>
      match covered with
      | S covered' => replace_command cmd pre suf s' covered'
      | O =>
          match occurrence cmd s with
          | Some (arg, rest) =>
              let (behind, n) :=
                replace_command cmd pre suf s' (length s' - length rest) in
              (pre ++ arg ++ suf ++ behind, S n)
          | None =>
              let (behind, n) := replace_command cmd pre suf s' 0 in
              (c :: behind, n)
          end
      end
  end.

(** The pass of an entry of the table. *)
Definition command_pass (e : str * str * str) (s : str) : str * nat :=
  replace_command (fst (fst e)) (snd (fst e)) (snd e) s 0.

(** The passes of the rule table, in its order, each with its name. *)
Definition passes : list (str * (str -> str * nat)) :=
  map (fun e => (fst (fst e), command_pass e)) conversions ++
  [(py "double backslash", fun s => (collapse s, count_pairs s));
   (py "line comment", fun s => (comment_lines s, count_comments s))].

(** One step of the fold: apply the pass, and log it when its count is
    positive. *)
Definition apply_pass (acc : str * list (str * nat)) (pass : str * (str -> str * nat))
    : str * list (str * nat) :=
  let (next, count) := snd pass (fst acc) in
  (next, if Nat.ltb 0 count then snd acc ++ [(fst pass, count)] else snd acc).

Definition fold_passes (text : str) : str * list (str * nat) :=
  fold_left apply_pass passes (text, []).

(** [rule] does what [pass] says, under the same name: on every text,
    [re.subn] with its pattern and replacement returns the text and the
    count of the pass. *)
Definition does (rule : ConversionRule) (pass : str * (str -> str * nat)) : Prop :=
  name rule = fst pass /\
  forall current,
    Re.subn (pattern rule) (replacement rule) current = Ok (snd pass current).

(** * Properties *)

(** ** The registry compiles *)

Lemma subn_compiled rule p t text :
  compile_rule rule = Some (p, t) ->
  Re.subn (pattern rule) (replacement rule) text = Ok (Re.subn_scan p t None text 0).
Proof.
  unfold compile_rule, Re.subn.
  destruct (Re.compile (pattern rule)) as [p'|]; [|discriminate].
  destruct (Re.compile_template p' (replacement rule)) as [t'|]; [|discriminate].
  intros H; injection H as -> ->; reflexivity.
Qed.

Lemma registry_compiles : Forall compiles CONVERSION_RULES.
Proof.
  unfold CONVERSION_RULES, compiles.
  repeat (apply Forall_cons; [eexists; eexists; vm_compute; reflexivity|]).
  apply Forall_nil.
Qed.

(** ** The engine: what a successful match looks like *)

Section Engine.

Import Re.

Lemma prev_after_cons prev c taken :
  prev_after prev (c :: taken) = prev_after (Some c) taken.
Proof.
  unfold prev_after; simpl.
  destruct (rev taken) as [|x xs] eqn:E; simpl; reflexivity.
Qed.

Lemma prev_after_snoc prev pre c : prev_after prev (pre ++ [c]) = Some c.
Proof. unfold prev_after. rewrite rev_unit. reflexivity. Qed.

(** A successful repetition has taken at least [min] characters of the
    class, and the rest of the code matched after them. *)
Lemma repeat_one_inv cs k m :
  forall rest min prev pos,
    repeat_one cs min k prev rest pos = Some m ->
    exists taken rest',
      rest = taken ++ rest' /\
      Forall (fun c => charset cs c = true) taken /\
      min <= length taken /\
      k (prev_after prev taken) rest' (pos + length taken) = Some m.
Proof.
  induction rest as [|c rest IH]; intros min prev pos H; simpl in H.
  - destruct (Nat.eqb_spec min 0) as [->|]; [|discriminate].
    exists [], []; simpl; rewrite Nat.add_0_r; auto.
  - assert (Hstop : (if Nat.eqb min 0 then k prev (c :: rest) pos else None) = Some m ->
              exists taken rest',
                c :: rest = taken ++ rest' /\
                Forall (fun c => charset cs c = true) taken /\
                min <= length taken /\
                k (prev_after prev taken) rest' (pos + length taken) = Some m).
    { destruct (Nat.eqb_spec min 0) as [->|]; [|discriminate].
      intros Hk; exists [], (c :: rest); simpl; rewrite Nat.add_0_r; auto. }
    destruct (charset cs c) eqn:Hc; [|exact (Hstop H)].
    destruct (repeat_one cs (pred min) k (Some c) rest (S pos)) as [m'|] eqn:Hrec;
      [|exact (Hstop H)].
    injection H as ->.
    destruct (IH _ _ _ Hrec) as (taken & rest' & -> & Hall & Hmin & Hk).
    exists (c :: taken), rest'; repeat split.
    + constructor; assumption.
    + simpl; lia.
    + rewrite prev_after_cons; simpl length.
      replace (pos + S (length taken)) with (S pos + length taken) by lia.
      exact Hk.
Qed.

(** The matcher only moves forward. *)
Lemma sre_match_pos ops :
  forall prev rest pos mk adv m,
    sre_match ops prev rest pos mk adv = Some m -> pos <= fst m.
Proof.
  induction ops as [|o ops IH]; intros prev rest pos mk adv m H; simpl in H.
  - destruct (adv && Nat.eqb pos 0); [discriminate|]. injection H as <-; simpl; lia.
  - destruct o as [cs|min cs|i| |].
    + destruct rest as [|c rest]; [discriminate|].
      destruct (charset cs c); [|discriminate].
      apply IH in H; lia.
    + apply repeat_one_inv in H. destruct H as (taken & rest' & _ & _ & _ & H).
      apply IH in H; lia.
    + apply IH in H; lia.
    + destruct prev; [discriminate|]. apply IH in H; lia.
    + destruct prev as [c|]; [destruct (N.eqb c 10); [|discriminate]|]; apply IH in H; lia.
Qed.

(** With [must_advance] a match is not empty. *)
Lemma sre_match_advance ops :
  forall prev rest pos mk m,
    sre_match ops prev rest pos mk true = Some m -> 0 < fst m.
Proof.
  induction ops as [|o ops IH]; intros prev rest pos mk m H; simpl in H.
  - destruct (Nat.eqb_spec pos 0); [discriminate|]. injection H as <-; simpl; lia.
  - destruct o as [cs|min cs|i| |].
    + destruct rest as [|c rest]; [discriminate|].
      destruct (charset cs c); [|discriminate]. eauto.
    + apply repeat_one_inv in H. destruct H as (taken & rest' & _ & _ & _ & H). eauto.
    + eauto.
    + destruct prev; [discriminate|]. eauto.
    + destruct prev as [c|]; [destruct (N.eqb c 10); [|discriminate]|]; eauto.
Qed.

Lemma matches_here_shape p prev rest : here_shape (matches_here p prev rest).
Proof.
  unfold matches_here.
  destruct (match_at p prev rest false) as [[[|n] mk]|]; try constructor.
  destruct (match_at p prev rest true) as [m|] eqn:H; constructor.
  exact (sre_match_advance _ _ _ _ _ H).
Qed.

End Engine.

(** Every match found at a position is a match of the pattern there. *)
Lemma matches_here_in p prev rest m :
  In m (Re.matches_here p prev rest) ->
  exists adv, Re.match_at p prev rest adv = Some m.
Proof.
  unfold Re.matches_here.
  destruct (Re.match_at p prev rest false) as [[[|n] mk]|] eqn:E.
  - intros [<-|H]; [exists false; exact E|].
    destruct (Re.match_at p prev rest true) as [m'|] eqn:E'; [|contradiction].
    destruct H as [<-|[]]. exists true; exact E'.
  - intros [<-|[]]. exists false; exact E.
  - intros [].
Qed.

Lemma consumed_one m : Re.consumed [m] = fst m.
Proof. unfold Re.consumed. simpl. lia. Qed.

(** The equations of the substitution loop. *)
Lemma subn_scan_here p t prev c rest :
  Re.subn_scan p t prev (c :: rest) 0 =
  let ms := Re.matches_here p prev (c :: rest) in
  let (tail, n) := Re.subn_scan p t (Some c) rest (pred (Re.consumed ms)) in
  (flat_map (Re.expand t (c :: rest)) ms
     ++ (if Nat.eqb (Re.consumed ms) 0 then [c] else []) ++ tail,
   length ms + n).
Proof. reflexivity. Qed.

Lemma subn_scan_skip p t prev c rest skip :
  Re.subn_scan p t prev (c :: rest) (S skip) = Re.subn_scan p t (Some c) rest skip.
Proof. reflexivity. Qed.

(** ** Marks and expansion *)

(** The marks of a match lie inside the match. *)
Lemma sre_match_marks ops :
  forall prev rest pos mk adv n mk',
    Re.sre_match ops prev rest pos mk adv = Some (n, mk') ->
    (forall i q, In (i, q) mk -> q <= pos) ->
    forall i q, In (i, q) mk' -> q <= n.
Proof.
  induction ops as [|o ops IH]; intros prev rest pos mk adv n mk' H Hmk;
    cbn [Re.sre_match] in H.
  - destruct (adv && Nat.eqb pos 0); [discriminate|]. injection H as <- <-. exact Hmk.
  - destruct o as [cs|min cs|j| |].
    + destruct rest as [|c rest]; [discriminate|].
      destruct (Re.charset cs c); [|discriminate].
      apply (IH _ _ _ _ _ _ _ H). intros i q Hin. apply Hmk in Hin. lia.
    + apply repeat_one_inv in H. destruct H as (taken & rest' & _ & _ & _ & H).
      apply (IH _ _ _ _ _ _ _ H). intros i q Hin. apply Hmk in Hin. lia.
    + apply (IH _ _ _ _ _ _ _ H). intros i q [Hin|Hin].
      * injection Hin as _ <-. lia.
      * apply Hmk in Hin. lia.
    + destruct prev; [discriminate|]. apply (IH _ _ _ _ _ _ _ H). exact Hmk.
    + destruct prev as [c|]; [destruct (N.eqb c 10); [|discriminate]|];
        apply (IH _ _ _ _ _ _ _ H); exact Hmk.
Qed.

Lemma match_at_marks p prev rest adv len mk :
  Re.match_at p prev rest adv = Some (len, mk) ->
  forall i q, In (i, q) mk -> q <= len.
Proof.
  intros H. eapply sre_match_marks; [exact H|]. intros i q [].
Qed.

Lemma mark_pos_in i mk q : Re.mark_pos i mk = Some q -> In (i, q) mk.
Proof.
  induction mk as [|[j r] mk IH]; cbn [Re.mark_pos]; [discriminate|].
  destruct (Nat.eqb_spec i j) as [->|_].
  - intros H; injection H as ->. left; reflexivity.
  - intros H. right. exact (IH H).
Qed.

Lemma flat_map_ext_in (A B : Type) (f g : A -> list B) (l : list A) :
  (forall a, In a l -> f a = g a) -> flat_map f l = flat_map g l.
Proof.
  induction l as [|a l IH]; intros H; cbn [flat_map]; [reflexivity|].
  rewrite (H a (or_introl eq_refl)), IH; [reflexivity|].
  intros b Hb. apply H. right; exact Hb.
Qed.


(** The expansion of a template reads the subject only inside the match. *)
Lemma expand_local t len mk (text1 text2 : str) :
  (forall i q, In (i, q) mk -> q <= len) ->
  firstn len text1 = firstn len text2 ->
  Re.expand t text1 (len, mk) = Re.expand t text2 (len, mk).
Proof.
  intros Hmk Heq.
  assert (Hcut : forall b e (text : str), e <= len ->
             firstn (e - b) (skipn b text) = firstn (e - b) (skipn b (firstn len text))).
  { intros b e text He. rewrite skipn_firstn_comm, firstn_firstn.
    f_equal. lia. }
  unfold Re.expand. apply flat_map_ext. intros [c|g]; [reflexivity|].
  unfold Re.group_text. cbn [snd].
  destruct (Re.mark_pos (2 * (g - 1)) mk) as [b|]; [|reflexivity].
  destruct (Re.mark_pos (2 * (g - 1) + 1) mk) as [e|] eqn:He; [|reflexivity].
  apply mark_pos_in, Hmk in He.
  rewrite (Hcut b e text1 He), (Hcut b e text2 He), Heq. reflexivity.
Qed.

(** ** Substitution is the splice of the matches found *)

Section Splice.

Variable p : Re.pattern.
Variable t : list Re.titem.

Lemma skipn_length_app (pre x : str) : skipn (length pre) (pre ++ x) = x.
Proof. induction pre; simpl; auto. Qed.

Lemma skipn_S_length_app (pre : str) c x : skipn (S (length pre)) (pre ++ c :: x) = x.
Proof. induction pre; simpl; auto. Qed.

Lemma skipn_beyond (n : nat) (s : str) : length s <= n -> skipn n s = [].
Proof. apply skipn_all2. Qed.

Lemma splice_here text at_ ms tl :
  here_shape ms ->
  splice t text at_ (map (pair at_) ms ++ tl) =
  flat_map (Re.expand t (skipn at_ text)) ms ++ splice t text (at_ + Re.consumed ms) tl.
Proof.
  intros [|m|mk m Hm]; unfold Re.consumed; simpl.
  - rewrite Nat.add_0_r; reflexivity.
  - rewrite Nat.sub_diag, !Nat.add_0_r, app_nil_r; reflexivity.
  - rewrite Nat.sub_diag, !Nat.add_0_r, Nat.sub_diag, app_nil_r; simpl.
    rewrite <- app_assoc; reflexivity.
Qed.

Lemma find_all_from_ge :
  forall rest prev at_ skip b m,
    In (b, m) (find_all_from p prev rest at_ skip) -> at_ + skip <= b.
Proof.
  induction rest as [|c rest IH]; intros prev at_ skip b m H;
    destruct skip as [|skip]; simpl in H.
  - rewrite app_nil_r in H. apply in_map_iff in H.
    destruct H as (x & Hx & _); injection Hx as <- _; lia.
  - contradiction.
  - apply in_app_or in H. destruct H as [H|H].
    + apply in_map_iff in H. destruct H as (x & Hx & _); injection Hx as <- _; lia.
    + apply IH in H; lia.
  - apply IH in H; lia.
Qed.

Lemma splice_step pre c rest tl :
  (forall b m, In (b, m) tl -> S (length pre) <= b) ->
  splice t (pre ++ c :: rest) (length pre) tl =
  c :: splice t (pre ++ c :: rest) (S (length pre)) tl.
Proof.
  intros Hge. destruct tl as [|[b m] tl]; cbn [splice].
  - rewrite skipn_length_app, skipn_S_length_app; reflexivity.
  - assert (Hb : S (length pre) <= b) by (apply (Hge b m); left; reflexivity).
    rewrite skipn_length_app, skipn_S_length_app.
    replace (b - length pre) with (S (b - S (length pre))) by lia.
    reflexivity.
Qed.

Lemma subn_scan_splice :
  forall rest pre prev skip,
    Re.subn_scan p t prev rest skip =
    (splice t (pre ++ rest) (length pre + skip)
       (find_all_from p prev rest (length pre) skip),
     length (find_all_from p prev rest (length pre) skip)).
Proof.
  induction rest as [|c rest IH]; intros pre prev skip.
  - destruct skip as [|skip]; cbn [Re.subn_scan find_all_from].
    + rewrite Nat.add_0_r, splice_here by apply matches_here_shape.
      cbn [splice]. rewrite !app_nil_r, length_map.
      rewrite !skipn_beyond by lia. rewrite app_nil_r. reflexivity.
    + cbn [splice length]. rewrite skipn_beyond by (rewrite length_app; simpl; lia).
      reflexivity.
  - assert (Hpre : forall x, (pre ++ [c]) ++ x = pre ++ c :: x)
      by (intros; rewrite <- app_assoc; reflexivity).
    assert (Hlen : length (pre ++ [c]) = S (length pre))
      by (rewrite length_app; simpl; lia).
    destruct skip as [|skip]; cbn [Re.subn_scan find_all_from].
    + rewrite (IH (pre ++ [c])), Hpre, Hlen.
      rewrite Nat.add_0_r, splice_here by apply matches_here_shape.
      rewrite skipn_length_app, length_app, length_map.
      f_equal. f_equal.
      destruct (Re.consumed (Re.matches_here p prev (c :: rest))) as [|k] eqn:Hk; simpl.
      * rewrite !Nat.add_0_r. symmetry. apply splice_step.
        intros b m Hin. apply find_all_from_ge in Hin; lia.
      * f_equal; lia.
    + rewrite (IH (pre ++ [c])), Hpre, Hlen.
      replace (length pre + S skip) with (S (length pre) + skip) by lia.
      reflexivity.
Qed.

Lemma subn_scan_find_all text :
  Re.subn_scan p t None text 0 =
  (splice t text 0 (find_all p text), length (find_all p text)).
Proof. exact (subn_scan_splice text [] None 0). Qed.

(** Without a match anywhere the text is copied. *)
Lemma search_none_scan :
  forall rest prev at_,
    Re.search_from p prev rest at_ = None ->
    Re.subn_scan p t prev rest 0 = (rest, 0).
Proof.
  induction rest as [|c rest IH]; intros prev at_ H;
    cbn [Re.search_from] in H; cbn [Re.subn_scan]; unfold Re.matches_here;
    destruct (Re.match_at p prev _ false) as [m|] eqn:Hm; try discriminate.
  - reflexivity.
  - cbn. rewrite (IH _ _ H). reflexivity.
Qed.

End Splice.

(** ** The matches found by [find_all] *)

Section FindAll.

Variable p : Re.pattern.

(** The first match found is the one [re.search] finds: the leftmost. *)
Lemma find_all_from_head :
  forall rest prev at_,
    hd_error (find_all_from p prev rest at_ 0) = Re.search_from p prev rest at_.
Proof.
  induction rest as [|c rest IH]; intros prev at_;
    cbn [find_all_from Re.search_from]; unfold Re.matches_here;
    destruct (Re.match_at p prev _ false) as [[[|n] mk]|]; try reflexivity.
  cbn [map app Re.consumed]. change (pred (Re.consumed [])) with 0. apply IH.
Qed.

Lemma find_all_head text : hd_error (find_all p text) = Re.search p text.
Proof. apply find_all_from_head. Qed.

(** Every match found is a match of the pattern at its position: the text
    splits there, and the pattern matches what follows. *)
Lemma find_all_from_matches :
  forall rest pre skip b m,
    In (b, m) (find_all_from p (prev_after None pre) rest (length pre) skip) ->
    exists pre' rest' adv,
      pre ++ rest = pre' ++ rest' /\ b = length pre' /\
      Re.match_at p (prev_after None pre') rest' adv = Some m.
Proof.
  pose proof (@matches_here_in p) as Hhere.
  assert (Hstep : forall c pre, Some c = prev_after None (pre ++ [c]) /\
                                S (length pre) = length (pre ++ [c]) /\
                                forall rest : str, pre ++ c :: rest = (pre ++ [c]) ++ rest).
  { intros c pre. rewrite prev_after_snoc, length_app. cbn [length].
    repeat split; [lia|]. intros rest. rewrite <- app_assoc. reflexivity. }
  induction rest as [|c rest IH]; intros pre skip b m H;
    destruct skip as [|skip]; cbn [find_all_from] in H.
  - rewrite app_nil_r in H. apply in_map_iff in H. destruct H as (m' & Hm & Hin).
    injection Hm as <- <-. destruct (Hhere _ _ _ Hin) as (adv & E).
    exists pre, [], adv. auto.
  - contradiction.
  - apply in_app_or in H. destruct H as [H|H].
    + apply in_map_iff in H. destruct H as (m' & Hm & Hin).
      injection Hm as <- <-. destruct (Hhere _ _ _ Hin) as (adv & E).
      exists pre, (c :: rest), adv. auto.
    + destruct (Hstep c pre) as (Hp & Hl & Ha). rewrite Hp, Hl in H.
      destruct (IH _ _ _ _ H) as (pre' & rest' & adv & Heq & Hb & E).
      exists pre', rest', adv. rewrite Ha. auto.
  - destruct (Hstep c pre) as (Hp & Hl & Ha). rewrite Hp, Hl in H.
    destruct (IH _ _ _ _ H) as (pre' & rest' & adv & Heq & Hb & E).
    exists pre', rest', adv. rewrite Ha. auto.
Qed.

Lemma find_all_matches text b m :
  In (b, m) (find_all p text) ->
  exists pre rest adv,
    text = pre ++ rest /\ b = length pre /\
    Re.match_at p (prev_after None pre) rest adv = Some m.
Proof. exact (find_all_from_matches text [] 0 b m). Qed.

(** The matches found come from left to right and do not overlap. *)
Lemma find_all_from_sorted :
  forall rest prev at_ skip, Sorted precedes (find_all_from p prev rest at_ skip).
Proof.
  assert (Hhd : forall a l, (forall b m, In (b, m) l -> fst a + fst (snd a) <= b) ->
                            HdRel precedes a l).
  { intros a [|[b m] l] H; constructor. unfold precedes. cbn [fst].
    apply (H b m). left; reflexivity. }
  induction rest as [|c rest IH]; intros prev at_ skip;
    destruct skip as [|skip]; cbn [find_all_from].
  - rewrite app_nil_r.
    pose proof (matches_here_shape p prev []) as Hs.
    destruct Hs as [|m|mk m Hm]; cbn [map]; repeat constructor.
    unfold precedes; cbn; lia.
  - constructor.
  - set (ms := Re.matches_here p prev (c :: rest)).
    pose proof (matches_here_shape p prev (c :: rest)) as Hs. fold ms in Hs.
    pose proof (IH (Some c) (S at_) (pred (Re.consumed ms))) as Htail.
    assert (Hge : forall b m,
               In (b, m) (find_all_from p (Some c) rest (S at_) (pred (Re.consumed ms))) ->
               S at_ + pred (Re.consumed ms) <= b)
      by (intros b m Hin; eapply find_all_from_ge; exact Hin).
    clearbody ms. destruct Hs as [|m|mk m Hm]; cbn [map app].
    + exact Htail.
    + constructor; [exact Htail|]. apply Hhd. intros b m' Hin. apply Hge in Hin.
      rewrite consumed_one in Hin. cbn [fst snd]. lia.
    + constructor; [constructor; [exact Htail|]|].
      * apply Hhd. intros b m' Hin. apply Hge in Hin.
        unfold Re.consumed in Hin. cbn in Hin. cbn [fst snd]. lia.
      * constructor. unfold precedes; cbn; lia.
  - apply IH.
Qed.

Lemma find_all_sorted text : Sorted precedes (find_all p text).
Proof. apply find_all_from_sorted. Qed.

End FindAll.

(** ** The loop of [transform] *)

(** The definitions over the registry, unfolded by rewriting. *)
Lemma transform_eq text verbose out :
  transform text verbose out = transform_loop CONVERSION_RULES text verbose out.
Proof. reflexivity. Qed.

Lemma spec_transform_eq text :
  spec_transform text = fold_left spec_pass CONVERSION_RULES (Some (text, [])).
Proof. reflexivity. Qed.

Lemma unmatched_eq text :
  unmatched text = Forall (fun rule => has_match rule text = false) CONVERSION_RULES.
Proof. reflexivity. Qed.

Lemma transform_twice_eq text verbose out :
  transform_twice text verbose out =
  match transform text verbose out with
  | (Ok text', out') => transform text' verbose out'
  | (Raise e, out') => (Raise e, out')
  end.
Proof. reflexivity. Qed.

Lemma progress_line_log_line rule n : progress_line rule n = log_line (name rule, n).
Proof. reflexivity. Qed.

(** The loop computes the fold of the specification, and prints the log. *)
Lemma transform_loop_spec :
  forall rules, Forall compiles rules ->
  forall text log,
  exists current log',
    fold_left spec_pass rules (Some (text, log)) = Some (current, log ++ log') /\
    (forall out, transform_loop rules text true out =
                 (Ok current, out ++ map log_line log')) /\
    (forall out, transform_loop rules text false out = (Ok current, out)).
Proof.
  induction 1 as [|rule rules (p & t & Hc) _ IH]; intros text log.
  - exists text, []; simpl; rewrite !app_nil_r; repeat split; intros; now rewrite ?app_nil_r.
  - cbn [fold_left transform_loop spec_pass]. unfold global_substitution.
    rewrite Hc, (subn_compiled _ _ Hc), subn_scan_find_all.
    set (next := splice t text 0 (find_all p text)).
    set (count := length (find_all p text)).
    destruct count as [|n].
    + destruct (IH next log) as (current & log' & Hf & Ht & Hq).
      exists current, log'; repeat split; assumption.
    + destruct (IH next (log ++ [(name rule, S n)])) as (current & log' & Hf & Ht & Hq).
      exists current, ((name rule, S n) :: log'); repeat split.
      * cbn [Nat.ltb Nat.leb]. rewrite Hf, <- app_assoc; reflexivity.
      * intros out. cbn [Nat.eqb negb andb]. rewrite Ht, progress_line_log_line.
        cbn [map]. rewrite <- app_assoc; reflexivity.
      * intros out. cbn [Nat.eqb negb andb]. apply Hq.
Qed.

(** The result does not depend on [verbose], nor on what was printed. *)
Lemma transform_loop_fst :
  forall rules text v1 v2 out1 out2,
    fst (transform_loop rules text v1 out1) = fst (transform_loop rules text v2 out2).
Proof.
  induction rules as [|rule rules IH]; intros text v1 v2 out1 out2; cbn [transform_loop].
  - reflexivity.
  - destruct (Re.subn (pattern rule) (replacement rule) text) as [[new_text n]|e].
    + apply IH.
    + reflexivity.
Qed.

(** The loop only appends to the output. *)
Lemma transform_loop_appends :
  forall rules text v out,
    exists lines, snd (transform_loop rules text v out) = out ++ lines.
Proof.
  induction rules as [|rule rules IH]; intros text v out; cbn [transform_loop].
  - exists []; simpl; now rewrite app_nil_r.
  - destruct (Re.subn (pattern rule) (replacement rule) text) as [[new_text n]|e].
    + destruct (negb (Nat.eqb n 0) && v).
      * destruct (IH new_text v (out ++ [progress_line rule n])) as (lines & ->).
        exists (progress_line rule n :: lines). now rewrite <- app_assoc.
      * apply IH.
    + exists []; simpl; now rewrite app_nil_r.
Qed.

Lemma transform_loop_quiet :
  forall rules text out, snd (transform_loop rules text false out) = out.
Proof.
  induction rules as [|rule rules IH]; intros text out; cbn [transform_loop].
  - reflexivity.
  - destruct (Re.subn (pattern rule) (replacement rule) text) as [[new_text n]|e].
    + rewrite andb_false_r. apply IH.
    + reflexivity.
Qed.

Lemma subn_unmatched rule text :
  compiles rule -> has_match rule text = false ->
  Re.subn (pattern rule) (replacement rule) text = Ok (text, 0) /\
  global_substitution rule text = Some (text, 0).
Proof.
  intros (p & t & Hc) Hm. unfold global_substitution.
  rewrite (subn_compiled _ _ Hc), Hc.
  assert (Hs : Re.subn_scan p t None text 0 = (text, 0)).
  { apply search_none_scan with (at_ := 0).
    unfold has_match in Hm. unfold compile_rule in Hc.
    destruct (Re.compile (pattern rule)) as [p'|]; [|discriminate].
    destruct (Re.compile_template p' (replacement rule)); [|discriminate].
    injection Hc as -> _.
    unfold Re.search in Hm. destruct (Re.search_from p None text 0); [discriminate|reflexivity]. }
  split; [now rewrite Hs|].
  rewrite subn_scan_find_all in Hs. injection Hs as -> ->; reflexivity.
Qed.

Lemma transform_loop_unmatched :
  forall rules, Forall compiles rules ->
  forall text, Forall (fun rule => has_match rule text = false) rules ->
  (forall verbose out, transform_loop rules text verbose out = (Ok text, out)) /\
  (forall log, fold_left spec_pass rules (Some (text, log)) = Some (text, log)).
Proof.
  induction 1 as [|rule rules Hc _ IH]; intros text Hun.
  - split; reflexivity.
  - inversion Hun as [|? ? Hrule Hrest]; subst.
    destruct (@subn_unmatched rule text Hc Hrule) as [Hs Hg].
    destruct (IH text Hrest) as [Ht Hf].
    split.
    + intros verbose out. cbn [transform_loop]. rewrite Hs. cbn. apply Ht.
    + intros log. cbn [fold_left spec_pass]. rewrite Hg. cbn. apply Hf.
Qed.

Lemma transform_unmatched text :
  unmatched text -> forall verbose out, transform text verbose out = (Ok text, out).
Proof.
  intros H verbose out. rewrite unmatched_eq in H. rewrite transform_eq.
  apply (transform_loop_unmatched registry_compiles text H).
Qed.

Lemma spec_transform_unmatched text :
  unmatched text -> spec_transform text = Some (text, []).
Proof.
  intros H. rewrite unmatched_eq in H. rewrite spec_transform_eq.
  apply (transform_loop_unmatched registry_compiles text H).
Qed.

Lemma unmatched_nil : unmatched [].
Proof.
  rewrite unmatched_eq. unfold CONVERSION_RULES.
  repeat (apply Forall_cons; [vm_compute; reflexivity|]). apply Forall_nil.
Qed.

(** ** The double backslash rule *)

Lemma double_backslash_here prev c d rest :
  Re.matches_here double_backslash prev (c :: d :: rest) =
  if (N.eqb c 92 && N.eqb d 92)%bool then [(2, [])] else [].
Proof.
  unfold Re.matches_here, Re.match_at. cbn.
  destruct (N.eqb c 92); [destruct (N.eqb d 92)|]; reflexivity.
Qed.

Lemma double_backslash_last prev c :
  Re.matches_here double_backslash prev [c] = [].
Proof.
  unfold Re.matches_here, Re.match_at. cbn. destruct (N.eqb c 92); reflexivity.
Qed.

Lemma double_backslash_scan :
  forall rest,
    (forall prev, Re.subn_scan double_backslash [Re.TLit 92%N] prev rest 0 =
                  (collapse rest, count_pairs rest)) /\
    (forall c prev, Re.subn_scan double_backslash [Re.TLit 92%N] prev (c :: rest) 0 =
                    (collapse (c :: rest), count_pairs (c :: rest))).
Proof.
  induction rest as [|d rest [IH0 IH1]].
  - split; [reflexivity|]. intros c prev.
    rewrite subn_scan_here, double_backslash_last. reflexivity.
  - split; [intros prev; apply IH1|]. intros c prev.
    rewrite subn_scan_here, double_backslash_here.
    cbn [collapse count_pairs].
    destruct (N.eqb c 92 && N.eqb d 92)%bool.
    + cbv zeta. change (pred (Re.consumed [(2, [])])) with 1.
      rewrite subn_scan_skip, IH0. reflexivity.
    + cbv zeta. change (pred (Re.consumed [])) with 0.
      rewrite IH1. reflexivity.
Qed.

(** ** What a match covers *)

Lemma sre_match_denotes ops :
  forall prev rest pos mk adv n mk',
    Re.sre_match ops prev rest pos mk adv = Some (n, mk') ->
    exists m tail, rest = m ++ tail /\ n = pos + length m /\ denotes ops m.
Proof.
  induction ops as [|o ops IH]; intros prev rest pos mk adv n mk' H; cbn [Re.sre_match] in H.
  - destruct (adv && Nat.eqb pos 0); [discriminate|]. injection H as <- _.
    exists [], rest; simpl; auto.
  - destruct o as [cs|min cs|i| |].
    + destruct rest as [|c rest]; [discriminate|].
      destruct (Re.charset cs c) eqn:Hc; [|discriminate].
      apply IH in H. destruct H as (m & tail & -> & -> & Hd).
      exists (c :: m), tail; repeat split; [simpl; lia|].
      exists c, m; auto.
    + apply repeat_one_inv in H. destruct H as (a & rest' & -> & Ha & Hmin & H).
      apply IH in H. destruct H as (m & tail & -> & -> & Hd).
      exists (a ++ m), tail; repeat split.
      * now rewrite app_assoc.
      * rewrite length_app; lia.
      * exists a, m; auto.
    + apply IH in H. exact H.
    + destruct prev; [discriminate|]. apply IH in H. exact H.
    + destruct prev as [c|]; [destruct (N.eqb c 10); [|discriminate]|];
        apply IH in H; exact H.
Qed.

Lemma match_at_denotes p prev rest adv len mk :
  Re.match_at p prev rest adv = Some (len, mk) ->
  exists m tail, rest = m ++ tail /\ len = length m /\ denotes (Re.code p) m.
Proof.
  intros H. apply sre_match_denotes in H. exact H.
Qed.

Lemma denotes_literals cmd ops :
  forall m,
    denotes (map (fun c => Re.One (Re.Literal c)) cmd ++ ops) m ->
    exists m', m = cmd ++ m' /\ denotes ops m'.
Proof.
  induction cmd as [|c cmd IH]; intros m H; simpl in H.
  - exists m; auto.
  - destruct H as (c' & m1 & -> & Hc & H). apply N.eqb_eq in Hc; subst c'.
    apply IH in H. destruct H as (m' & -> & H). exists m'; auto.
Qed.

(** The text matched by a command rule. *)
Lemma denotes_command cmd m :
  denotes (Re.code (command cmd)) m ->
  exists sp arg : str,
    m = 92%N :: cmd ++ sp ++ 123%N :: arg ++ [125%N] /\
    Forall (fun c => Re.uni_isspace c = true) sp /\
    Forall (fun c => is_brace c = false) arg /\
    arg <> [].
Proof.
  unfold command; cbn [Re.code denotes].
  intros (c & m1 & -> & Hc & H). apply N.eqb_eq in Hc; subst c.
  apply denotes_literals in H. destruct H as (m2 & -> & H).
  cbn [denotes] in H.
  destruct H as (sp & m3 & -> & Hsp & _ & c & m4 & -> & Hc & arg & m5 & -> & Harg & Hmin
                 & c' & m6 & -> & Hc' & ->).
  apply N.eqb_eq in Hc, Hc'; subst c c'.
  exists sp, arg; repeat split.
  - exact Hsp.
  - eapply Forall_impl; [|exact Harg]. intros a Ha. cbn in Ha. unfold is_brace.
    destruct (N.eqb a 123); [discriminate|]. destruct (N.eqb a 125); [discriminate|].
    reflexivity.
  - intros ->. simpl in Hmin. lia.
Qed.

(** ** Greedy repetition *)

(** A repetition that can take a whole run of the class, up to a character
    outside it, and go on from there, does so. *)
Lemma repeat_one_greedy cs k res :
  forall a r min prev pos,
    Forall (fun c => Re.charset cs c = true) a ->
    match r with [] => True | c :: _ => Re.charset cs c = false end ->
    min <= length a ->
    k (prev_after prev a) r (pos + length a) = Some res ->
    Re.repeat_one cs min k prev (a ++ r) pos = Some res.
Proof.
  induction a as [|c a IH]; intros r min prev pos Ha Hr Hmin Hk.
  - cbn [length] in Hmin. assert (min = 0) by lia. subst min.
    cbn [app]. unfold prev_after in Hk. cbn [rev length] in Hk.
    rewrite Nat.add_0_r in Hk.
    destruct r as [|c r]; cbn [Re.repeat_one Nat.eqb]; [exact Hk|].
    rewrite Hr. exact Hk.
  - inversion Ha as [|? ? Hc Ha']; subst.
    cbn [app Re.repeat_one]. rewrite Hc.
    rewrite (IH r (pred min) (Some c) (S pos)); [reflexivity|assumption|assumption| |].
    + cbn [length] in Hmin. lia.
    + rewrite prev_after_cons in Hk. cbn [length] in Hk.
      replace (S pos + length a) with (pos + S (length a)) by lia. exact Hk.
Qed.

Lemma literals_match cmd ops mk adv :
  forall rest prev pos,
    Re.sre_match (map (fun c => Re.One (Re.Literal c)) cmd ++ ops) prev (cmd ++ rest)
                 pos mk adv =
    Re.sre_match ops (prev_after prev cmd) rest (pos + length cmd) mk adv.
Proof.
  induction cmd as [|c cmd IH]; intros rest prev pos.
  - cbn [map app length]. unfold prev_after. cbn [rev]. rewrite Nat.add_0_r. reflexivity.
  - cbn [map app Re.sre_match Re.charset length]. rewrite N.eqb_refl, IH, prev_after_cons.
    f_equal. lia.
Qed.

Lemma brace_free_charset arg :
  brace_free arg ->
  Forall (fun c => Re.charset (Re.In true [123%N; 125%N]) c = true) arg.
Proof.
  intros H. eapply Forall_impl; [|exact H]. intros c Hc. unfold is_brace in Hc.
  cbn. destruct (N.eqb c 123); [discriminate|]. destruct (N.eqb c 125); [discriminate|].
  reflexivity.
Qed.

(** A command followed by whitespace and an argument without braces is
    matched, whatever comes after the closing brace. *)
Lemma command_complete cmd sp arg prev tail adv :
  Forall (fun c => Re.uni_isspace c = true) sp -> brace_free arg -> arg <> [] ->
  Re.match_at (command cmd) prev
              ((92%N :: cmd ++ sp ++ 123%N :: arg ++ [125%N]) ++ tail) adv =
  Some (command_result cmd sp arg).
Proof.
  intros Hsp Harg Hne.
  replace ((92%N :: cmd ++ sp ++ 123%N :: arg ++ [125%N]) ++ tail)
    with (92%N :: cmd ++ sp ++ 123%N :: arg ++ 125%N :: tail)
    by (cbn [app]; rewrite <- !app_assoc; cbn [app]; rewrite <- app_assoc; reflexivity).
  unfold Re.match_at, command. cbn [Re.code Re.sre_match Re.charset].
  rewrite N.eqb_refl, literals_match. cbn [Re.sre_match].
  apply repeat_one_greedy; [exact Hsp|reflexivity|lia|].
  cbn [Re.sre_match Re.charset]. rewrite N.eqb_refl.
  apply repeat_one_greedy;
    [apply brace_free_charset; exact Harg|reflexivity|destruct arg; [contradiction|simpl; lia]|].
  cbn [Re.sre_match Re.charset]. rewrite N.eqb_refl.
  cbn [Nat.eqb]. rewrite andb_false_r. reflexivity.
Qed.

(** ** Braces *)

Lemma braces_app a b : braces (a ++ b) = braces a ++ braces b.
Proof. apply filter_app. Qed.

Lemma braces_free s : brace_free s -> braces s = [].
Proof.
  induction 1 as [|c s Hc _ IH]; simpl; [reflexivity|]. now rewrite Hc.
Qed.

Lemma space_not_brace c : Re.uni_isspace c = true -> is_brace c = false.
Proof.
  intros H. unfold is_brace.
  destruct (N.eqb_spec c 123) as [->|_]; [vm_compute in H; discriminate|].
  destruct (N.eqb_spec c 125) as [->|_]; [vm_compute in H; discriminate|].
  reflexivity.
Qed.

Lemma last_app_nonempty (a b : str) d : b <> [] -> last (a ++ b) d = last b d.
Proof.
  intros Hb. induction a as [|c a IH]; [reflexivity|].
  simpl. destruct (a ++ b) eqn:E; [|exact IH].
  apply app_eq_nil in E. destruct E as [_ ->]. contradiction.
Qed.

Lemma command_text_last (cmd sp arg : str) :
  last (92%N :: cmd ++ sp ++ 123%N :: arg ++ [125%N]) 0%N = 125%N.
Proof.
  replace (92%N :: cmd ++ sp ++ 123%N :: arg ++ [125%N])
    with ((92%N :: cmd ++ sp ++ 123%N :: arg) ++ [125%N]).
  - apply last_last.
  - simpl. rewrite <- !app_assoc. reflexivity.
Qed.

(** A command match holds exactly two braces and ends with the closing one. *)
Lemma command_match_braces cmd m :
  brace_free cmd -> denotes (Re.code (command cmd)) m ->
  m <> [] /\ length (braces m) = 2 /\ last m 0%N = 125%N.
Proof.
  intros Hcmd H. apply denotes_command in H.
  destruct H as (sp & arg & -> & Hsp & Harg & _).
  split; [discriminate|]. split.
  - change (92%N :: cmd ++ sp ++ 123%N :: arg ++ [125%N])
      with ([92%N] ++ cmd ++ sp ++ [123%N] ++ arg ++ [125%N]).
    rewrite !braces_app, (braces_free Hcmd), (braces_free Harg).
    rewrite (@braces_free sp)
      by (eapply Forall_impl; [|exact Hsp]; intros; now apply space_not_brace).
    reflexivity.
  - apply command_text_last.
Qed.

(** A text that runs from the start of the fragment to a closing brace
    holds three braces at least. *)
Lemma fragment_prefix_braces l tail post :
  fragment ++ post = l ++ tail -> l <> [] -> last l 0%N = 125%N ->
  3 <= length (braces l).
Proof.
  intros H Hne Hlast.
  change fragment with [92; 116; 101; 120; 116; 98; 102; 123; 97; 123; 98; 125; 99; 125]%N in H.
  cbn [app] in H.
  do 12 (destruct l as [|? l];
         [first [contradiction | simpl in Hlast; discriminate]|];
         cbn [app] in H; injection H as <- H).
  simpl. lia.
Qed.

(** ** Matches that start before the fragment *)

(** A command match that starts before the fragment ends before it. *)
Lemma command_bounded cmd x prev post adv len mk :
  brace_free cmd -> x <> [] ->
  Re.match_at (command cmd) prev (x ++ fragment ++ post) adv = Some (len, mk) ->
  1 <= len <= length x.
Proof.
  intros Hcmd Hx H.
  apply match_at_denotes in H. destruct H as (m & tail & Heq & -> & Hd).
  destruct (command_match_braces Hcmd Hd) as (Hm & Hb & Hlast).
  split; [destruct m; [contradiction|simpl; lia]|].
  destruct (Nat.le_gt_cases (length m) (length x)) as [|Hlt]; [assumption|exfalso].
  apply app_eq_app in Heq. destruct Heq as (l & [[-> _]|[-> Hf]]).
  - rewrite length_app in Hlt. lia.
  - assert (Hl : l <> []) by (intros ->; rewrite app_nil_r in Hlt; lia).
    rewrite last_app_nonempty in Hlast by assumption.
    pose proof (@fragment_prefix_braces l tail post Hf Hl Hlast) as H3.
    rewrite braces_app, length_app in Hb. lia.
Qed.

Lemma command_stops cmd t :
  brace_free cmd -> stops_before_fragment (command cmd) t.
Proof.
  intros Hcmd x prev post adv len mk Hx H.
  destruct (@command_bounded cmd x prev post adv len mk Hcmd Hx H) as [H1 H2]. auto.
Qed.

(** A match of a command rule, read back from its result. *)
Lemma command_match_inv cmd prev text adv r :
  Re.match_at (command cmd) prev text adv = Some r ->
  exists sp arg tail : str,
    text = (92%N :: cmd ++ sp ++ 123%N :: arg ++ [125%N]) ++ tail /\
    Forall (fun c => Re.uni_isspace c = true) sp /\ brace_free arg /\ arg <> [] /\
    r = command_result cmd sp arg.
Proof.
  intros H. destruct r as [len mk]. pose proof H as H'.
  apply match_at_denotes in H'. destruct H' as (m & tail & -> & _ & Hd).
  apply denotes_command in Hd. destruct Hd as (sp & arg & -> & Hsp & Harg & Hne).
  exists sp, arg, tail. repeat split; try assumption.
  rewrite (@command_complete cmd sp arg prev tail adv Hsp Harg Hne) in H.
  congruence.
Qed.

(** Whether a command rule matches before the fragment, and how, is decided
    before the fragment. *)
Lemma command_local cmd :
  brace_free cmd ->
  forall x prev post adv,
    x <> [] ->
    Re.match_at (command cmd) prev (x ++ fragment ++ post) adv =
    Re.match_at (command cmd) prev (x ++ [92%N]) adv.
Proof.
  intros Hcmd x prev post adv Hx.
  destruct (Re.match_at (command cmd) prev (x ++ fragment ++ post) adv) as [[len mk]|] eqn:E1.
  - destruct (@command_bounded cmd x prev post adv len mk Hcmd Hx E1) as [_ Hlen].
    destruct (@command_match_inv cmd prev _ adv _ E1) as (sp & arg & tail & Heq & Hsp & Harg & Hne & Hr).
    set (m := 92%N :: cmd ++ sp ++ 123%N :: arg ++ [125%N]) in *.
    assert (Hm : len = length m).
    { unfold command_result in Hr. injection Hr as -> _. unfold m.
      cbn [length]. rewrite !length_app. cbn [length]. rewrite length_app. cbn [length]. lia. }
    apply app_eq_app in Heq. destruct Heq as (l & [[Hxl _]|[Hml _]]).
    + rewrite Hxl, <- app_assoc. unfold m.
      rewrite (@command_complete cmd sp arg prev (l ++ [92%N]) adv Hsp Harg Hne), Hr. reflexivity.
    + assert (l = []) by (destruct l; [reflexivity|rewrite Hml, length_app in Hm; simpl in Hm; lia]).
      subst l. rewrite app_nil_r in Hml. rewrite <- Hml. unfold m.
      rewrite (@command_complete cmd sp arg prev [92%N] adv Hsp Harg Hne), Hr. reflexivity.
  - destruct (Re.match_at (command cmd) prev (x ++ [92%N]) adv) as [r|] eqn:E2; [exfalso|reflexivity].
    destruct (@command_match_inv cmd prev _ adv _ E2) as (sp & arg & tail & Heq & Hsp & Harg & Hne & _).
    set (m := 92%N :: cmd ++ sp ++ 123%N :: arg ++ [125%N]) in *.
    assert (Hxl : exists l, x = m ++ l).
    { apply app_eq_app in Heq. destruct Heq as (l & [[Hxl _]|[Hml Hl]]).
      - exists l. exact Hxl.
      - destruct l as [|c [|d l]].
        + exists []. rewrite app_nil_r in Hml |- *. symmetry; exact Hml.
        + exfalso. cbn [app] in Hl. injection Hl as <- _.
          apply (f_equal (fun s => last s 0%N)) in Hml.
          unfold m in Hml. rewrite command_text_last, last_last in Hml. discriminate Hml.
        + exfalso. cbn [app] in Hl. injection Hl as _ Hl. destruct l; discriminate Hl. }
    destruct Hxl as (l & Hxl).
    rewrite Hxl, <- app_assoc in E1. unfold m in E1.
    rewrite (@command_complete cmd sp arg prev (l ++ fragment ++ post) adv Hsp Harg Hne) in E1.
    discriminate E1.
Qed.

Lemma double_backslash_stops : stops_before_fragment double_backslash [Re.TLit 92%N].
Proof.
  intros x prev post adv len mk Hx H.
  apply match_at_denotes in H. destruct H as (m & tail & Heq & -> & Hd).
  cbn in Hd. destruct Hd as (c1 & m1 & -> & _ & c2 & m2 & -> & _ & ->).
  split; [simpl; lia|].
  destruct x as [|a [|b x]]; [contradiction| |left; simpl; lia].
  right. split; [reflexivity|]. exists []. reflexivity.
Qed.

Lemma double_backslash_local :
  forall x prev post adv,
    x <> [] ->
    Re.match_at double_backslash prev (x ++ fragment ++ post) adv =
    Re.match_at double_backslash prev (x ++ [92%N]) adv.
Proof.
  intros x prev post adv Hx.
  change fragment with (92%N :: fragment_body).
  destruct x as [|c [|d x]]; [contradiction| |]; reflexivity.
Qed.

Lemma line_comment_stops t : stops_before_fragment line_comment t.
Proof.
  intros x prev post adv len mk Hx H.
  apply match_at_denotes in H. destruct H as (m & tail & Heq & -> & Hd).
  cbn in Hd. destruct Hd as (c1 & m1 & -> & _ & ->).
  split; [simpl; lia|].
  left. destruct x; [contradiction|simpl; lia].
Qed.

Lemma line_comment_local :
  forall x prev post adv,
    x <> [] ->
    Re.match_at line_comment prev (x ++ fragment ++ post) adv =
    Re.match_at line_comment prev (x ++ [92%N]) adv.
Proof.
  intros x prev post adv Hx.
  destruct x as [|c x]; [contradiction|]. reflexivity.
Qed.

Lemma firstn_before_fragment (x post : str) len :
  len <= S (length x) ->
  firstn len (x ++ fragment ++ post) = firstn len (x ++ [92%N]).
Proof.
  intros H. rewrite !firstn_app. f_equal.
  change fragment with (92%N :: fragment_body).
  destruct (len - length x) as [|[|k]] eqn:E; [reflexivity|reflexivity|lia].
Qed.

(** ** One pass over a text that holds the fragment *)

Section Pass.

Variable p : Re.pattern.
Variable t : list Re.titem.
Variable post : str.

Hypothesis Hdead : dead_in_fragment p.
Hypothesis Hstop : stops_before_fragment p t.
Hypothesis Hlocal : local_before_fragment p.

(** Where no match starts the text is copied. *)
Lemma scan_dead :
  forall s,
    Forall (fun s => forall prev post, Re.matches_here p prev (s ++ post) = [])
           (nonempty_suffixes s) ->
    forall prev,
      fst (Re.subn_scan p t prev (s ++ post) 0) =
      s ++ fst (Re.subn_scan p t (prev_after prev s) post 0).
Proof.
  induction s as [|c s IH]; intros Hs prev.
  - reflexivity.
  - cbn [nonempty_suffixes] in Hs. inversion Hs as [|? ? Hc Hs']; subst.
    pose proof (Hc prev post) as Hc'. cbn [app] in Hc' |- *.
    rewrite subn_scan_here, Hc'. cbv zeta.
    change (pred (Re.consumed [])) with 0.
    specialize (IH Hs' (Some c)).
    destruct (Re.subn_scan p t (Some c) (s ++ post) 0) as [tail n].
    cbn [fst] in IH. cbn [flat_map Re.consumed fst app]. rewrite IH, prev_after_cons.
    reflexivity.
Qed.

(** At the backslash that ends the text, and at the end, nothing matches. *)
Lemma scan_end prev : Re.subn_scan p t prev [] 0 = ([], 0).
Proof.
  cbn [Re.subn_scan]. rewrite (proj2 (proj2 Hlocal prev)). reflexivity.
Qed.

Lemma scan_backslash prev : Re.subn_scan p t prev [92%N] 0 = ([92%N], 0).
Proof.
  rewrite subn_scan_here, (proj1 (proj2 Hlocal prev)). cbv zeta.
  change (pred (Re.consumed [])) with 0. rewrite scan_end. reflexivity.
Qed.

Lemma here_bounded x prev :
  x <> [] ->
  let rest := x ++ fragment ++ post in
  let ms := Re.matches_here p prev rest in
  Re.consumed ms <= length x \/
  (Re.consumed ms = S (length x) /\
   exists e, flat_map (Re.expand t rest) ms = e ++ [92%N]).
Proof.
  intros Hx rest ms. subst ms. unfold Re.matches_here.
  destruct (Re.match_at p prev rest false) as [[len mk]|] eqn:E.
  - destruct (@Hstop x prev post false len mk Hx E) as [Hlen H].
    destruct len as [|n]; [lia|].
    rewrite consumed_one. cbn [flat_map fst]. rewrite app_nil_r. exact H.
  - left. cbn. lia.
Qed.

(** The matches found before the fragment, and what replaces them, are the
    same when only the backslash of the fragment follows. *)
Lemma here_local x prev :
  x <> [] ->
  Re.matches_here p prev (x ++ [92%N]) = Re.matches_here p prev (x ++ fragment ++ post) /\
  flat_map (Re.expand t (x ++ [92%N])) (Re.matches_here p prev (x ++ fragment ++ post)) =
  flat_map (Re.expand t (x ++ fragment ++ post))
           (Re.matches_here p prev (x ++ fragment ++ post)).
Proof.
  intros Hx. split.
  - unfold Re.matches_here. rewrite !(proj1 Hlocal x prev post _ Hx). reflexivity.
  - apply flat_map_ext_in. intros [len mk] Hin.
    apply matches_here_in in Hin. destruct Hin as (adv & E).
    apply expand_local.
    + eapply match_at_marks; exact E.
    + symmetry. apply firstn_before_fragment.
      destruct (@Hstop x prev post adv len mk Hx E) as [_ [H|[H _]]]; lia.
Qed.

Lemma scan_before_fragment :
  forall x prev skip,
    (skip <= length x ->
     exists o,
       fst (Re.subn_scan p t prev (x ++ fragment ++ post) skip) =
       o ++ fragment ++ behind p t post /\
       fst (Re.subn_scan p t prev (x ++ [92%N]) skip) = o ++ [92%N]) /\
    (skip = S (length x) ->
     92%N :: fst (Re.subn_scan p t prev (x ++ fragment ++ post) skip) =
     fragment ++ behind p t post /\
     fst (Re.subn_scan p t prev (x ++ [92%N]) skip) = []).
Proof.
  induction x as [|c x IH]; intros prev skip.
  - split; intros Hskip.
    + assert (skip = 0) by (simpl in Hskip; lia). subst skip.
      exists []. cbn [app]. rewrite (scan_dead fragment Hdead), scan_backslash.
      split; reflexivity.
    + subst skip.
      change ([] ++ fragment ++ post) with (92%N :: fragment_body ++ post).
      change (S (length (@nil N))) with 1. cbn [app].
      rewrite !subn_scan_skip, scan_end.
      assert (Hbody : Forall (fun s => forall prev post,
                                 Re.matches_here p prev (s ++ post) = [])
                             (nonempty_suffixes fragment_body))
        by exact (Forall_inv_tail Hdead).
      rewrite (scan_dead fragment_body Hbody). split; reflexivity.
  - split; intros Hskip.
    + destruct skip as [|skip].
      * assert (Hc : c :: x <> []) by discriminate.
        destruct (here_local prev Hc) as [Hms Hout].
        pose proof (here_bounded prev Hc) as Hb.
        cbn [app] in Hms, Hout, Hb |- *. cbv zeta in Hb.
        rewrite !subn_scan_here. cbv zeta. rewrite Hms, Hout.
        set (ms := Re.matches_here p prev (c :: x ++ fragment ++ post)) in *.
        set (out := flat_map (Re.expand t (c :: x ++ fragment ++ post)) ms) in *.
        destruct Hb as [Hle|[Heq (e & He)]].
        -- destruct (IH (Some c) (pred (Re.consumed ms))) as [(o & Ho1 & Ho2) _];
             [simpl in Hle; lia|].
           destruct (Re.subn_scan p t (Some c) (x ++ fragment ++ post)
                                  (pred (Re.consumed ms))) as [tail1 n1].
           destruct (Re.subn_scan p t (Some c) (x ++ [92%N])
                                  (pred (Re.consumed ms))) as [tail2 n2].
           cbn [fst] in Ho1, Ho2 |- *. subst tail1 tail2.
           exists (out ++ (if Nat.eqb (Re.consumed ms) 0 then [c] else []) ++ o).
           rewrite <- !app_assoc. split; reflexivity.
        -- destruct (IH (Some c) (pred (Re.consumed ms))) as [_ Hs].
           destruct (Hs ltac:(rewrite Heq; reflexivity)) as [Hs1 Hs2].
           destruct (Re.subn_scan p t (Some c) (x ++ fragment ++ post)
                                  (pred (Re.consumed ms))) as [tail1 n1].
           destruct (Re.subn_scan p t (Some c) (x ++ [92%N])
                                  (pred (Re.consumed ms))) as [tail2 n2].
           cbn [fst] in Hs1, Hs2 |- *. subst tail2. rewrite He, Heq. cbn [Nat.eqb app].
           exists e. rewrite <- app_assoc. cbn [app]. rewrite Hs1, app_nil_r.
           split; reflexivity.
      * cbn [app]. rewrite !subn_scan_skip. apply (IH (Some c) skip).
        simpl in Hskip; lia.
    + subst skip. cbn [app length]. rewrite !subn_scan_skip.
      apply (IH (Some c) (S (length x))). reflexivity.
Qed.

Lemma pass_keeps_fragment before :
  exists before' n1 n2,
    Re.subn_scan p t None (before ++ fragment ++ post) 0 =
    (before' ++ fragment ++ behind p t post, n1) /\
    Re.subn_scan p t None (before ++ [92%N]) 0 = (before' ++ [92%N], n2).
Proof.
  destruct (scan_before_fragment before None 0) as [H _].
  destruct H as (o & Ho1 & Ho2); [lia|].
  destruct (Re.subn_scan p t None (before ++ fragment ++ post) 0) as [s1 n1].
  destruct (Re.subn_scan p t None (before ++ [92%N]) 0) as [s2 n2].
  cbn [fst] in Ho1, Ho2. subst s1 s2. exists o, n1, n2. split; reflexivity.
Qed.

End Pass.

(** ** Every rule leaves the fragment alone *)

Ltac dead_here :=
  unfold Re.matches_here, Re.match_at;
  first [ vm_compute; reflexivity
        | match goal with
          | |- context [Re.sre_match _ ?prev _ _ _ _] =>
              destruct prev as [?c|]; cbn; [destruct (N.eqb c 10)|]; reflexivity
          end ].

Ltac dead_fragment :=
  unfold dead_in_fragment;
  let l := eval vm_compute in (nonempty_suffixes fragment) in
  change (nonempty_suffixes fragment) with l;
  repeat (apply Forall_cons; [intros prev post; dead_here|]);
  apply Forall_nil.

Ltac dead_end := intros prev; split; dead_here.

Ltac command_rule cmd :=
  apply Forall_cons;
  [ assert (Hcmd : brace_free (py cmd)) by (vm_compute; repeat constructor);
    exists (command (py cmd)); eexists;
    split; [vm_compute; reflexivity|];
    split; [dead_fragment|];
    split; [apply command_stops; exact Hcmd|];
    split; [apply command_local; exact Hcmd|dead_end]
  | ].

Lemma registry_spares_fragment : Forall spares_fragment CONVERSION_RULES.
Proof.
  unfold CONVERSION_RULES, spares_fragment.
  command_rule "glspl"%string.
  command_rule "gls"%string.
  command_rule "textit"%string.
  command_rule "emph"%string.
  command_rule "textbf"%string.
  command_rule "chapter"%string.
  command_rule "section"%string.
  command_rule "subsection"%string.
  command_rule "subsubsection"%string.
  command_rule "label"%string.
  command_rule "ref"%string.
  command_rule "textcite"%string.
  command_rule "cite"%string.
  command_rule "footnote"%string.
  command_rule "enquote"%string.
  apply Forall_cons.
  { exists double_backslash, [Re.TLit 92%N].
    split; [vm_compute; reflexivity|].
    split; [dead_fragment|].
    split; [apply double_backslash_stops|].
    split; [apply double_backslash_local|dead_end]. }
  apply Forall_cons.
  { exists line_comment; eexists.
    split; [vm_compute; reflexivity|].
    split; [dead_fragment|].
    split; [apply line_comment_stops|].
    split; [apply line_comment_local|dead_end]. }
  apply Forall_nil.
Qed.

Lemma transform_behind_eq prev text :
  transform_behind prev text = fold_left (pass_behind prev) CONVERSION_RULES text.
Proof. reflexivity. Qed.

Lemma pass_behind_compiled rule p t current :
  compile_rule rule = Some (p, t) ->
  pass_behind 125%N current rule = behind p t current.
Proof. intros H. unfold pass_behind. rewrite H. reflexivity. Qed.

(** The loop keeps the fragment; the text behind it is transformed as a
    text that follows a closing brace, the text before it as it is when
    only the backslash of the fragment follows. *)
Lemma transform_loop_fragment :
  forall rules, Forall spares_fragment rules ->
  forall before after verbose out,
  exists before' out',
    transform_loop rules (before ++ fragment ++ after) verbose out =
    (Ok (before' ++ fragment ++ fold_left (pass_behind 125%N) rules after), out') /\
    forall v o, fst (transform_loop rules (before ++ [92%N]) v o) = Ok (before' ++ [92%N]).
Proof.
  induction 1 as [|rule rules (p & t & Hc & Hdead & Hstop & Hlocal) _ IH];
    intros before after verbose out.
  - exists before, out. split; reflexivity.
  - cbn [transform_loop fold_left].
    rewrite (@subn_compiled rule p t (before ++ fragment ++ after) Hc),
            (@subn_compiled rule p t (before ++ [92%N]) Hc),
            (@pass_behind_compiled rule p t after Hc).
    destruct (@pass_keeps_fragment p t after Hdead Hstop Hlocal before)
      as (before' & n1 & n2 & -> & ->).
    destruct (IH before' (behind p t after) verbose
                 (if negb (Nat.eqb n1 0) && verbose
                  then out ++ [progress_line rule n1] else out))
      as (before'' & out' & H1 & H2).
    exists before'', out'. split; [exact H1|]. intros v o. apply H2.
Qed.

(** The text a command rule matches. *)
Lemma command_match cmd prev rest adv len mk :
  Re.match_at (command cmd) prev rest adv = Some (len, mk) ->
  exists sp arg,
    firstn len rest = 92%N :: cmd ++ sp ++ 123%N :: arg ++ [125%N] /\
    Forall (fun c => Re.uni_isspace c = true) sp /\
    brace_free arg /\ arg <> [].
Proof.
  intros H. apply match_at_denotes in H. destruct H as (m & tail & -> & -> & Hd).
  apply denotes_command in Hd. destruct Hd as (sp & arg & Hm & Hsp & Harg & Hne).
  exists sp, arg. rewrite firstn_app, Nat.sub_diag, firstn_all. cbn [firstn].
  rewrite app_nil_r. auto.
Qed.

Lemma group_text_at (before arg rest : str) b e :
  b = length before -> e = b + length arg ->
  Re.group_text (before ++ arg ++ rest) [(1, e); (0, b)] 1 = arg.
Proof.
  intros -> ->.
  unfold Re.group_text. cbn [Nat.sub Nat.mul Nat.add Re.mark_pos Nat.eqb].
  replace (length before + length arg - length before) with (length arg) by lia.
  rewrite skipn_length_app, firstn_app, Nat.sub_diag, firstn_all. cbn [firstn].
  apply app_nil_r.
Qed.

(** The argument a command rule captures holds no brace. *)
Lemma command_captures cmd : captures_no_brace (command cmd).
Proof.
  intros prev rest adv len mk H.
  destruct (@command_match_inv cmd prev rest adv (len, mk) H)
    as (sp & arg & tail & -> & Hsp & Harg & Hne & Hr).
  unfold command_result in Hr. cbv zeta in Hr. injection Hr as _ ->.
  replace ((92%N :: cmd ++ sp ++ 123%N :: arg ++ [125%N]) ++ tail)
    with ((92%N :: cmd ++ sp ++ [123%N]) ++ arg ++ 125%N :: tail)
    by (cbn [app]; rewrite <- !app_assoc; cbn [app]; rewrite <- app_assoc; reflexivity).
  rewrite group_text_at; [exact Harg| |];
    cbn [length]; rewrite ?length_app; cbn [length]; lia.
Qed.

(** Code without marks sets no mark. *)
Lemma sre_match_unmarked ops :
  Forall (fun o => match o with Re.Mark _ => False | _ => True end) ops ->
  forall prev rest pos mk adv n mk',
    Re.sre_match ops prev rest pos mk adv = Some (n, mk') -> mk' = mk.
Proof.
  induction 1 as [|o ops Ho _ IH]; intros prev rest pos mk adv n mk' H;
    cbn [Re.sre_match] in H.
  - destruct (adv && Nat.eqb pos 0); [discriminate|]. now injection H as _ <-.
  - destruct o as [cs|min cs|j| |].
    + destruct rest as [|c rest]; [discriminate|].
      destruct (Re.charset cs c); [|discriminate]. eauto.
    + apply repeat_one_inv in H. destruct H as (taken & rest' & _ & _ & _ & H). eauto.
    + contradiction.
    + destruct prev; [discriminate|]. eauto.
    + destruct prev as [c|]; [destruct (N.eqb c 10); [|discriminate]|]; eauto.
Qed.

Lemma unmarked_captures p :
  Forall (fun o => match o with Re.Mark _ => False | _ => True end) (Re.code p) ->
  captures_no_brace p.
Proof.
  intros Hp prev rest adv len mk H.
  apply (sre_match_unmarked Hp) in H. subst mk. constructor.
Qed.

Ltac capture_rule cmd :=
  apply Forall_cons;
  [ exists (command (py cmd)); split; [vm_compute; reflexivity|apply command_captures]
  | ].

Lemma registry_captures :
  Forall (fun rule => exists p, Re.compile (pattern rule) = Some p /\ captures_no_brace p)
         CONVERSION_RULES.
Proof.
  unfold CONVERSION_RULES.
  capture_rule "glspl"%string.
  capture_rule "gls"%string.
  capture_rule "textit"%string.
  capture_rule "emph"%string.
  capture_rule "textbf"%string.
  capture_rule "chapter"%string.
  capture_rule "section"%string.
  capture_rule "subsection"%string.
  capture_rule "subsubsection"%string.
  capture_rule "label"%string.
  capture_rule "ref"%string.
  capture_rule "textcite"%string.
  capture_rule "cite"%string.
  capture_rule "footnote"%string.
  capture_rule "enquote"%string.
  do 2 (apply Forall_cons;
        [eexists; split; [vm_compute; reflexivity|];
         apply unmarked_captures; repeat constructor|]).
  apply Forall_nil.
Qed.

(** ** The scenarios of the specification, run on the model *)

Example scenario_section :
  transform (py "\section{Introduction}") true [] =
  (Ok (py "== Introduction"), [py "[section] 1 replacements"]).
Proof. vm_compute; reflexivity. Qed.

Example scenario_glossary :
  fst (transform (py "\gls{cpu} and \glspl{cpu}") true []) =
  Ok (py "#gls(" ++ dquote ++ py "cpu" ++ dquote ++ py ") and #glspl("
        ++ dquote ++ py "cpu" ++ dquote ++ py ")").
Proof. vm_compute; reflexivity. Qed.

Example scenario_bold_italic :
  fst (transform (py "\textbf{bold} and \textit{italic}") false []) =
  Ok (py "*bold* and _italic_").
Proof. vm_compute; reflexivity. Qed.

Example scenario_comment :
  fst (transform (py "% note") true []) = Ok (py "// note").
Proof. vm_compute; reflexivity. Qed.

(** Whitespace between the command and its argument, and an argument over
    two lines. *)
Example scenario_whitespace :
  fst (transform (py "\emph  {a" ++ [10%N] ++ py "b}") true []) =
  Ok (py "_a" ++ [10%N] ++ py "b_").
Proof. vm_compute; reflexivity. Qed.

(** Chaining: the textbf rule comes before the double backslash rule. *)
Example scenario_chaining :
  transform (py "\\\textbf{x}") true [] =
  (Ok (py "\*x*"),
   [py "[textbf] 1 replacements"; py "[double backslash] 1 replacements"]).
Proof. vm_compute; reflexivity. Qed.

(** A percent sign matches at the start of every line, and only there. *)
Example scenario_multiline_comment :
  fst (transform (py "a%b" ++ [10%N] ++ py "%c" ++ [10%N] ++ py "%") true []) =
  Ok (py "a%b" ++ [10%N] ++ py "//c" ++ [10%N] ++ py "//").
Proof. vm_compute; reflexivity. Qed.

(** An empty match is replaced once, also next to another match
    ([re.sub('x*', '-', 'abxd')] is ['-a-b--d-']). *)
Example empty_matches :
  Re.subn (py "x*") (py "-") (py "abxd") = Ok (py "-a-b--d-", 5).
Proof. vm_compute; reflexivity. Qed.

(** A reference to a group the pattern does not have is an error. *)
Example invalid_group_reference :
  Re.subn (py "a") (py "\1") (py "a") = Raise re_error.
Proof. vm_compute; reflexivity. Qed.

(** * Further properties *)

(** ** The line comment pass *)

Lemma line_comment_here prev c rest :
  Re.matches_here line_comment prev (c :: rest) =
  if (starts_line prev && N.eqb c 37)%bool then [(1, [])] else [].
Proof.
  unfold Re.matches_here, Re.match_at. cbn [Re.code line_comment Re.sre_match Re.charset].
  destruct prev as [d|]; cbn [starts_line andb].
  - destruct (N.eqb d 10); cbn [andb]; [|reflexivity].
    destruct (N.eqb c 37); reflexivity.
  - destruct (N.eqb c 37); reflexivity.
Qed.

Lemma line_comment_end prev : Re.matches_here line_comment prev [] = [].
Proof.
  unfold Re.matches_here, Re.match_at. cbn [Re.code line_comment Re.sre_match].
  destruct prev as [d|]; [destruct (N.eqb d 10)|]; reflexivity.
Qed.

Lemma line_comment_scan :
  forall rest prev,
    Re.subn_scan line_comment [Re.TLit 47%N; Re.TLit 47%N] prev rest 0 =
    (comment_from (starts_line prev) rest, count_comments_from (starts_line prev) rest).
Proof.
  induction rest as [|c rest IH]; intros prev.
  - cbn [Re.subn_scan]. rewrite line_comment_end. reflexivity.
  - rewrite subn_scan_here, line_comment_here. cbn [comment_from count_comments_from].
    destruct (starts_line prev && N.eqb c 37)%bool; cbv zeta.
    + change (pred (Re.consumed [(1, [])])) with 0. rewrite IH. reflexivity.
    + change (pred (Re.consumed [])) with 0. rewrite IH. reflexivity.
Qed.

Lemma comment_from_clean :
  forall s b, count_comments_from b (comment_from b s) = 0.
Proof.
  induction s as [|c s IH]; intros b; [reflexivity|].
  cbn [comment_from].
  destruct (b && N.eqb c 37)%bool eqn:E.
  - apply andb_prop in E. destruct E as [-> E]. apply N.eqb_eq in E. subst c.
    change (N.eqb 37 10) with false.
    cbn [app count_comments_from andb]. change (N.eqb 47 37) with false.
    change (N.eqb 47 10) with false. cbn [andb Nat.add]. apply IH.
  - cbn [app count_comments_from]. rewrite E. cbn [Nat.add]. apply IH.
Qed.

Lemma count_comments_percent :
  forall pre b post,
    count_comments_from b (pre ++ 37%N :: post) = 0 ->
    match pre with [] => b = false | _ => last pre 0%N <> 10%N end.
Proof.
  induction pre as [|c pre IH]; intros b post H.
  - cbn [app count_comments_from] in H. change (N.eqb 37 37) with true in H.
    destruct b; [discriminate H|reflexivity].
  - cbn [app count_comments_from] in H.
    apply Nat.eq_add_0 in H. destruct H as [_ H]. apply IH in H.
    destruct pre as [|d pre'].
    + cbn [last]. intros ->. discriminate H.
    + exact H.
Qed.

(** ** The registry in two parts *)

Lemma compile_rule_pattern rule p t :
  compile_rule rule = Some (p, t) -> Re.compile (pattern rule) = Some p.
Proof.
  unfold compile_rule. intros H.
  destruct (Re.compile (pattern rule)) as [p'|]; [|discriminate].
  destruct (Re.compile_template p' (replacement rule)); [|discriminate].
  now injection H as -> _.
Qed.

Lemma backslash_led_compiles rule : backslash_led rule -> compiles rule.
Proof. intros (p & t & ops & H & _). exists p, t. exact H. Qed.

Lemma registry_split :
  exists front rule,
    CONVERSION_RULES = front ++ [rule] /\
    Forall backslash_led front /\
    name rule = py "line comment" /\
    compile_rule rule = Some (line_comment, [Re.TLit 47%N; Re.TLit 47%N]).
Proof.
  exists (removelast CONVERSION_RULES),
         (last CONVERSION_RULES (Build_ConversionRule [] [] [] [])).
  split; [vm_compute; reflexivity|].
  split; [|split; vm_compute; reflexivity].
  let l := eval vm_compute in (removelast CONVERSION_RULES) in
  change (removelast CONVERSION_RULES) with l.
  repeat (apply Forall_cons;
          [eexists; eexists; eexists; split; vm_compute; reflexivity|]).
  apply Forall_nil.
Qed.

Lemma transform_loop_app :
  forall rules1 rules2 text verbose out,
    transform_loop (rules1 ++ rules2) text verbose out =
    match transform_loop rules1 text verbose out with
    | (Ok text', out') => transform_loop rules2 text' verbose out'
    | (Raise e, out') => (Raise e, out')
    end.
Proof.
  induction rules1 as [|rule rules1 IH]; intros rules2 text verbose out; [reflexivity|].
  cbn [app transform_loop].
  destruct (Re.subn (pattern rule) (replacement rule) text) as [[new n]|e]; [|reflexivity].
  apply IH.
Qed.

Lemma transform_loop_ok :
  forall rules, Forall compiles rules ->
  forall text verbose out,
  exists text' out', transform_loop rules text verbose out = (Ok text', out').
Proof.
  intros rules Hc text verbose out.
  destruct (transform_loop_spec Hc text []) as (current & log & _ & Ht & Hq).
  destruct verbose; eexists; eexists; [apply Ht|apply Hq].
Qed.

Lemma line_comment_last rule text verbose out :
  compile_rule rule = Some (line_comment, [Re.TLit 47%N; Re.TLit 47%N]) ->
  transform_loop [rule] text verbose out =
  (Ok (comment_lines text),
   if (negb (Nat.eqb (count_comments text) 0) && verbose)%bool
   then out ++ [progress_line rule (count_comments text)] else out).
Proof.
  intros Hc. cbn [transform_loop].
  rewrite (subn_compiled rule text Hc), (line_comment_scan text None). reflexivity.
Qed.

(** ** Texts without backslashes *)

Lemma backslash_led_search p ops :
  Re.code p = Re.One (Re.Literal 92%N) :: ops ->
  forall rest, no_backslash rest ->
  forall prev at_, Re.search_from p prev rest at_ = None.
Proof.
  intros Hp. induction rest as [|c rest IH]; intros Hr prev at_.
  - cbn [Re.search_from]. unfold Re.match_at. rewrite Hp. reflexivity.
  - inversion Hr as [|? ? Hc Hr']; subst.
    cbn [Re.search_from]. unfold Re.match_at at 1. rewrite Hp.
    cbn [Re.sre_match Re.charset].
    apply N.eqb_neq in Hc. rewrite Hc. apply IH; exact Hr'.
Qed.

Lemma backslash_led_unmatched rule text :
  backslash_led rule -> no_backslash text -> has_match rule text = false.
Proof.
  intros (p & t & ops & Hc & Hp) Ht. unfold has_match.
  rewrite (compile_rule_pattern _ Hc). unfold Re.search.
  rewrite (backslash_led_search p Hp Ht). reflexivity.
Qed.

Lemma transform_loop_plain rules text :
  Forall backslash_led rules -> no_backslash text ->
  forall verbose out, transform_loop rules text verbose out = (Ok text, out).
Proof.
  intros Hr Ht. apply transform_loop_unmatched.
  - eapply Forall_impl; [|exact Hr]. intros rule; apply backslash_led_compiles.
  - eapply Forall_impl; [|exact Hr]. intros rule H. apply backslash_led_unmatched; assumption.
Qed.

(** ** Runs that print nothing *)

Lemma transform_loop_silent :
  forall rules, Forall compiles rules ->
  forall text out,
    snd (transform_loop rules text true out) = out ->
    fst (transform_loop rules text true out) = Ok text.
Proof.
  induction rules as [|rule rules IH]; intros Hc text out H; [reflexivity|].
  inversion Hc as [|? ? (p & t & Hr) Hc']; subst.
  cbn [transform_loop] in *.
  rewrite (subn_compiled rule text Hr) in *.
  rewrite (subn_scan_find_all p t text) in *.
  destruct (find_all p text) as [|m ms].
  - cbn [splice length Nat.eqb negb andb skipn] in *. apply IH; assumption.
  - exfalso. cbn [length Nat.eqb negb andb] in H.
    destruct (transform_loop_appends rules (splice t text 0 (m :: ms)) true
                (out ++ [progress_line rule (S (length ms))])) as (lines & Hl).
    rewrite Hl in H. apply (f_equal (@length _)) in H.
    rewrite !length_app in H. cbn [length] in H. lia.
Qed.

(** ** Where the characters of the result come from *)

Lemma in_firstn (c : N) : forall n (l : str), In c (firstn n l) -> In c l.
Proof.
  induction n as [|n IH]; intros [|d l] H; cbn [firstn] in H; try contradiction.
  destruct H as [H|H]; [left; exact H|right; apply IH; exact H].
Qed.

Lemma in_skipn (c : N) : forall n (l : str), In c (skipn n l) -> In c l.
Proof.
  induction n as [|n IH]; intros [|d l] H; cbn [skipn] in H; try contradiction.
  - exact H.
  - right; apply IH; exact H.
Qed.

Lemma group_text_chars subject mk g c :
  In c (Re.group_text subject mk g) -> In c subject.
Proof.
  unfold Re.group_text.
  destruct (Re.mark_pos (2 * (g - 1)) mk) as [b|]; [|contradiction].
  destruct (Re.mark_pos (2 * (g - 1) + 1) mk) as [e|]; [|contradiction].
  intros H. apply in_firstn in H. apply in_skipn in H. exact H.
Qed.

Lemma expand_chars t subject m c :
  In c (Re.expand t subject m) -> In c subject \/ In c (literals t).
Proof.
  unfold Re.expand, literals. induction t as [|i t IH]; [contradiction|].
  cbn [flat_map]. intros H. apply in_app_or in H. destruct H as [H|H].
  - destruct i as [d|g].
    + right. apply in_or_app. left. exact H.
    + left. apply group_text_chars in H. exact H.
  - destruct (IH H) as [H'|H']; [left; exact H'|right; apply in_or_app; right; exact H'].
Qed.

Lemma subn_scan_chars p t c :
  forall rest prev skip,
    In c (fst (Re.subn_scan p t prev rest skip)) -> In c rest \/ In c (literals t).
Proof.
  induction rest as [|d rest IH]; intros prev skip H.
  - destruct skip; cbn [Re.subn_scan fst] in H; [|contradiction].
    apply in_flat_map in H. destruct H as (m & _ & H).
    apply expand_chars in H. exact H.
  - destruct skip as [|skip].
    + rewrite subn_scan_here in H. cbv zeta in H.
      specialize (IH (Some d) (pred (Re.consumed (Re.matches_here p prev (d :: rest))))).
      destruct (Re.subn_scan p t (Some d) rest
                  (pred (Re.consumed (Re.matches_here p prev (d :: rest))))) as [tail n].
      cbn [fst] in H, IH.
      apply in_app_or in H. destruct H as [H|H].
      * apply in_flat_map in H. destruct H as (m & _ & H).
        apply expand_chars in H. exact H.
      * apply in_app_or in H. destruct H as [H|H].
        -- destruct (Nat.eqb (Re.consumed (Re.matches_here p prev (d :: rest))) 0);
             [|contradiction].
           destruct H as [H|[]]. left; left; exact H.
        -- destruct (IH H) as [H'|H']; [left; right; exact H'|right; exact H'].
    + rewrite subn_scan_skip in H. apply IH in H.
      destruct H as [H|H]; [left; right; exact H|right; exact H].
Qed.

Lemma transform_loop_chars alphabet :
  forall rules, Forall (adds_from alphabet) rules ->
  forall text verbose out result,
    fst (transform_loop rules text verbose out) = Ok result ->
    forall c, In c result -> In c text \/ In c alphabet.
Proof.
  induction rules as [|rule rules IH]; intros Hr text verbose out result H c Hc.
  - cbn [transform_loop fst] in H. injection H as <-. left; exact Hc.
  - inversion Hr as [|? ? (p & t & Hp & Ht) Hr']; subst.
    cbn [transform_loop] in H. rewrite (subn_compiled rule text Hp) in H.
    pose proof (@subn_scan_chars p t) as Hs. specialize (Hs c text None 0).
    destruct (Re.subn_scan p t None text 0) as [new n]. cbn [fst] in Hs.
    destruct (IH Hr' _ _ _ _ H c Hc) as [H'|H']; [|right; exact H'].
    destruct (Hs H') as [H''|H'']; [left; exact H''|right; apply Ht; exact H''].
Qed.

Ltac in_list :=
  match goal with
  | |- In ?a (?b :: _) => first [left; reflexivity | right; in_list]
  end.

Lemma registry_alphabet : Forall (adds_from template_alphabet) CONVERSION_RULES.
Proof.
  unfold CONVERSION_RULES.
  repeat (apply Forall_cons;
          [eexists; eexists; split; [vm_compute; reflexivity|];
           let a := eval vm_compute in template_alphabet in
           change template_alphabet with a;
           intros c Hc; cbn in Hc;
           repeat (destruct Hc as [<-|Hc]; [in_list|]); contradiction|]).
  apply Forall_nil.
Qed.

(** ** Texts that the rules leave alone *)

Lemma backslash_led_marked p ops :
  Re.code p = Re.One (Re.Literal 92%N) :: ops -> marked p.
Proof.
  intros Hp. split.
  - intros prev c rest adv Hc _. unfold Re.match_at. rewrite Hp.
    cbn [Re.sre_match Re.charset]. apply N.eqb_neq in Hc. rewrite Hc. reflexivity.
  - intros prev adv. unfold Re.match_at. rewrite Hp. reflexivity.
Qed.

Lemma line_comment_marked : marked line_comment.
Proof.
  split.
  - intros prev c rest adv _ Hc. unfold Re.match_at.
    cbn [Re.code line_comment Re.sre_match Re.charset].
    apply N.eqb_neq in Hc. rewrite Hc.
    destruct prev as [d|]; [destruct (N.eqb d 10)|]; reflexivity.
  - intros prev adv. unfold Re.match_at. cbn [Re.code line_comment Re.sre_match].
    destruct prev as [d|]; [destruct (N.eqb d 10)|]; reflexivity.
Qed.

Lemma marked_here p prev c rest :
  marked p -> c <> 92%N -> c <> 37%N -> Re.matches_here p prev (c :: rest) = [].
Proof.
  intros [H _] H1 H2. unfold Re.matches_here. rewrite (H prev c rest false H1 H2).
  reflexivity.
Qed.

Lemma marked_end p t prev : marked p -> Re.subn_scan p t prev [] 0 = ([], 0).
Proof.
  intros [_ H]. cbn [Re.subn_scan]. unfold Re.matches_here. rewrite (H prev false).
  reflexivity.
Qed.

(** A text without markers is copied, and the scan goes on behind it. *)
Lemma scan_no_marker p t post :
  marked p ->
  forall s prev,
    no_marker s ->
    Re.subn_scan p t prev (s ++ post) 0 =
    (s ++ fst (Re.subn_scan p t (prev_after prev s) post 0),
     snd (Re.subn_scan p t (prev_after prev s) post 0)).
Proof.
  intros Hm. induction s as [|c s IH]; intros prev Hs.
  - cbn [app]. change (prev_after prev []) with prev.
    destruct (Re.subn_scan p t prev post 0); reflexivity.
  - inversion Hs as [|? ? [H1 H2] Hs']; subst.
    cbn [app]. rewrite subn_scan_here, (@marked_here p prev c (s ++ post) Hm H1 H2).
    cbv zeta. change (pred (Re.consumed [])) with 0.
    rewrite (IH (Some c) Hs'), prev_after_cons. reflexivity.
Qed.

Lemma prev_after_last (s : str) prev d :
  s <> [] -> prev_after prev s = Some (last s d).
Proof.
  intros Hs. destruct (exists_last Hs) as (s' & c & ->).
  rewrite prev_after_snoc, last_last. reflexivity.
Qed.

Lemma inert_no_marker s : inert s -> no_marker s.
Proof.
  intros H. eapply Forall_impl; [|exact H]. intros c (H1 & H2 & _). split; assumption.
Qed.

Lemma match_at_length p prev rest adv len mk :
  Re.match_at p prev rest adv = Some (len, mk) -> len <= length rest.
Proof.
  intros H. apply match_at_denotes in H. destruct H as (m & tail & -> & -> & _).
  rewrite length_app. lia.
Qed.

Lemma here_consumed p prev rest :
  Re.consumed (Re.matches_here p prev rest) <= length rest.
Proof.
  pose proof (matches_here_shape p prev rest) as Hs.
  assert (Hin : forall m, In m (Re.matches_here p prev rest) -> fst m <= length rest).
  { intros [len mk] Hm. apply matches_here_in in Hm. destruct Hm as (adv & Hm).
    apply match_at_length in Hm. exact Hm. }
  destruct Hs as [|m|mk m Hpos].
  - cbn. lia.
  - rewrite consumed_one. apply Hin. left; reflexivity.
  - unfold Re.consumed. cbn [map fst list_sum fold_right Nat.add].
    specialize (Hin m (or_intror (or_introl eq_refl))). unfold list_sum. cbn. lia.
Qed.

Lemma blind_here p prev x s :
  blind p -> x <> [] -> inert s ->
  Re.matches_here p prev (x ++ s) = Re.matches_here p prev x.
Proof.
  intros Hb Hx Hs. unfold Re.matches_here. rewrite (Hb prev x s false Hx Hs), (Hb prev x s true Hx Hs). reflexivity.
Qed.

Lemma expand_here p t prev (x s : str) :
  flat_map (Re.expand t (x ++ s)) (Re.matches_here p prev x) =
  flat_map (Re.expand t x) (Re.matches_here p prev x).
Proof.
  apply flat_map_ext_in. intros [len mk] Hm.
  apply matches_here_in in Hm. destruct Hm as (adv & Hm).
  apply expand_local.
  - eapply match_at_marks; exact Hm.
  - apply match_at_length in Hm. rewrite firstn_app.
    replace (len - length x) with 0 by lia. cbn [firstn]. apply app_nil_r.
Qed.

(** An inert text at the end is copied, and the scan before it is the scan
    of the text without it. *)
Lemma scan_inert p t s :
  marked p -> blind p -> inert s ->
  forall x prev skip,
    skip <= length x ->
    Re.subn_scan p t prev (x ++ s) skip =
    (fst (Re.subn_scan p t prev x skip) ++ s, snd (Re.subn_scan p t prev x skip)).
Proof.
  intros Hm Hb Hs. induction x as [|c x IH]; intros prev skip Hk.
  - cbn [length] in Hk. replace skip with 0 by lia. cbn [app].
    rewrite (@marked_end p t prev Hm). cbn [fst snd app].
    rewrite <- (app_nil_r s) at 1.
    rewrite (@scan_no_marker p t [] Hm s prev (inert_no_marker Hs)).
    rewrite (@marked_end p t _ Hm). cbn [fst snd]. rewrite app_nil_r. reflexivity.
  - destruct skip as [|skip].
    + change ((c :: x) ++ s) with (c :: x ++ s). rewrite !subn_scan_here. cbv zeta.
      change (c :: x ++ s) with ((c :: x) ++ s).
      rewrite (@blind_here p prev (c :: x) s Hb ltac:(discriminate) Hs).
      rewrite expand_here.
      pose proof (here_consumed p prev (c :: x)) as Hc. cbn [length] in Hc.
      rewrite (IH (Some c) (pred (Re.consumed (Re.matches_here p prev (c :: x))))
                 ltac:(lia)).
      destruct (Re.subn_scan p t (Some c) x
                  (pred (Re.consumed (Re.matches_here p prev (c :: x))))) as [tail n].
      cbn [fst snd]. rewrite <- !app_assoc. reflexivity.
    + change ((c :: x) ++ s) with (c :: x ++ s). rewrite !subn_scan_skip.
      apply IH. cbn [length] in Hk. lia.
Qed.

Lemma inert_ends (x s m tail : str) :
  x ++ s = m ++ tail -> inert s -> m <> [] -> last m 0%N = 125%N ->
  exists tail', x = m ++ tail'.
Proof.
  intros E Hs Hm Hl. apply app_eq_app in E. destruct E as (l & [[E1 E2]|[E1 E2]]).
  - exists l; exact E1.
  - destruct l as [|d l].
    + exists []. rewrite app_nil_r in E1 |- *. symmetry; exact E1.
    + exfalso. assert (Hne : d :: l <> []) by discriminate.
      destruct (exists_last Hne) as (l' & e & El). rewrite El in E1, E2.
      subst m. rewrite app_assoc, last_last in Hl. subst e.
      unfold inert in Hs. rewrite E2, <- app_assoc in Hs.
      apply Forall_app in Hs. destruct Hs as [_ Hs].
      inversion Hs as [|? ? (_ & _ & H) _]. apply H; reflexivity.
Qed.

Lemma command_blind cmd : blind (command cmd).
Proof.
  intros prev x s adv Hx Hs.
  destruct (Re.match_at (command cmd) prev (x ++ s) adv) as [r|] eqn:E1.
  - destruct (command_match_inv _ _ _ _ E1)
      as (sp & arg & tail & Ht & Hsp & Harg & Hne & ->).
    destruct (@inert_ends x s _ tail Ht Hs ltac:(discriminate)
                (command_text_last cmd sp arg)) as (tail' & ->).
    symmetry. apply command_complete; assumption.
  - destruct (Re.match_at (command cmd) prev x adv) as [r|] eqn:E2; [|reflexivity].
    destruct (command_match_inv _ _ _ _ E2)
      as (sp & arg & tail & -> & Hsp & Harg & Hne & ->).
    rewrite <- app_assoc in E1.
    rewrite (@command_complete cmd sp arg prev (tail ++ s) adv Hsp Harg Hne) in E1.
    discriminate E1.
Qed.

Lemma double_backslash_blind : blind double_backslash.
Proof.
  intros prev x s adv Hx Hs.
  destruct x as [|c [|d x]]; [contradiction| |].
  - unfold Re.match_at. cbn [app Re.code double_backslash Re.sre_match Re.charset].
    destruct (N.eqb c 92); [|reflexivity].
    destruct s as [|d s]; [reflexivity|].
    inversion Hs as [|? ? (H & _) _]. apply N.eqb_neq in H. rewrite H. reflexivity.
  - unfold Re.match_at. cbn [app Re.code double_backslash Re.sre_match Re.charset].
    reflexivity.
Qed.

Lemma line_comment_blind : blind line_comment.
Proof.
  intros prev x s adv Hx Hs.
  destruct x as [|c x]; [contradiction|].
  unfold Re.match_at. cbn [app Re.code line_comment Re.sre_match Re.charset].
  reflexivity.
Qed.

Lemma registry_framed : Forall framed CONVERSION_RULES.
Proof.
  unfold CONVERSION_RULES.
  repeat (apply Forall_cons;
          [first
             [ match goal with |- framed ?r => exists (command (name r)) end;
               eexists; split; [vm_compute; reflexivity|];
               split; [eapply backslash_led_marked; reflexivity|apply command_blind]
             | exists double_backslash; eexists; split; [vm_compute; reflexivity|];
               split; [eapply backslash_led_marked; reflexivity
                      |apply double_backslash_blind]
             | exists line_comment; eexists; split; [vm_compute; reflexivity|];
               split; [apply line_comment_marked|apply line_comment_blind] ]|]).
  apply Forall_nil.
Qed.

Lemma transform_loop_prefix :
  forall rules, Forall framed rules ->
  forall s, no_marker s -> s <> [] ->
  forall text verbose out,
    fst (transform_loop rules (s ++ text) verbose out) =
    Ok (s ++ fold_left (pass_behind (last s 0%N)) rules text).
Proof.
  induction rules as [|rule rules IH]; intros Hr s Hs Hne text verbose out.
  - reflexivity.
  - inversion Hr as [|? ? (p & t & Hc & Hm & _) Hr']; subst.
    cbn [transform_loop fold_left]. rewrite (subn_compiled rule (s ++ text) Hc).
    rewrite (@scan_no_marker p t text Hm s None Hs).
    rewrite (@prev_after_last s None 0%N Hne).
    replace (pass_behind (last s 0%N) text rule)
      with (fst (Re.subn_scan p t (Some (last s 0%N)) text 0))
      by (unfold pass_behind; rewrite Hc; reflexivity).
    apply IH; assumption.
Qed.

Lemma transform_loop_suffix :
  forall rules, Forall framed rules ->
  forall s, inert s ->
  forall text verbose out,
    transform_loop rules (text ++ s) verbose out =
    match transform_loop rules text verbose out with
    | (Ok result, out') => (Ok (result ++ s), out')
    | (Raise e, out') => (Raise e, out')
    end.
Proof.
  induction rules as [|rule rules IH]; intros Hr s Hs text verbose out.
  - reflexivity.
  - inversion Hr as [|? ? (p & t & Hc & Hm & Hb) Hr']; subst.
    cbn [transform_loop].
    rewrite (subn_compiled rule (text ++ s) Hc), (subn_compiled rule text Hc).
    rewrite (@scan_inert p t s Hm Hb Hs text None 0 (Nat.le_0_l _)).
    destruct (Re.subn_scan p t None text 0) as [new n]. cbn [fst snd].
    apply IH; assumption.
Qed.

(** ** Single commands *)

Lemma run_unique (P : N -> Prop) :
  forall a b r r' : str,
    a ++ r = b ++ r' ->
    Forall P a -> Forall P b ->
    match r with [] => False | c :: _ => ~ P c end ->
    match r' with [] => False | c :: _ => ~ P c end ->
    a = b /\ r = r'.
Proof.
  induction a as [|c a IH]; intros [|d b] r r' E Ha Hb Hr Hr'.
  - split; [reflexivity|exact E].
  - cbn [app] in E. subst r. inversion Hb as [|? ? Hd _]. contradiction.
  - cbn [app] in E. subst r'. inversion Ha as [|? ? Hc _]. contradiction.
  - cbn [app] in E. injection E as -> E.
    inversion Ha as [|? ? _ Ha']. inversion Hb as [|? ? _ Hb']. subst.
    destruct (IH b r r' E Ha' Hb' Hr Hr') as [-> ->]. split; reflexivity.
Qed.

Lemma name_char_spec c :
  name_char c = true ->
  Re.uni_isspace c = false /\ c <> 123%N /\ c <> 125%N /\ c <> 92%N /\ c <> 37%N.
Proof.
  unfold name_char. intros H. apply negb_true_iff in H.
  apply orb_false_elim in H. destruct H as [H H5].
  apply orb_false_elim in H. destruct H as [H H4].
  apply orb_false_elim in H. destruct H as [H H3].
  apply orb_false_elim in H. destruct H as [H1 H2].
  apply N.eqb_neq in H2, H3, H4, H5. repeat split; assumption.
Qed.

Lemma name_chars cmd :
  forallb name_char cmd = true -> Forall (fun c => name_char c = true) cmd.
Proof.
  intros H. apply Forall_forall. intros c Hc.
  rewrite forallb_forall in H. apply H; exact Hc.
Qed.

Lemma name_ends (sp rest : str) :
  Forall (fun c => Re.uni_isspace c = true) sp ->
  match sp ++ 123%N :: rest with
  | [] => False
  | c :: _ => ~ name_char c = true
  end.
Proof.
  intros Hsp. destruct sp as [|c sp]; cbn [app].
  - intros H. vm_compute in H. discriminate H.
  - inversion Hsp as [|? ? Hc _]. unfold name_char. rewrite Hc. discriminate.
Qed.

Lemma space_ends (rest : str) :
  match 123%N :: rest with
  | [] => False
  | c :: _ => ~ Re.uni_isspace c = true
  end.
Proof. intros H. vm_compute in H. discriminate H. Qed.

Lemma command_text_plain cmd sp arg :
  forallb name_char cmd = true ->
  Forall (fun c => Re.uni_isspace c = true) sp ->
  Forall (fun c => c <> 92%N /\ c <> 123%N /\ c <> 125%N) arg ->
  no_backslash (cmd ++ sp ++ 123%N :: arg ++ [125%N]).
Proof.
  intros Hcmd Hsp Harg. unfold no_backslash.
  apply Forall_app. split.
  - eapply Forall_impl; [|exact (name_chars _ Hcmd)].
    intros c Hc. destruct (@name_char_spec c Hc) as (_ & _ & _ & H & _). exact H.
  - apply Forall_app. split.
    + eapply Forall_impl; [|exact Hsp]. intros c Hc ->. discriminate Hc.
    + apply Forall_cons; [discriminate|]. apply Forall_app. split.
      * eapply Forall_impl; [|exact Harg]. intros c (H & _). exact H.
      * apply Forall_cons; [discriminate|apply Forall_nil].
Qed.

(** The pattern of a command does not match at another command. *)
Lemma command_other_name c cmd sp arg tail prev adv :
  forallb name_char c = true -> forallb name_char cmd = true -> c <> cmd ->
  Forall (fun c => Re.uni_isspace c = true) sp ->
  Re.match_at (command c) prev (command_text cmd sp arg ++ tail) adv = None.
Proof.
  intros Hc Hcmd Hd Hsp.
  destruct (Re.match_at (command c) prev (command_text cmd sp arg ++ tail) adv)
    as [r|] eqn:E; [exfalso|reflexivity].
  destruct (command_match_inv _ _ _ _ E) as (sp' & arg' & tail' & Ht & Hsp' & _).
  unfold command_text in Ht. cbn [app] in Ht. injection Ht as Ht.
  rewrite <- !app_assoc in Ht.
  apply Hd.
  apply (@run_unique (fun x => name_char x = true) c cmd _ _ (eq_sym Ht)
           (name_chars _ Hc) (name_chars _ Hcmd)).
  - cbn [app]. apply name_ends; exact Hsp'.
  - cbn [app]. apply name_ends; exact Hsp.
Qed.

Lemma other_command_unmatched cmd sp arg rule :
  other_command cmd rule ->
  forallb name_char cmd = true ->
  Forall (fun c => Re.uni_isspace c = true) sp ->
  Forall (fun c => c <> 92%N /\ c <> 123%N /\ c <> 125%N) arg ->
  has_match rule (command_text cmd sp arg) = false.
Proof.
  intros (cmd' & t & Hc & Hd & Hn) Hcmd Hsp Harg. unfold has_match.
  rewrite (compile_rule_pattern _ Hc). unfold Re.search.
  pose proof (@command_other_name cmd' cmd sp arg [] None false Hn Hcmd Hd Hsp) as E.
  rewrite app_nil_r in E. unfold command_text in *.
  cbn [Re.search_from]. rewrite E.
  rewrite (@backslash_led_search (command cmd') _ eq_refl _
             (@command_text_plain cmd sp arg Hcmd Hsp Harg)).
  reflexivity.
Qed.

Lemma scan_skip_all p t :
  marked p ->
  forall rest prev, Re.subn_scan p t prev rest (length rest) = ([], 0).
Proof.
  intros Hm. induction rest as [|c rest IH]; intros prev.
  - apply marked_end; exact Hm.
  - cbn [length]. rewrite subn_scan_skip. apply IH.
Qed.

Lemma expand_around pre suf subject m :
  Re.expand (map Re.TLit pre ++ Re.TGroup 1 :: map Re.TLit suf) subject m =
  pre ++ Re.group_text subject (snd m) 1 ++ suf.
Proof.
  assert (H : forall l, Re.expand (map Re.TLit l) subject m = l).
  { induction l as [|c l IH]; [reflexivity|].
    unfold Re.expand in *. cbn [map flat_map app]. rewrite IH. reflexivity. }
  unfold Re.expand in *. rewrite flat_map_app. cbn [flat_map].
  rewrite (H pre), (H suf). reflexivity.
Qed.

Lemma command_scan cmd sp arg pre suf :
  Forall (fun c => Re.uni_isspace c = true) sp ->
  Forall (fun c => c <> 92%N /\ c <> 123%N /\ c <> 125%N) arg -> arg <> [] ->
  Re.subn_scan (command cmd) (map Re.TLit pre ++ Re.TGroup 1 :: map Re.TLit suf)
               None (command_text cmd sp arg) 0 =
  (pre ++ arg ++ suf, 1).
Proof.
  intros Hsp Harg Hne.
  assert (Hb : brace_free arg).
  { eapply Forall_impl; [|exact Harg]. intros c (_ & H1 & H2). unfold is_brace.
    apply N.eqb_neq in H1, H2. rewrite H1, H2. reflexivity. }
  assert (Hm : marked (command cmd)) by (eapply backslash_led_marked; reflexivity).
  pose proof (@command_complete cmd sp arg None [] false Hsp Hb Hne) as E.
  pose proof (@command_complete cmd sp arg None [] true Hsp Hb Hne) as E'.
  rewrite app_nil_r in E, E'.
  unfold command_text. rewrite subn_scan_here. unfold Re.matches_here.
  rewrite E. unfold command_result. cbv zeta.
  cbn [flat_map]. rewrite consumed_one. cbn [fst pred Nat.eqb length app].
  replace (S (1 + length cmd + length sp) + length arg)
    with (length (cmd ++ sp ++ 123%N :: arg ++ [125%N]))
    by (rewrite !length_app; cbn [length]; rewrite length_app; cbn [length]; lia).
  rewrite (@scan_skip_all (command cmd) _ Hm). rewrite !app_nil_r.
  rewrite expand_around. cbn [snd].
  replace (92%N :: cmd ++ sp ++ 123%N :: arg ++ [125%N])
    with ((92%N :: cmd ++ sp ++ [123%N]) ++ arg ++ [125%N])
    by (cbn [app]; rewrite <- !app_assoc; reflexivity).
  rewrite group_text_at;
    [reflexivity
    |cbn [length]; repeat (rewrite length_app; cbn [length]); lia
    |cbn [length]; repeat (rewrite length_app; cbn [length]); lia].
Qed.

(** ** The command line *)

Section CommandLineFacts.

Variable fs : Pathlib.

Lemma transform_fst text v1 v2 out1 out2 :
  fst (transform text v1 out1) = fst (transform text v2 out2).
Proof.
  rewrite (transform_eq text v1 out1), (transform_eq text v2 out2).
  apply transform_loop_fst.
Qed.

Lemma process_file_quiet w file_path args q1 q2 out1 out2 :
  fst (process_file fs w file_path (with_quiet q1 args) out1) =
  fst (process_file fs w file_path (with_quiet q2 args) out2).
Proof.
  unfold process_file.
  cbn [with_quiet args_quiet args_inplace args_prefix args_suffix args_ext].
  destruct (read_text fs w file_path) as [data|e]; [|reflexivity].
  pose proof (transform_fst data (negb q1) (negb q2)
                (out1 ++ [py "Processing: " ++ str_of_path fs file_path])
                (out2 ++ [py "Processing: " ++ str_of_path fs file_path])) as H.
  destruct (transform data (negb q1) _) as [[r1|e1] o1];
    destruct (transform data (negb q2) _) as [[r2|e2] o2];
    cbn [fst] in H; try discriminate H; [|reflexivity].
  injection H as ->.
  destruct (args_inplace args && negb (truthy (args_prefix args))
            && negb (truthy (args_suffix args)))%bool.
  - destruct (write_text fs w file_path r2) as [w' [e|]]; reflexivity.
  - destruct (write_text fs w _ r2) as [w' [e|]]; reflexivity.
Qed.

Lemma process_files_quiet args q1 q2 :
  forall tex_files w out1 out2,
    fst (process_files fs w tex_files (with_quiet q1 args) out1) =
    fst (process_files fs w tex_files (with_quiet q2 args) out2).
Proof.
  induction tex_files as [|f tex_files IH]; intros w out1 out2; [reflexivity|].
  cbn [process_files].
  pose proof (process_file_quiet w f args q1 q2 out1 out2) as H.
  destruct (process_file fs w f (with_quiet q1 args) out1) as [w1 o1].
  destruct (process_file fs w f (with_quiet q2 args) out2) as [w2 o2].
  cbn [fst] in H. subst w2. apply IH.
Qed.

Lemma process_file_inplace w file_path args b out :
  args_prefix args <> [] \/ args_suffix args <> [] ->
  process_file fs w file_path (with_inplace b args) out =
  process_file fs w file_path args out.
Proof.
  intros H. unfold process_file.
  cbn [with_inplace args_quiet args_inplace args_prefix args_suffix args_ext].
  assert (E : forall i, (i && negb (truthy (args_prefix args))
                         && negb (truthy (args_suffix args)))%bool = false).
  { intros i. destruct H as [H|H].
    - destruct (args_prefix args); [contradiction|].
      cbn [truthy negb]. rewrite andb_false_r. reflexivity.
    - destruct (args_suffix args); [contradiction|].
      cbn [truthy negb]. rewrite andb_false_r. reflexivity. }
  rewrite (E b), (E (args_inplace args)). reflexivity.
Qed.

Lemma process_files_inplace args b :
  args_prefix args <> [] \/ args_suffix args <> [] ->
  forall tex_files w out,
    process_files fs w tex_files (with_inplace b args) out =
    process_files fs w tex_files args out.
Proof.
  intros H. induction tex_files as [|f tex_files IH]; intros w out; [reflexivity|].
  cbn [process_files]. rewrite (@process_file_inplace w f args b out H).
  destruct (process_file fs w f args out) as [w' out']. apply IH.
Qed.

Lemma process_file_ext w file_path args e out :
  args_inplace args = true -> args_prefix args = [] -> args_suffix args = [] ->
  process_file fs w file_path (with_ext e args) out =
  process_file fs w file_path args out.
Proof.
  intros Hi Hp Hs. unfold process_file.
  cbn [with_ext args_quiet args_inplace args_prefix args_suffix args_ext].
  rewrite Hi, Hp, Hs. cbn [truthy negb andb]. reflexivity.
Qed.

Lemma process_files_ext args e :
  args_inplace args = true -> args_prefix args = [] -> args_suffix args = [] ->
  forall tex_files w out,
    process_files fs w tex_files (with_ext e args) out =
    process_files fs w tex_files args out.
Proof.
  intros Hi Hp Hs. induction tex_files as [|f tex_files IH]; intros w out; [reflexivity|].
  cbn [process_files]. rewrite (@process_file_ext w f args e out Hi Hp Hs).
  destruct (process_file fs w f args out) as [w' out']. apply IH.
Qed.

(** Files that cannot be read leave the world as it is. *)
Lemma process_files_unreadable args (err : path fs -> io_exn) w :
  forall tex_files out,
    Forall (fun f => read_text fs w f = Raises (err f)) tex_files ->
    process_files fs w tex_files args out =
    (w, out ++ flat_map (fun f => [py "Processing: " ++ str_of_path fs f;
                                   handler_line fs f (err f)]) tex_files).
Proof.
  induction tex_files as [|f tex_files IH]; intros out H.
  - cbn [process_files flat_map]. rewrite app_nil_r. reflexivity.
  - inversion H as [|? ? Hf H']; subst.
    cbn [process_files]. unfold process_file at 1. rewrite Hf.
    rewrite (IH _ H'). cbn [flat_map app]. rewrite <- !app_assoc. reflexivity.
Qed.

End CommandLineFacts.

(** ** Texts without backslashes, again *)

Lemma transform_plain text verbose out :
  no_backslash text ->
  transform text verbose out =
  (Ok (comment_lines text),
   if (negb (Nat.eqb (count_comments text) 0) && verbose)%bool
   then out ++ [py "[line comment] " ++ str_of_nat (count_comments text)
                ++ py " replacements"]
   else out).
Proof.
  intros H. destruct registry_split as (front & rule & Hs & Hf & Hn & Hc).
  rewrite transform_eq, Hs, transform_loop_app.
  rewrite (@transform_loop_plain front text Hf H verbose out).
  rewrite (@line_comment_last rule text verbose out Hc).
  unfold progress_line. rewrite Hn. reflexivity.
Qed.

Lemma comment_from_plain :
  forall s b, no_backslash s -> no_backslash (comment_from b s).
Proof.
  induction s as [|c s IH]; intros b Hs; [apply Forall_nil|].
  inversion Hs as [|? ? Hc Hs']; subst. cbn [comment_from].
  apply Forall_app. split; [|apply IH; exact Hs'].
  destruct (b && N.eqb c 37)%bool.
  - repeat constructor; discriminate.
  - repeat constructor; exact Hc.
Qed.

Lemma comment_from_fixed :
  forall s b, count_comments_from b s = 0 -> comment_from b s = s.
Proof.
  induction s as [|c s IH]; intros b H; [reflexivity|].
  cbn [comment_from count_comments_from] in *.
  destruct (b && N.eqb c 37)%bool; [discriminate H|].
  cbn [app]. rewrite IH; [reflexivity|exact H].
Qed.

Lemma comment_lines_twice s : comment_lines (comment_lines s) = comment_lines s.
Proof. apply comment_from_fixed. apply comment_from_clean. Qed.

(** ** Match attempts after a line feed *)

Lemma repeat_one_prev cs min (k : option N -> list N -> nat -> option Re.matched)
    prev1 prev2 rest pos :
  (forall rest' pos', k prev1 rest' pos' = k prev2 rest' pos') ->
  Re.repeat_one cs min k prev1 rest pos = Re.repeat_one cs min k prev2 rest pos.
Proof.
  intros H. destruct rest as [|c rest]; cbn [Re.repeat_one].
  - rewrite H. reflexivity.
  - rewrite H. reflexivity.
Qed.

Lemma sre_match_line_start ops :
  Forall (fun o => o <> Re.At_beginning) ops ->
  forall rest pos mk adv,
    Re.sre_match ops (Some 10%N) rest pos mk adv = Re.sre_match ops None rest pos mk adv.
Proof.
  induction ops as [|o ops IH]; intros Ho rest pos mk adv; [reflexivity|].
  inversion Ho as [|? ? Hne Ho']; subst.
  destruct o as [cs|min cs|i| |]; cbn [Re.sre_match].
  - reflexivity.
  - apply repeat_one_prev. intros rest' pos'. apply IH; exact Ho'.
  - apply IH; exact Ho'.
  - contradiction Hne; reflexivity.
  - change (N.eqb 10 10) with true. cbv iota. apply IH; exact Ho'.
Qed.

Lemma scan_line_start p t rest :
  unanchored p ->
  Re.subn_scan p t (Some 10%N) rest 0 = Re.subn_scan p t None rest 0.
Proof.
  intros Hp.
  assert (H : Re.matches_here p (Some 10%N) rest = Re.matches_here p None rest).
  { unfold Re.matches_here, Re.match_at. rewrite !(sre_match_line_start Hp). reflexivity. }
  destruct rest as [|c rest].
  - cbn [Re.subn_scan]. rewrite H. reflexivity.
  - rewrite !subn_scan_here, H. reflexivity.
Qed.

Lemma transform_loop_line_start :
  forall rules,
    Forall (fun rule => exists p t, compile_rule rule = Some (p, t) /\ unanchored p) rules ->
    forall text verbose out,
      fst (transform_loop rules text verbose out) =
      Ok (fold_left (pass_behind 10%N) rules text).
Proof.
  induction rules as [|rule rules IH]; intros Hr text verbose out; [reflexivity|].
  inversion Hr as [|? ? (p & t & Hc & Hp) Hr']; subst.
  cbn [transform_loop fold_left]. rewrite (subn_compiled rule text Hc).
  replace (pass_behind 10%N text rule) with (fst (Re.subn_scan p t None text 0))
    by (unfold pass_behind; rewrite Hc, (scan_line_start t text Hp); reflexivity).
  destruct (Re.subn_scan p t None text 0) as [new n]. cbn [fst].
  apply IH; exact Hr'.
Qed.

Lemma registry_unanchored :
  Forall (fun rule => exists p t, compile_rule rule = Some (p, t) /\ unanchored p)
         CONVERSION_RULES.
Proof.
  unfold CONVERSION_RULES.
  repeat (apply Forall_cons;
          [eexists; eexists; split; [vm_compute; reflexivity|];
           unfold unanchored; cbn [Re.code]; repeat constructor; discriminate|]).
  apply Forall_nil.
Qed.

(** ** Nested commands *)

Ltac same_list :=
  repeat first [rewrite <- app_assoc | progress cbn [app]]; reflexivity.

Lemma backslash_led_here p ops prev c rest :
  Re.code p = Re.One (Re.Literal 92%N) :: ops -> c <> 92%N ->
  Re.matches_here p prev (c :: rest) = [].
Proof.
  intros Hp Hc. unfold Re.matches_here, Re.match_at. rewrite Hp.
  cbn [Re.sre_match Re.charset]. apply N.eqb_neq in Hc. rewrite Hc. reflexivity.
Qed.

Lemma scan_dead_here p t prev c rest :
  Re.matches_here p prev (c :: rest) = [] ->
  Re.subn_scan p t prev (c :: rest) 0 =
  (c :: fst (Re.subn_scan p t (Some c) rest 0), snd (Re.subn_scan p t (Some c) rest 0)).
Proof.
  intros H. rewrite subn_scan_here, H. cbv zeta. change (pred (Re.consumed [])) with 0.
  destruct (Re.subn_scan p t (Some c) rest 0); reflexivity.
Qed.

Lemma scan_no_backslash p t ops b :
  Re.code p = Re.One (Re.Literal 92%N) :: ops ->
  forall a prev,
    no_backslash a ->
    Re.subn_scan p t prev (a ++ b) 0 =
    (a ++ fst (Re.subn_scan p t (prev_after prev a) b 0),
     snd (Re.subn_scan p t (prev_after prev a) b 0)).
Proof.
  intros Hp. induction a as [|c a IH]; intros prev Ha.
  - cbn [app]. change (prev_after prev []) with prev.
    destruct (Re.subn_scan p t prev b 0); reflexivity.
  - inversion Ha as [|? ? Hc Ha']; subst. cbn [app].
    rewrite (@scan_dead_here p t prev c (a ++ b)
               (@backslash_led_here p ops prev c (a ++ b) Hp Hc)).
    rewrite (IH (Some c) Ha'), prev_after_cons. reflexivity.
Qed.

Lemma scan_skip_app p t (b : str) :
  forall (a : str) prev,
    Re.subn_scan p t prev (a ++ b) (length a) = Re.subn_scan p t (prev_after prev a) b 0.
Proof.
  induction a as [|c a IH]; intros prev; [reflexivity|].
  cbn [app length]. rewrite subn_scan_skip, IH, prev_after_cons. reflexivity.
Qed.

Lemma search_no_backslash p ops (b : str) :
  Re.code p = Re.One (Re.Literal 92%N) :: ops ->
  forall (a : str) prev at_,
    no_backslash a ->
    Re.search_from p prev (a ++ b) at_ =
    Re.search_from p (prev_after prev a) b (at_ + length a).
Proof.
  intros Hp. induction a as [|c a IH]; intros prev at_ Ha.
  - cbn [app length]. rewrite Nat.add_0_r. reflexivity.
  - inversion Ha as [|? ? Hc Ha']; subst. cbn [app length Re.search_from].
    unfold Re.match_at at 1. rewrite Hp. cbn [Re.sre_match Re.charset].
    apply N.eqb_neq in Hc. rewrite Hc.
    rewrite (IH (Some c) (S at_) Ha'), prev_after_cons. f_equal. lia.
Qed.

Lemma plain_arg_brace_free s : plain_arg s -> brace_free s.
Proof.
  intros H. eapply Forall_impl; [|exact H]. intros c (_ & H1 & H2). unfold is_brace.
  apply N.eqb_neq in H1, H2. rewrite H1, H2. reflexivity.
Qed.

(** A command in front of a text: it is replaced, and the scan goes on
    behind its closing brace. *)
Lemma command_scan_tail cmd sp arg pre suf tail prev :
  Forall (fun c => Re.uni_isspace c = true) sp -> plain_arg arg -> arg <> [] ->
  Re.subn_scan (command cmd) (around pre suf) prev (command_text cmd sp arg ++ tail) 0 =
  ((pre ++ arg ++ suf)
     ++ fst (Re.subn_scan (command cmd) (around pre suf) (Some 125%N) tail 0),
   S (snd (Re.subn_scan (command cmd) (around pre suf) (Some 125%N) tail 0))).
Proof.
  intros Hsp Harg Hne.
  pose proof (plain_arg_brace_free Harg) as Hb.
  pose proof (@command_complete cmd sp arg prev tail false Hsp Hb Hne) as E.
  unfold command_text. cbn [app] in E |- *.
  rewrite subn_scan_here. unfold Re.matches_here. rewrite E.
  unfold command_result. cbv zeta.
  cbn [flat_map]. rewrite consumed_one. cbn [fst pred Nat.eqb length app].
  replace (S (1 + length cmd + length sp) + length arg)
    with (length (cmd ++ sp ++ 123%N :: arg ++ [125%N]))
    by (repeat (rewrite length_app; cbn [length]); lia).
  rewrite scan_skip_app.
  replace (prev_after (Some 92%N) (cmd ++ sp ++ 123%N :: arg ++ [125%N]))
    with (Some 125%N).
  2:{ replace (cmd ++ sp ++ 123%N :: arg ++ [125%N])
        with ((cmd ++ sp ++ 123%N :: arg) ++ [125%N])
        by same_list.
      rewrite prev_after_snoc. reflexivity. }
  destruct (Re.subn_scan (command cmd) (around pre suf) (Some 125%N) tail 0) as [rest n].
  cbn [fst snd]. rewrite app_nil_r. unfold around. rewrite expand_around. cbn [snd].
  replace (92%N :: (cmd ++ sp ++ 123%N :: arg ++ [125%N]) ++ tail)
    with ((92%N :: cmd ++ sp ++ [123%N]) ++ arg ++ [125%N] ++ tail)
    by same_list.
  rewrite group_text_at;
    [reflexivity
    |cbn [length]; repeat (rewrite length_app; cbn [length]); lia
    |cbn [length]; repeat (rewrite length_app; cbn [length]); lia].
Qed.

(** No command pattern matches at the outer command: the argument of the
    outer command holds a brace. *)
Lemma nested_outer_dead c co ci sp1 sp2 arg prev adv :
  forallb name_char c = true -> forallb name_char co = true ->
  forallb name_char ci = true ->
  Forall (fun x => Re.uni_isspace x = true) sp1 ->
  Forall (fun x => Re.uni_isspace x = true) sp2 ->
  Re.match_at (command c) prev (command_text co sp1 (command_text ci sp2 arg)) adv = None.
Proof.
  intros Hc Hco Hci Hsp1 Hsp2.
  destruct (Re.match_at (command c) prev
              (command_text co sp1 (command_text ci sp2 arg)) adv) as [r|] eqn:E;
    [exfalso|reflexivity].
  destruct (command_match_inv _ _ _ _ E) as (s & a & tail & Ht & Hs & Ha & _).
  unfold command_text in Ht. cbn [app] in Ht. injection Ht as Ht.
  rewrite <- !app_assoc in Ht.
  destruct (@run_unique (fun x => name_char x = true) co c _ _ Ht
              (name_chars _ Hco) (name_chars _ Hc)) as [_ Ht'].
  { cbn [app]. apply name_ends; exact Hsp1. }
  { cbn [app]. apply name_ends; exact Hs. }
  destruct (@run_unique (fun x => Re.uni_isspace x = true) sp1 s _ _ Ht' Hsp1 Hs)
    as [_ Ht''].
  { exact (space_ends []). }
  { exact (space_ends []). }
  cbn [app] in Ht''. injection Ht'' as Ht''.
  assert (Hrun : Forall (fun x => is_brace x = false) (92%N :: ci ++ sp2)).
  { apply Forall_cons; [reflexivity|]. apply Forall_app. split.
    - eapply Forall_impl; [|exact (name_chars _ Hci)].
      intros x Hx. destruct (@name_char_spec x Hx) as (_ & H1 & H2 & _).
      unfold is_brace. apply N.eqb_neq in H1, H2. rewrite H1, H2. reflexivity.
    - eapply Forall_impl; [|exact Hsp2]. intros x; apply space_not_brace. }
  assert (Ht3 : (92%N :: ci ++ sp2) ++ 123%N :: arg ++ [125%N; 125%N] =
                a ++ 125%N :: tail).
  { replace (a ++ 125%N :: tail) with ((a ++ [125%N]) ++ tail) by same_list.
    rewrite <- Ht''. same_list. }
  destruct (@run_unique (fun x => is_brace x = false) _ a _ _ Ht3 Hrun Ha) as [_ Hd].
  { discriminate. }
  { discriminate. }
  discriminate Hd.
Qed.

(** The pass of the rule of the inner command replaces the inner command. *)
Lemma nested_inner_pass co ci sp1 sp2 arg pre suf :
  forallb name_char co = true -> forallb name_char ci = true ->
  Forall (fun x => Re.uni_isspace x = true) sp1 ->
  Forall (fun x => Re.uni_isspace x = true) sp2 ->
  plain_arg arg -> arg <> [] ->
  fst (Re.subn_scan (command ci) (around pre suf) None
         (command_text co sp1 (command_text ci sp2 arg)) 0) =
  command_text co sp1 (pre ++ arg ++ suf).
Proof.
  intros Hco Hci Hsp1 Hsp2 Harg Hne.
  pose proof (@nested_outer_dead ci co ci sp1 sp2 arg None false Hci Hco Hci Hsp1 Hsp2)
    as Hd.
  assert (Hp : no_backslash (co ++ sp1 ++ [123%N])).
  { apply Forall_app. split.
    - eapply Forall_impl; [|exact (name_chars _ Hco)].
      intros x Hx. destruct (@name_char_spec x Hx) as (_ & _ & _ & H & _). exact H.
    - apply Forall_app. split.
      + eapply Forall_impl; [|exact Hsp1]. intros x Hx ->. discriminate Hx.
      + repeat constructor. discriminate. }
  unfold command_text at 1 in Hd. unfold command_text at 1.
  rewrite scan_dead_here by (unfold Re.matches_here; rewrite Hd; reflexivity).
  cbn [fst].
  replace (co ++ sp1 ++ 123%N :: command_text ci sp2 arg ++ [125%N])
    with ((co ++ sp1 ++ [123%N]) ++ command_text ci sp2 arg ++ [125%N]) by same_list.
  rewrite (@scan_no_backslash (command ci) (around pre suf) _
             (command_text ci sp2 arg ++ [125%N]) eq_refl _ (Some 92%N) Hp).
  cbn [fst].
  rewrite (@command_scan_tail ci sp2 arg pre suf [125%N] _ Hsp2 Harg Hne).
  cbn [fst].
  rewrite scan_dead_here
    by (eapply backslash_led_here; [reflexivity|discriminate]).
  cbn [fst Re.subn_scan]. unfold Re.matches_here, Re.match_at.
  cbn [Re.code command Re.sre_match flat_map fst]. unfold command_text. same_list.
Qed.

(** The pattern of another command has no match in the nested commands. *)
Lemma nested_other_search c co ci sp1 sp2 arg :
  forallb name_char c = true -> forallb name_char co = true ->
  forallb name_char ci = true -> c <> ci ->
  Forall (fun x => Re.uni_isspace x = true) sp1 ->
  Forall (fun x => Re.uni_isspace x = true) sp2 ->
  plain_arg arg ->
  Re.search (command c) (command_text co sp1 (command_text ci sp2 arg)) = None.
Proof.
  intros Hc Hco Hci Hne Hsp1 Hsp2 Harg.
  pose proof (@nested_outer_dead c co ci sp1 sp2 arg None false Hc Hco Hci Hsp1 Hsp2)
    as Hd.
  assert (Hp : no_backslash (co ++ sp1 ++ [123%N])).
  { apply Forall_app. split.
    - eapply Forall_impl; [|exact (name_chars _ Hco)].
      intros x Hx. destruct (@name_char_spec x Hx) as (_ & _ & _ & H & _). exact H.
    - apply Forall_app. split.
      + eapply Forall_impl; [|exact Hsp1]. intros x Hx ->. discriminate Hx.
      + repeat constructor. discriminate. }
  unfold Re.search. unfold command_text at 1 in Hd. unfold command_text at 1.
  cbn [Re.search_from]. rewrite Hd.
  replace (co ++ sp1 ++ 123%N :: command_text ci sp2 arg ++ [125%N])
    with ((co ++ sp1 ++ [123%N]) ++ command_text ci sp2 arg ++ [125%N]) by same_list.
  rewrite (@search_no_backslash (command c) _ (command_text ci sp2 arg ++ [125%N])
             eq_refl _ (Some 92%N) 1 Hp).
  pose proof (@command_other_name c ci sp2 arg [125%N]
                (prev_after (Some 92%N) (co ++ sp1 ++ [123%N])) false Hc Hci Hne Hsp2)
    as Ho.
  unfold command_text in Ho |- *. cbn [app] in Ho |- *.
  cbn [Re.search_from]. rewrite Ho.
  apply (@backslash_led_search (command c) _ eq_refl).
  apply Forall_app. split.
  - apply command_text_plain; assumption.
  - repeat constructor. discriminate.
Qed.

(** *** Runs of rules *)

Lemma runs_nil text : runs [] text text.
Proof. intros verbose out. exists out. reflexivity. Qed.

Lemma runs_cons rule rules p t text text' :
  compile_rule rule = Some (p, t) ->
  runs rules (fst (Re.subn_scan p t None text 0)) text' ->
  runs (rule :: rules) text text'.
Proof.
  intros Hc Hr verbose out. cbn [transform_loop].
  rewrite (subn_compiled rule text Hc).
  destruct (Re.subn_scan p t None text 0) as [mid n]. cbn [fst] in Hr.
  apply Hr.
Qed.

Lemma runs_app rules1 rules2 text mid text' :
  runs rules1 text mid -> runs rules2 mid text' -> runs (rules1 ++ rules2) text text'.
Proof.
  intros H1 H2 verbose out. rewrite transform_loop_app.
  destruct (H1 verbose out) as (out1 & E1). rewrite E1. apply H2.
Qed.

Lemma runs_unmatched rules text :
  Forall compiles rules ->
  Forall (fun rule => has_match rule text = false) rules ->
  runs rules text text.
Proof.
  intros Hc Hm verbose out. exists out.
  apply (proj1 (@transform_loop_unmatched rules Hc text Hm)).
Qed.

Lemma rule_of_led rule e : rule_of rule e -> backslash_led rule.
Proof. intros H. eexists. eexists. eexists. split; [exact H|reflexivity]. Qed.

Lemma rules_led rules es : Forall2 rule_of rules es -> Forall backslash_led rules.
Proof.
  induction 1 as [|rule e rules es H _ IH]; constructor; [|exact IH].
  eapply rule_of_led; exact H.
Qed.

Lemma runs_plain rules text :
  Forall backslash_led rules -> no_backslash text -> runs rules text text.
Proof.
  intros Hr Ht verbose out. exists out. apply transform_loop_plain; assumption.
Qed.

Section Nested.

Variables co ci sp1 sp2 arg : str.

Hypothesis Hco : forallb name_char co = true.
Hypothesis Hci : forallb name_char ci = true.
Hypothesis Hsp1 : Forall (fun x => Re.uni_isspace x = true) sp1.
Hypothesis Hsp2 : Forall (fun x => Re.uni_isspace x = true) sp2.
Hypothesis Harg : plain_arg arg.
Hypothesis Hne : arg <> [].

(** Rules of other commands than the inner one leave the nested commands
    alone. *)
Lemma runs_nested rules es :
  Forall2 rule_of rules es -> Forall entry_ok es -> ~ In ci (names es) ->
  runs rules (command_text co sp1 (command_text ci sp2 arg))
       (command_text co sp1 (command_text ci sp2 arg)).
Proof.
  intros H Hok Hn. apply runs_unmatched.
  - eapply Forall_impl; [|exact (rules_led H)]. intros r; apply backslash_led_compiles.
  - revert Hok Hn. induction H as [|rule e rules es Hr _ IH]; intros Hok Hn;
      constructor.
    + inversion Hok as [|? ? (Hname & _) _]; subst.
      unfold has_match. rewrite (compile_rule_pattern _ Hr).
      rewrite nested_other_search; try assumption; [reflexivity|].
      intros E. apply Hn. left; exact E.
    + inversion Hok; subst. apply IH; [assumption|].
      intros Hin. apply Hn. right; exact Hin.
Qed.

End Nested.

(** Rules of other commands leave a command with a plain argument alone. *)
Lemma runs_command cmd sp arg rules es :
  forallb name_char cmd = true ->
  Forall (fun x => Re.uni_isspace x = true) sp -> plain_arg arg ->
  Forall2 rule_of rules es -> Forall entry_ok es -> ~ In cmd (names es) ->
  runs rules (command_text cmd sp arg) (command_text cmd sp arg).
Proof.
  intros Hcmd Hsp Harg H Hok Hn. apply runs_unmatched.
  - eapply Forall_impl; [|exact (rules_led H)]. intros r; apply backslash_led_compiles.
  - revert Hok Hn. induction H as [|rule e rules es Hr _ IH]; intros Hok Hn;
      constructor.
    + inversion Hok as [|? ? (Hname & _) _]; subst.
      apply other_command_unmatched; try assumption.
      eexists. eexists. split; [exact Hr|]. split; [|exact Hname].
      intros E. apply Hn. left; exact E.
    + inversion Hok; subst. apply IH; [assumption|].
      intros Hin. apply Hn. right; exact Hin.
Qed.

(** The two last rules on a command and on a text without backslash. *)
Lemma double_backslash_single (body : str) :
  no_backslash body -> Re.search double_backslash (92%N :: body) = None.
Proof.
  intros Hb. unfold Re.search. cbn [Re.search_from].
  replace (Re.match_at double_backslash None (92%N :: body) false) with (@None Re.matched).
  - apply (@backslash_led_search double_backslash _ eq_refl); exact Hb.
  - unfold Re.match_at. cbn [Re.code double_backslash Re.sre_match Re.charset].
    change (N.eqb 92 92) with true. cbv iota.
    destruct body as [|d body]; [reflexivity|].
    inversion Hb as [|? ? Hd _]. apply N.eqb_neq in Hd. rewrite Hd. reflexivity.
Qed.

Lemma runs_closing_command dbl lc cmd sp arg :
  compile_rule dbl = Some (double_backslash, [Re.TLit 92%N]) ->
  compile_rule lc = Some (line_comment, [Re.TLit 47%N; Re.TLit 47%N]) ->
  forallb name_char cmd = true ->
  Forall (fun x => Re.uni_isspace x = true) sp -> plain_arg arg ->
  runs [dbl; lc] (command_text cmd sp arg) (comment_lines (command_text cmd sp arg)).
Proof.
  intros Hd Hl Hcmd Hsp Harg.
  apply (@runs_app [dbl] [lc] _ (command_text cmd sp arg)).
  - apply runs_unmatched.
    + repeat constructor. eexists; eexists; exact Hd.
    + repeat constructor. unfold has_match. rewrite (compile_rule_pattern _ Hd).
      unfold command_text. rewrite double_backslash_single; [reflexivity|].
      apply command_text_plain; assumption.
  - intros verbose out. eexists. apply line_comment_last; exact Hl.
Qed.

Lemma runs_closing_plain dbl lc text :
  compile_rule dbl = Some (double_backslash, [Re.TLit 92%N]) ->
  compile_rule lc = Some (line_comment, [Re.TLit 47%N; Re.TLit 47%N]) ->
  no_backslash text ->
  runs [dbl; lc] text (comment_lines text).
Proof.
  intros Hd Hl Ht.
  apply (@runs_app [dbl] [lc] _ text).
  - apply runs_plain; [|exact Ht]. repeat constructor.
    eexists. eexists. eexists. split; [exact Hd|reflexivity].
  - intros verbose out. eexists. apply line_comment_last; exact Hl.
Qed.

(** *** The table and the registry *)

Lemma registry_table :
  exists commands dbl lc,
    CONVERSION_RULES = commands ++ [dbl; lc] /\
    Forall2 rule_of commands conversions /\
    compile_rule dbl = Some (double_backslash, [Re.TLit 92%N]) /\
    compile_rule lc = Some (line_comment, [Re.TLit 47%N; Re.TLit 47%N]).
Proof.
  pose (dummy := Build_ConversionRule [] [] [] []).
  exists (firstn 15 CONVERSION_RULES), (nth 15 CONVERSION_RULES dummy),
         (nth 16 CONVERSION_RULES dummy).
  split; [vm_compute; reflexivity|].
  split; [|split; vm_compute; reflexivity].
  unfold conversions.
  let l := eval vm_compute in (firstn 15 CONVERSION_RULES) in
  change (firstn 15 CONVERSION_RULES) with l.
  repeat (apply Forall2_cons; [vm_compute; reflexivity|]).
  apply Forall2_nil.
Qed.

Lemma table_ok : Forall entry_ok conversions.
Proof.
  unfold conversions.
  repeat (apply Forall_cons;
          [split; [vm_compute; reflexivity|];
           split; vm_compute; repeat constructor; discriminate|]).
  apply Forall_nil.
Qed.

Lemma table_names : NoDup (names conversions).
Proof.
  let l := eval vm_compute in (names conversions) in
  change (names conversions) with l.
  repeat (apply NoDup_cons;
          [intros H; cbn [In] in H;
           repeat (destruct H as [H|H]; [discriminate H|]); exact H|]).
  apply NoDup_nil.
Qed.

Lemma NoDup_disjoint (A : Type) (x : A) :
  forall l1 l2, NoDup (l1 ++ l2) -> In x l1 -> In x l2 -> False.
Proof.
  induction l1 as [|a l1 IH]; intros l2 H H1 H2; [contradiction|].
  cbn [app] in H. inversion H as [|? ? Ha H']; subst.
  destruct H1 as [->|H1].
  - apply Ha. apply in_or_app. right; exact H2.
  - exact (IH l2 H' H1 H2).
Qed.

(** Where two entries stand in a table without repeated names. *)
Lemma table_split (es : list (str * str * str)) inner outer e_i e_o :
  NoDup (names es) ->
  nth_error es inner = Some e_i -> nth_error es outer = Some e_o ->
  if Nat.ltb inner outer
  then exists A B1 B2,
         es = A ++ e_i :: B1 ++ e_o :: B2 /\
         ~ In (fst (fst e_i)) (names A) /\ ~ In (fst (fst e_o)) (names B1)
  else exists A B,
         es = A ++ e_i :: B /\
         ~ In (fst (fst e_i)) (names A) /\ ~ In (fst (fst e_o)) (names B).
Proof.
  intros Hn Hi Ho.
  destruct (nth_error_split _ _ Hi) as (A & B & -> & Hlen).
  assert (HA : ~ In (fst (fst e_i)) (names A)).
  { unfold names in *. rewrite map_app in Hn. cbn [map] in Hn.
    apply NoDup_remove_2 in Hn. intros H. apply Hn. apply in_or_app. left; exact H. }
  destruct (Nat.ltb inner outer) eqn:L.
  - apply Nat.ltb_lt in L.
    rewrite nth_error_app2 in Ho by lia.
    destruct (outer - length A) as [|k] eqn:K; [lia|]. cbn [nth_error] in Ho.
    destruct (nth_error_split _ _ Ho) as (B1 & B2 & -> & _).
    exists A, B1, B2. split; [reflexivity|]. split; [exact HA|].
    unfold names in *. rewrite !map_app in Hn. cbn [map] in Hn.
    rewrite map_app in Hn. cbn [map] in Hn.
    rewrite app_comm_cons, app_assoc in Hn.
    apply NoDup_remove_2 in Hn. intros H. apply Hn.
    apply in_or_app. left. apply in_or_app. right. right. exact H.
  - apply Nat.ltb_ge in L. exists A, B. split; [reflexivity|]. split; [exact HA|].
    destruct (Nat.eq_dec outer inner) as [E|E].
    + subst outer. rewrite Hi in Ho. injection Ho as <-.
      unfold names in *. rewrite map_app in Hn. cbn [map] in Hn.
      apply NoDup_remove_2 in Hn. intros H. apply Hn. apply in_or_app. right; exact H.
    + rewrite nth_error_app1 in Ho by lia. apply nth_error_In in Ho.
      intros H. unfold names in *. rewrite map_app in Hn. cbn [map] in Hn.
      apply (@NoDup_disjoint _ (fst (fst e_o)) _ _ Hn).
      * apply (in_map (fun e => fst (fst e))) in Ho. exact Ho.
      * right. exact H.
Qed.

(** *** A command in the argument of a command *)

Lemma nested_runs outer inner co pre_o suf_o ci pre_i suf_i sp1 sp2 arg :
  nth_error conversions outer = Some (co, pre_o, suf_o) ->
  nth_error conversions inner = Some (ci, pre_i, suf_i) ->
  Forall (fun x => Re.uni_isspace x = true) sp1 ->
  Forall (fun x => Re.uni_isspace x = true) sp2 ->
  plain_arg arg -> arg <> [] ->
  runs CONVERSION_RULES (command_text co sp1 (command_text ci sp2 arg))
       (comment_lines
          (if Nat.ltb inner outer
           then pre_o ++ pre_i ++ arg ++ suf_i ++ suf_o
           else command_text co sp1 (pre_i ++ arg ++ suf_i))).
Proof.
  intros Ho Hi Hsp1 Hsp2 Harg Hne.
  destruct registry_table as (commands & dbl & lc & Hreg & Hf2 & Hd & Hl).
  pose proof table_ok as Hok.
  pose proof (@table_split conversions inner outer _ _ table_names Hi Ho) as Hs.
  destruct (proj1 (Forall_forall _ _) Hok _ (nth_error_In _ _ Ho))
    as (Hco & Hpo & Hso).
  destruct (proj1 (Forall_forall _ _) Hok _ (nth_error_In _ _ Hi))
    as (Hci & Hpi & Hsi).
  cbn [fst snd] in Hco, Hpo, Hso, Hci, Hpi, Hsi, Hs.
  assert (Harg' : plain_arg (pre_i ++ arg ++ suf_i)).
  { apply Forall_app. split; [exact Hpi|]. apply Forall_app. split; assumption. }
  assert (Hne' : pre_i ++ arg ++ suf_i <> []).
  { intros E. apply app_eq_nil in E. destruct E as [_ E].
    apply app_eq_nil in E. destruct E as [E _]. contradiction. }
  rewrite Hreg.
  destruct (Nat.ltb inner outer).
  - destruct Hs as (A & B1 & B2 & Hes & HA & HB1).
    rewrite Hes in Hf2, Hok.
    apply Forall2_app_inv_r in Hf2. destruct Hf2 as (rA & r1 & HrA & Hr1 & ->).
    inversion Hr1 as [|ri ? r2 ? Hri Hr2]; subst.
    apply Forall2_app_inv_r in Hr2. destruct Hr2 as (rB1 & r3 & HrB1 & Hr3 & ->).
    inversion Hr3 as [|ro ? rB2 ? Hro HrB2]; subst.
    apply Forall_app in Hok. destruct Hok as [HokA Hok].
    inversion Hok as [|? ? _ Hok']; subst.
    apply Forall_app in Hok'. destruct Hok' as [HokB1 _].
    unfold rule_of in Hri, Hro. cbn [fst snd] in Hri, Hro.
    replace ((rA ++ ri :: rB1 ++ ro :: rB2) ++ [dbl; lc])
      with (rA ++ ri :: rB1 ++ ro :: rB2 ++ [dbl; lc]) by same_list.
    eapply runs_app;
      [exact (@runs_nested co ci sp1 sp2 arg Hco Hci Hsp1 Hsp2 Harg rA A HrA HokA HA)|].
    eapply runs_cons; [exact Hri|].
    rewrite (@nested_inner_pass co ci sp1 sp2 arg pre_i suf_i Hco Hci Hsp1 Hsp2 Harg Hne).
    eapply runs_app;
      [exact (@runs_command co sp1 (pre_i ++ arg ++ suf_i) rB1 B1 Hco Hsp1 Harg'
                HrB1 HokB1 HB1)|].
    eapply runs_cons; [exact Hro|]. unfold around.
    rewrite (@command_scan co sp1 (pre_i ++ arg ++ suf_i) pre_o suf_o Hsp1 Harg' Hne').
    cbn [fst].
    replace (pre_o ++ pre_i ++ arg ++ suf_i ++ suf_o)
      with (pre_o ++ (pre_i ++ arg ++ suf_i) ++ suf_o) by same_list.
    assert (Hplain : no_backslash (pre_o ++ (pre_i ++ arg ++ suf_i) ++ suf_o)).
    { apply Forall_app. split; [|apply Forall_app; split].
      - eapply Forall_impl; [|exact Hpo]. intros x (H & _); exact H.
      - eapply Forall_impl; [|exact Harg']. intros x (H & _); exact H.
      - eapply Forall_impl; [|exact Hso]. intros x (H & _); exact H. }
    eapply runs_app; [exact (@runs_plain rB2 _ (@rules_led rB2 B2 HrB2) Hplain)|].
    apply runs_closing_plain; assumption.
  - destruct Hs as (A & B & Hes & HA & HB).
    rewrite Hes in Hf2, Hok.
    apply Forall2_app_inv_r in Hf2. destruct Hf2 as (rA & r1 & HrA & Hr1 & ->).
    inversion Hr1 as [|ri ? rB ? Hri HrB]; subst.
    apply Forall_app in Hok. destruct Hok as [HokA Hok].
    inversion Hok as [|? ? _ HokB]; subst.
    unfold rule_of in Hri. cbn [fst snd] in Hri.
    replace ((rA ++ ri :: rB) ++ [dbl; lc])
      with (rA ++ ri :: rB ++ [dbl; lc]) by same_list.
    eapply runs_app;
      [exact (@runs_nested co ci sp1 sp2 arg Hco Hci Hsp1 Hsp2 Harg rA A HrA HokA HA)|].
    eapply runs_cons; [exact Hri|].
    rewrite (@nested_inner_pass co ci sp1 sp2 arg pre_i suf_i Hco Hci Hsp1 Hsp2 Harg Hne).
    eapply runs_app;
      [exact (@runs_command co sp1 (pre_i ++ arg ++ suf_i) rB B Hco Hsp1 Harg'
                HrB HokB HB)|].
    apply runs_closing_command; assumption.
Qed.

(** ** Flat documents *)

Lemma table_functional (es : list (str * str * str)) :
  NoDup (names es) ->
  forall e e', In e es -> In e' es -> fst (fst e) = fst (fst e') -> e = e'.
Proof.
  induction es as [|a es IH]; intros Hn e e' He He' E; [contradiction|].
  cbn [names map] in Hn. inversion Hn as [|? ? Ha Hn']; subst.
  destruct He as [->|He], He' as [->|He'].
  - reflexivity.
  - exfalso. apply Ha. rewrite E. apply (in_map (fun x => fst (fst x))). exact He'.
  - exfalso. apply Ha. rewrite <- E. apply (in_map (fun x => fst (fst x))). exact He.
  - apply IH; assumption.
Qed.

Lemma str_eqb_eq a b : str_eqb a b = true <-> a = b.
Proof.
  unfold str_eqb. destruct (list_eq_dec N.eq_dec a b); split; intros H;
    congruence.
Qed.

Lemma typst_plain x : piece_ok x -> no_backslash (typst x).
Proof.
  destruct x as [s|e sp arg]; cbn [piece_ok typst]; [auto|].
  intros (He & _ & Harg & _).
  destruct (proj1 (Forall_forall _ _) table_ok e He) as (_ & Hp & Hs).
  apply Forall_app. split; [|apply Forall_app; split].
  - eapply Forall_impl; [|exact Hp]. intros c (H & _); exact H.
  - eapply Forall_impl; [|exact Harg]. intros c (H & _); exact H.
  - eapply Forall_impl; [|exact Hs]. intros c (H & _); exact H.
Qed.

Lemma converted_ok es x : piece_ok x -> piece_ok (converted es x).
Proof.
  intros H. destruct x as [s|e sp arg]; cbn [converted]; [exact H|].
  destruct (existsb (str_eqb (fst (fst e))) (names es)); [|exact H].
  exact (typst_plain _ H).
Qed.

Lemma converted_cons e es x :
  converted es (converted [e] x) = converted (e :: es) x.
Proof.
  destruct x as [s|e' sp arg]; cbn [converted names map existsb]; [reflexivity|].
  rewrite orb_false_r.
  destruct (str_eqb (fst (fst e')) (fst (fst e))); reflexivity.
Qed.

Lemma converted_all x :
  piece_ok x -> latex (converted conversions x) = typst x.
Proof.
  destruct x as [s|e sp arg]; cbn [piece_ok converted]; [reflexivity|].
  intros (He & _).
  replace (existsb (str_eqb (fst (fst e))) (names conversions)) with true;
    [reflexivity|].
  symmetry. apply existsb_exists. exists (fst (fst e)). split.
  - apply (in_map (fun x => fst (fst x))). exact He.
  - apply str_eqb_eq. reflexivity.
Qed.

(** The pass of the rule of an entry converts the commands of the entry
    and copies the other pieces. *)
Lemma pass_pieces e :
  In e conversions ->
  forall pieces prev,
    Forall piece_ok pieces ->
    fst (Re.subn_scan (command (fst (fst e))) (around (snd (fst e)) (snd e)) prev
           (flat_map latex pieces) 0) =
    flat_map latex (map (converted [e]) pieces).
Proof.
  intros He.
  destruct (proj1 (Forall_forall _ _) table_ok e He) as (Hname & _).
  induction pieces as [|x pieces IH]; intros prev Hok.
  - cbn [flat_map map Re.subn_scan]. unfold Re.matches_here, Re.match_at.
    cbn [Re.code command Re.sre_match flat_map fst]. reflexivity.
  - inversion Hok as [|? ? Hx Hok']; subst. cbn [flat_map map].
    destruct x as [s|e' sp arg].
    + cbn [latex converted piece_ok] in *.
      rewrite (@scan_no_backslash (command (fst (fst e))) _ _ (flat_map latex pieces)
                 eq_refl s prev Hx).
      cbn [fst]. rewrite (IH _ Hok'). reflexivity.
    + cbn [piece_ok] in Hx. destruct Hx as (He' & Hsp & Harg & Hne).
      destruct (proj1 (Forall_forall _ _) table_ok e' He') as (Hname' & _).
      cbn [latex converted names map existsb]. rewrite orb_false_r.
      destruct (str_eqb (fst (fst e')) (fst (fst e))) eqn:E.
      * apply str_eqb_eq in E.
        pose proof (@table_functional conversions table_names e' e He' He E) as ->.
        rewrite (@command_scan_tail (fst (fst e)) sp arg (snd (fst e)) (snd e)
                   (flat_map latex pieces) prev Hsp Harg Hne).
        cbn [fst latex typst]. rewrite (IH _ Hok'). same_list.
      * assert (Hd : fst (fst e) <> fst (fst e')).
        { intros Hd. symmetry in Hd. apply str_eqb_eq in Hd. congruence. }
        pose proof (@command_other_name (fst (fst e)) (fst (fst e')) sp arg
                      (flat_map latex pieces) prev false Hname Hname' Hd Hsp) as Ho.
        unfold command_text in Ho |- *. cbn [app] in Ho |- *.
        rewrite scan_dead_here by (unfold Re.matches_here; rewrite Ho; reflexivity).
        cbn [fst].
        rewrite (@scan_no_backslash (command (fst (fst e))) _ _ (flat_map latex pieces)
                   eq_refl _ (Some 92%N)
                   (@command_text_plain (fst (fst e')) sp arg Hname' Hsp Harg)).
        cbn [fst]. rewrite (IH _ Hok'). reflexivity.
Qed.

Lemma runs_pieces :
  forall rules es,
    Forall2 rule_of rules es -> incl es conversions ->
    forall pieces,
      Forall piece_ok pieces ->
      runs rules (flat_map latex pieces) (flat_map latex (map (converted es) pieces)).
Proof.
  induction 1 as [|rule e rules es Hr _ IH]; intros Hin pieces Hok.
  - replace (map (converted []) pieces) with pieces; [apply runs_nil|].
    induction pieces as [|x pieces IHp]; [reflexivity|].
    inversion Hok; subst. cbn [map]. rewrite <- IHp by assumption.
    destruct x; reflexivity.
  - assert (He : In e conversions) by (apply Hin; left; reflexivity).
    eapply runs_cons; [exact Hr|].
    rewrite (@pass_pieces e He pieces None Hok).
    replace (map (converted (e :: es)) pieces)
      with (map (converted es) (map (converted [e]) pieces)).
    + apply IH.
      * intros a Ha. apply Hin. right; exact Ha.
      * apply Forall_forall. intros y Hy. apply in_map_iff in Hy.
        destruct Hy as (x & <- & Hx). apply converted_ok.
        exact (proj1 (Forall_forall _ _) Hok x Hx).
    + rewrite map_map. apply map_ext. intros x. apply converted_cons.
Qed.

Lemma flat_document_runs pieces :
  Forall piece_ok pieces ->
  runs CONVERSION_RULES (flat_map latex pieces) (comment_lines (flat_map typst pieces)).
Proof.
  intros Hok.
  destruct registry_table as (commands & dbl & lc & Hreg & Hf2 & Hd & Hl).
  rewrite Hreg.
  eapply runs_app; [exact (@runs_pieces commands conversions Hf2 (incl_refl _) pieces Hok)|].
  replace (flat_map latex (map (converted conversions) pieces))
    with (flat_map typst pieces).
  - apply runs_closing_plain; [exact Hd|exact Hl|].
    unfold no_backslash. rewrite flat_map_concat_map. apply Forall_concat.
    apply Forall_forall. intros s Hs. apply in_map_iff in Hs.
    destruct Hs as (x & <- & Hx). apply typst_plain.
    exact (proj1 (Forall_forall _ _) Hok x Hx).
  - rewrite flat_map_concat_map, flat_map_concat_map, map_map. f_equal.
    apply map_ext_in. intros x Hx. symmetry. apply converted_all.
    exact (proj1 (Forall_forall _ _) Hok x Hx).
Qed.

(** ** Commands with an empty argument *)

Lemma empty_argument_dead c cmd sp prev adv :
  forallb name_char c = true -> forallb name_char cmd = true ->
  Forall (fun x => Re.uni_isspace x = true) sp ->
  Re.match_at (command c) prev (92%N :: cmd ++ sp ++ [123%N; 125%N]) adv = None.
Proof.
  intros Hc Hcmd Hsp.
  destruct (Re.match_at (command c) prev (92%N :: cmd ++ sp ++ [123%N; 125%N]) adv)
    as [r|] eqn:E; [exfalso|reflexivity].
  destruct (command_match_inv _ _ _ _ E) as (s & a & tail & Ht & Hs & Ha & Hne & _).
  cbn [app] in Ht. injection Ht as Ht. rewrite <- !app_assoc in Ht.
  destruct (@run_unique (fun x => name_char x = true) cmd c _ _ Ht
              (name_chars _ Hcmd) (name_chars _ Hc)) as [_ Ht'].
  { apply name_ends; exact Hsp. }
  { cbn [app]. apply name_ends; exact Hs. }
  destruct (@run_unique (fun x => Re.uni_isspace x = true) sp s _ _ Ht' Hsp Hs)
    as [_ Ht''].
  { exact (space_ends []). }
  { exact (space_ends []). }
  cbn [app] in Ht''. injection Ht'' as Ht''.
  destruct a as [|x a]; [contradiction|].
  cbn [app] in Ht''. injection Ht'' as <- _.
  inversion Ha as [|? ? Hx _]. discriminate Hx.
Qed.

Lemma line_comment_search :
  forall text prev at_,
    Forall (fun c => c <> 37%N) text ->
    Re.search_from line_comment prev text at_ = None.
Proof.
  induction text as [|c text IH]; intros prev at_ Ht.
  - cbn [Re.search_from]. rewrite (proj2 line_comment_marked). reflexivity.
  - inversion Ht as [|? ? Hc Ht']; subst. cbn [Re.search_from].
    unfold Re.match_at at 1. cbn [Re.code line_comment Re.sre_match Re.charset].
    apply N.eqb_neq in Hc. rewrite Hc.
    replace (match prev with
             | Some c0 => if N.eqb c0 10 then None else None
             | None => None
             end) with (@None Re.matched)
      by (destruct prev as [d|]; [destruct (N.eqb d 10)|]; reflexivity).
    apply IH; exact Ht'.
Qed.

Lemma empty_argument_rules cmd sp rules es :
  forallb name_char cmd = true ->
  Forall (fun x => Re.uni_isspace x = true) sp ->
  Forall2 rule_of rules es -> Forall entry_ok es ->
  Forall (fun rule => has_match rule (92%N :: cmd ++ sp ++ [123%N; 125%N]) = false)
         rules.
Proof.
  intros Hname Hsp Hf2.
  assert (Hbody : no_backslash (cmd ++ sp ++ [123%N; 125%N])).
  { apply Forall_app. split.
    - eapply Forall_impl; [|exact (name_chars _ Hname)].
      intros x Hx. destruct (@name_char_spec x Hx) as (_ & _ & _ & H & _). exact H.
    - apply Forall_app. split.
      + eapply Forall_impl; [|exact Hsp]. intros x Hx ->. discriminate Hx.
      + repeat constructor; discriminate. }
  induction Hf2 as [|rule e' rules es Hr _ IH]; intros Hok; constructor.
  - inversion Hok as [|? ? (Hname' & _) _]; subst.
    unfold has_match. rewrite (compile_rule_pattern _ Hr). unfold Re.search.
    cbn [Re.search_from].
    rewrite (@empty_argument_dead (fst (fst e')) cmd sp None false Hname' Hname Hsp).
    rewrite (@backslash_led_search (command (fst (fst e'))) _ eq_refl _ Hbody).
    reflexivity.
  - inversion Hok; subst. apply IH; assumption.
Qed.

Lemma empty_argument_unmatched e sp :
  In e conversions -> Forall (fun x => Re.uni_isspace x = true) sp ->
  unmatched (92%N :: fst (fst e) ++ sp ++ [123%N; 125%N]).
Proof.
  intros He Hsp.
  destruct (proj1 (Forall_forall _ _) table_ok e He) as (Hname & _).
  assert (Hbody : no_backslash (fst (fst e) ++ sp ++ [123%N; 125%N])).
  { apply Forall_app. split.
    - eapply Forall_impl; [|exact (name_chars _ Hname)].
      intros x Hx. destruct (@name_char_spec x Hx) as (_ & _ & _ & H & _). exact H.
    - apply Forall_app. split.
      + eapply Forall_impl; [|exact Hsp]. intros x Hx ->. discriminate Hx.
      + repeat constructor; discriminate. }
  assert (Hpercent : Forall (fun c => c <> 37%N)
                            (92%N :: fst (fst e) ++ sp ++ [123%N; 125%N])).
  { apply Forall_cons; [discriminate|]. apply Forall_app. split.
    - eapply Forall_impl; [|exact (name_chars _ Hname)].
      intros x Hx. destruct (@name_char_spec x Hx) as (_ & _ & _ & _ & H). exact H.
    - apply Forall_app. split.
      + eapply Forall_impl; [|exact Hsp]. intros x Hx ->. discriminate Hx.
      + repeat constructor; discriminate. }
  destruct registry_table as (commands & dbl & lc & Hreg & Hf2 & Hd & Hl).
  rewrite unmatched_eq, Hreg. apply Forall_app. split.
  - exact (@empty_argument_rules (fst (fst e)) sp commands conversions Hname Hsp Hf2
             table_ok).
  - repeat constructor.
    + unfold has_match. rewrite (compile_rule_pattern _ Hd).
      rewrite (double_backslash_single Hbody). reflexivity.
    + unfold has_match. rewrite (compile_rule_pattern _ Hl). unfold Re.search.
      rewrite (line_comment_search None 0 Hpercent). reflexivity.
Qed.

(** ** The passes of the rule table *)

Lemma span_spec (f : N -> bool) :
  forall s taken rest,
    span f s = (taken, rest) ->
    s = taken ++ rest /\ Forall (fun c => f c = true) taken /\
    match rest with [] => True | c :: _ => f c = false end.
Proof.
  induction s as [|c s IH]; intros taken rest H; cbn [span] in H.
  - injection H as <- <-. repeat split. constructor.
  - destruct (f c) eqn:E.
    + destruct (span f s) as [a r] eqn:Es. injection H as <- <-.
      destruct (IH a r eq_refl) as (-> & Ha & Hr).
      repeat split; [constructor; assumption|exact Hr].
    + injection H as <- <-. repeat split; [constructor|exact E].
Qed.

Lemma span_app (f : N -> bool) :
  forall taken rest : str,
    Forall (fun c => f c = true) taken ->
    match rest with [] => True | c :: _ => f c = false end ->
    span f (taken ++ rest) = (taken, rest).
Proof.
  induction taken as [|c taken IH]; intros rest Ht Hr.
  - destruct rest as [|d rest]; cbn [app span]; [reflexivity|]. rewrite Hr. reflexivity.
  - inversion Ht as [|? ? Hc Ht']; subst. cbn [app span]. rewrite Hc, (IH rest Ht' Hr).
    reflexivity.
Qed.

Lemma strip_spec :
  forall lit s rest : str, strip lit s = Some rest -> s = lit ++ rest.
Proof.
  induction lit as [|l lit IH]; intros s rest H; cbn [strip] in H.
  - injection H as ->. reflexivity.
  - destruct s as [|c s]; [discriminate H|].
    destruct (N.eqb l c) eqn:E; [|discriminate H].
    apply N.eqb_eq in E. subst c. cbn [app]. f_equal. apply IH; exact H.
Qed.

Lemma strip_app : forall lit s : str, strip lit (lit ++ s) = Some s.
Proof.
  induction lit as [|l lit IH]; intros s; cbn [app strip]; [reflexivity|].
  rewrite N.eqb_refl. apply IH.
Qed.

(** An occurrence is the text of a command, and the other way round. *)
Lemma occurrence_elim cmd s arg rest :
  occurrence cmd s = Some (arg, rest) ->
  exists sp,
    s = command_text cmd sp arg ++ rest /\
    Forall (fun c => Re.uni_isspace c = true) sp /\ brace_free arg /\ arg <> [].
Proof.
  unfold occurrence. intros H.
  destruct (strip (92%N :: cmd) s) as [s1|] eqn:E1; [|discriminate H].
  apply strip_spec in E1.
  destruct (span Re.uni_isspace s1) as [sp r1] eqn:E2.
  destruct (@span_spec _ _ _ _ E2) as (-> & Hsp & _). cbn [snd] in H.
  destruct r1 as [|c s2]; [discriminate H|].
  destruct (N.eqb c 123) eqn:Ec; [|discriminate H]. apply N.eqb_eq in Ec. subst c.
  destruct (span (fun x => negb (is_brace x)) s2) as [a r2] eqn:E3.
  destruct (@span_spec _ _ _ _ E3) as (-> & Ha & _).
  destruct a as [|x a]; [discriminate H|]. destruct r2 as [|d r2]; [discriminate H|].
  destruct (N.eqb d 125) eqn:Ed; [|discriminate H]. apply N.eqb_eq in Ed. subst d.
  injection H as <- <-. exists sp.
  split; [|split; [exact Hsp|split; [|discriminate]]].
  - rewrite E1. unfold command_text.
    repeat first [rewrite <- app_assoc | progress cbn [app]]. reflexivity.
  - eapply Forall_impl; [|exact Ha]. intros c Hc. apply negb_true_iff in Hc. exact Hc.
Qed.

Lemma occurrence_intro cmd sp arg rest :
  Forall (fun c => Re.uni_isspace c = true) sp -> brace_free arg -> arg <> [] ->
  occurrence cmd (command_text cmd sp arg ++ rest) = Some (arg, rest).
Proof.
  intros Hsp Harg Hne. unfold occurrence, command_text.
  replace ((92%N :: cmd ++ sp ++ 123%N :: arg ++ [125%N]) ++ rest)
    with ((92%N :: cmd) ++ sp ++ 123%N :: arg ++ 125%N :: rest)
    by (repeat first [rewrite <- app_assoc | progress cbn [app]]; reflexivity).
  rewrite strip_app.
  rewrite (@span_app Re.uni_isspace sp (123%N :: arg ++ 125%N :: rest) Hsp eq_refl).
  cbn [snd]. change (N.eqb 123 123) with true. cbv iota.
  rewrite (@span_app (fun x => negb (is_brace x)) arg (125%N :: rest)).
  - destruct arg as [|x arg]; [contradiction|]. reflexivity.
  - eapply Forall_impl; [|exact Harg]. intros c Hc. rewrite Hc. reflexivity.
  - reflexivity.
Qed.

Lemma occurrence_none cmd s prev adv :
  occurrence cmd s = None -> Re.match_at (command cmd) prev s adv = None.
Proof.
  intros H.
  destruct (Re.match_at (command cmd) prev s adv) as [r|] eqn:E; [exfalso|reflexivity].
  destruct (command_match_inv _ _ _ _ E) as (sp & arg & tail & -> & Hsp & Harg & Hne & _).
  fold (command_text cmd sp arg) in H.
  rewrite (@occurrence_intro cmd sp arg tail Hsp Harg Hne) in H. discriminate H.
Qed.

(** The scan of a command rule is the pass of the table. *)
Lemma replace_command_scan cmd pre suf :
  forall s prev covered,
    Re.subn_scan (command cmd) (around pre suf) prev s covered =
    replace_command cmd pre suf s covered.
Proof.
  assert (Hm : marked (command cmd)) by (eapply backslash_led_marked; reflexivity).
  induction s as [|c s IH]; intros prev covered.
  - destruct covered as [|k]; [|reflexivity].
    rewrite (@marked_end (command cmd) (around pre suf) prev Hm). reflexivity.
  - destruct covered as [|k].
    + rewrite subn_scan_here. cbn [replace_command].
      destruct (occurrence cmd (c :: s)) as [[arg rest]|] eqn:E.
      * destruct (@occurrence_elim _ _ _ _ E) as (sp & Hs & Hsp & Harg & Hne).
        pose proof (@command_complete cmd sp arg prev rest false Hsp Harg Hne) as Hc.
        fold (command_text cmd sp arg) in Hc. rewrite <- Hs in Hc.
        unfold Re.matches_here. rewrite Hc. unfold command_result. cbv zeta.
        cbn [flat_map]. rewrite consumed_one. cbn [fst pred Nat.eqb length app].
        unfold command_text in Hs. cbn [app] in Hs. injection Hs as -> ->.
        replace (length ((cmd ++ sp ++ 123%N :: arg ++ [125%N]) ++ rest) - length rest)
          with (S (1 + length cmd + length sp) + length arg)
          by (repeat (rewrite length_app; cbn [length]); lia).
        rewrite IH.
        destruct (replace_command cmd pre suf
                    ((cmd ++ sp ++ 123%N :: arg ++ [125%N]) ++ rest)
                    (S (1 + length cmd + length sp) + length arg)) as [behind n].
        rewrite app_nil_r. unfold around. rewrite expand_around. cbn [snd].
        replace (92%N :: (cmd ++ sp ++ 123%N :: arg ++ [125%N]) ++ rest)
          with ((92%N :: cmd ++ sp ++ [123%N]) ++ arg ++ [125%N] ++ rest)
          by (repeat first [rewrite <- app_assoc | progress cbn [app]]; reflexivity).
        rewrite group_text_at;
          [rewrite <- !app_assoc; reflexivity
          |cbn [length]; repeat (rewrite length_app; cbn [length]); lia
          |cbn [length]; repeat (rewrite length_app; cbn [length]); lia].
      * unfold Re.matches_here. rewrite (@occurrence_none cmd (c :: s) prev false E). cbv zeta.
        change (pred (Re.consumed [])) with 0. rewrite IH.
        destruct (replace_command cmd pre suf s 0) as [behind n]. reflexivity.
    + rewrite subn_scan_skip. cbn [replace_command]. apply IH.
Qed.

Lemma command_pass_subn rule e :
  rule_of rule e ->
  forall current,
    Re.subn (pattern rule) (replacement rule) current = Ok (command_pass e current).
Proof.
  intros Hr current. rewrite (subn_compiled rule current Hr).
  unfold command_pass. rewrite replace_command_scan. reflexivity.
Qed.

Lemma double_backslash_subn rule :
  compile_rule rule = Some (double_backslash, [Re.TLit 92%N]) ->
  forall current,
    Re.subn (pattern rule) (replacement rule) current =
    Ok (collapse current, count_pairs current).
Proof.
  intros Hr current. rewrite (subn_compiled rule current Hr).
  rewrite (proj1 (double_backslash_scan current) None). reflexivity.
Qed.

Lemma line_comment_subn rule :
  compile_rule rule = Some (line_comment, [Re.TLit 47%N; Re.TLit 47%N]) ->
  forall current,
    Re.subn (pattern rule) (replacement rule) current =
    Ok (comment_lines current, count_comments current).
Proof.
  intros Hr current. rewrite (subn_compiled rule current Hr).
  rewrite (line_comment_scan current None). reflexivity.
Qed.

Lemma registry_passes : Forall2 does CONVERSION_RULES passes.
Proof.
  unfold CONVERSION_RULES, passes, conversions. cbn [map app].
  repeat (apply Forall2_cons;
          [split;
           [vm_compute; reflexivity
           |cbn [snd];
            first [ apply command_pass_subn; vm_compute; reflexivity
                  | apply double_backslash_subn; vm_compute; reflexivity
                  | apply line_comment_subn; vm_compute; reflexivity ]]|]).
  apply Forall2_nil.
Qed.

Lemma fold_passes_eq text : fold_passes text = fold_left apply_pass passes (text, []).
Proof. reflexivity. Qed.

(** The loop computes the fold of the passes, and prints the log. *)
Lemma transform_loop_passes :
  forall rules ps, Forall2 does rules ps ->
  forall text log,
  exists current log',
    fold_left apply_pass ps (text, log) = (current, log ++ log') /\
    (forall out, transform_loop rules text true out =
                 (Ok current, out ++ map log_line log')) /\
    (forall out, transform_loop rules text false out = (Ok current, out)).
Proof.
  induction 1 as [|rule pass rules ps (Hn & Hp) _ IH]; intros text log.
  - exists text, []. cbn [fold_left transform_loop map]. rewrite app_nil_r.
    repeat split; intros out; rewrite ?app_nil_r; reflexivity.
  - cbn [fold_left transform_loop]. unfold apply_pass at 2. cbn [fst snd].
    rewrite Hp. destruct (snd pass text) as [next count].
    destruct count as [|n].
    + destruct (IH next log) as (current & log' & Hf & Ht & Hq).
      exists current, log'. repeat split; assumption.
    + destruct (IH next (log ++ [(fst pass, S n)])) as (current & log' & Hf & Ht & Hq).
      exists current, ((fst pass, S n) :: log'). repeat split.
      * cbn [Nat.ltb Nat.leb]. rewrite Hf, <- app_assoc. reflexivity.
      * intros out. cbn [Nat.eqb negb andb]. rewrite Ht, progress_line_log_line, Hn.
        cbn [map]. rewrite <- app_assoc. reflexivity.
      * intros out. cbn [Nat.eqb negb andb]. apply Hq.
Qed.

(** The passes on the scenarios of the specification. *)
Example fold_passes_scenarios :
  fold_passes (py "\section{Introduction}") =
    (py "== Introduction", [(py "section", 1)]) /\
  fold_passes (py "\textbf{bold} and \textit{italic}") =
    (py "*bold* and _italic_", [(py "textit", 1); (py "textbf", 1)]) /\
  fold_passes (py "\textbf{a{b}c}") = (py "\textbf{a{b}c}", []).
Proof. repeat split; vm_compute; reflexivity. Qed.

(** * The claims *)

(** C1: for every input, [transform] computes the fold of the passes of
    the rule table: pass by pass in registry order, each pass one global
    substitution over the whole current text, in which every occurrence of
    what the rule looks for, taken from left to right without overlap, is
    replaced by what the rule puts in its place; the output of a pass is
    the input of the next; the text returned is the one after the last
    pass, and the lines printed (with [verbose]) are the log of the passes
    with a positive count, in registry order.  The passes are written
    without regular expressions and without replacement templates; rule by
    rule, under the same name, [re.subn] with the pattern and the
    replacement of the rule returns on every text the text and the count
    of the pass. *)
Theorem transform_is_fold_of_substitutions (text : str) :
  (exists current log,
     fold_passes text = (current, log) /\
     (forall out, transform text true out = (Ok current, out ++ map log_line log)) /\
     (forall out, transform text false out = (Ok current, out))) /\
  Forall2 does CONVERSION_RULES passes.
Proof.
  split; [|exact registry_passes].
  destruct (transform_loop_passes registry_passes text [])
    as (current & log & Hf & Ht & Hq).
  exists current, log. rewrite fold_passes_eq.
  split; [exact Hf|].
  split; intros out; rewrite transform_eq; [apply Ht|apply Hq].
Qed.

(** C2: [\textcite{foo}] becomes [@foo]; the textcite rule comes before the
    cite rule, its match covers the whole command, it is the only rule that
    replaces something, and the cite pattern has no match in the input. *)
Theorem textcite_before_cite :
  transform (py "\textcite{foo}") true [] =
    (Ok (py "@foo"), [py "[textcite] 1 replacements"]) /\
  rule_index (py "textcite") CONVERSION_RULES = Some 11 /\
  rule_index (py "cite") CONVERSION_RULES = Some 12 /\
  option_map (fun rule => match_span rule (py "\textcite{foo}"))
             (rule_named (py "textcite")) =
    Some (Some (0, length (py "\textcite{foo}"))) /\
  option_map (fun rule => has_match rule (py "\textcite{foo}"))
             (rule_named (py "cite")) = Some false.
Proof.
  repeat split; vm_compute; reflexivity.
Qed.

(** C3: in any input that holds [\textbf{a{b}c}] the fragment comes out as
    it went in, between what the text before it and the text behind it have
    become: the text behind it as a text that follows a closing brace, the
    text before it as it is when only the backslash of the fragment follows.
    A textbf match is the command, whitespace, and an argument without
    braces in braces; no pattern of the registry has a match that starts
    inside the fragment, and what a rule captures holds no brace; the
    fragment alone is returned unchanged. *)
Theorem nested_braces_fragment_unchanged (before after : str) (verbose : bool)
    (out : list str) :
  (exists before' out',
     transform (before ++ fragment ++ after) verbose out =
     (Ok (before' ++ fragment ++ transform_behind 125%N after), out') /\
     fst (transform (before ++ [92%N]) verbose out) = Ok (before' ++ [92%N])) /\
  (exists rule p,
     rule_named (py "textbf") = Some rule /\
     Re.compile (pattern rule) = Some p /\
     forall prev rest adv len mk,
       Re.match_at p prev rest adv = Some (len, mk) ->
       exists sp arg,
         firstn len rest = py "\textbf" ++ sp ++ 123%N :: arg ++ [125%N] /\
         brace_free arg) /\
  Forall (fun rule => exists p, Re.compile (pattern rule) = Some p /\ dead_in_fragment p)
         CONVERSION_RULES /\
  Forall (fun rule => exists p, Re.compile (pattern rule) = Some p /\ captures_no_brace p)
         CONVERSION_RULES /\
  transform fragment true [] = (Ok fragment, []).
Proof.
  split; [|split; [|split; [|split]]].
  - destruct (transform_loop_fragment registry_spares_fragment before after verbose out)
      as (before' & out' & H1 & H2).
    exists before', out'. split.
    + rewrite transform_eq, transform_behind_eq. exact H1.
    + rewrite transform_eq. apply H2.
  - eexists. exists (command (py "textbf")).
    split; [vm_compute; reflexivity|]. split; [vm_compute; reflexivity|].
    intros prev rest adv len mk H. apply command_match in H.
    destruct H as (sp & arg & H & _ & Harg & _).
    exists sp, arg. split; [exact H|exact Harg].
  - eapply Forall_impl; [|exact registry_spares_fragment].
    intros rule (p & t & Hc & Hdead & _). exists p. split; [|exact Hdead].
    unfold compile_rule in Hc.
    destruct (Re.compile (pattern rule)) as [p'|]; [|discriminate].
    destruct (Re.compile_template p' (replacement rule)); [|discriminate].
    now injection Hc as -> _.
  - exact registry_captures.
  - vm_compute; reflexivity.
Qed.

(** C4: a double backslash before a line break becomes a single backslash;
    in general the double backslash rule replaces every pair of consecutive
    backslashes, taken from the left without overlap, by one backslash. *)
Theorem double_backslash_collapses :
  transform (py "line one" ++ [92; 92; 10]%N ++ py "line two") true [] =
    (Ok (py "line one" ++ [92; 10]%N ++ py "line two"),
     [py "[double backslash] 1 replacements"]) /\
  exists rule,
    rule_named (py "double backslash") = Some rule /\
    forall text,
      Re.subn (pattern rule) (replacement rule) text =
      Ok (collapse text, count_pairs text).
Proof.
  split; [vm_compute; reflexivity|].
  eexists. split; [vm_compute; reflexivity|].
  intros text.
  change (Re.subn (py "\\\\") (py "\\") text = Ok (collapse text, count_pairs text)).
  unfold Re.subn.
  replace (Re.compile (py "\\\\")) with (Some double_backslash) by (vm_compute; reflexivity).
  replace (Re.compile_template double_backslash (py "\\")) with (Some [Re.TLit 92%N])
    by (vm_compute; reflexivity).
  f_equal. apply double_backslash_scan.
Qed.

(** C5: a text in which no pattern of the registry matches is returned as it
    is, also when [transform] is applied twice, and nothing is logged; the
    empty string is such a text. *)
Theorem transform_unmatched_identity (text : str) (H : unmatched text) :
  (forall verbose out, transform text verbose out = (Ok text, out)) /\
  (forall verbose out, transform_twice text verbose out = (Ok text, out)) /\
  spec_transform text = Some (text, []) /\
  unmatched [] /\
  (forall verbose out, transform [] verbose out = (Ok [], out)) /\
  spec_transform [] = Some ([], []).
Proof.
  pose proof unmatched_nil as He.
  split; [|split; [|split; [|split; [exact He|split]]]].
  - intros verbose out. apply transform_unmatched; exact H.
  - intros verbose out. rewrite transform_twice_eq.
    rewrite (transform_unmatched H). apply transform_unmatched; exact H.
  - apply spec_transform_unmatched; exact H.
  - intros verbose out. apply transform_unmatched; exact He.
  - apply spec_transform_unmatched; exact He.
Qed.

Lemma transform_unmatched_identity_witness :
  unmatched (py "plain prose, 100% free of commands") /\
  transform (py "plain prose, 100% free of commands") true [] =
    (Ok (py "plain prose, 100% free of commands"), []).
Proof.
  assert (H : unmatched (py "plain prose, 100% free of commands")).
  { rewrite unmatched_eq. unfold CONVERSION_RULES.
    repeat (apply Forall_cons; [vm_compute; reflexivity|]). apply Forall_nil. }
  split; [exact H|].
  exact (proj1 (transform_unmatched_identity H) true []).
Defined.

(** C6: [transform] is not idempotent: on four backslashes a second
    application changes the result of the first. *)
Theorem transform_not_idempotent :
  exists T once twice,
    fst (transform T true []) = Ok once /\
    fst (transform_twice T true []) = Ok twice /\
    twice <> once.
Proof.
  exists (py "\\\\"), (py "\\"), (py "\").
  split; [vm_compute; reflexivity|].
  split; [vm_compute; reflexivity|].
  vm_compute; discriminate.
Qed.

(** C7: [transform] is total: on every input it returns a string and raises
    no exception, whether or not any rule matches. *)
Theorem transform_total (text : str) (verbose : bool) (out : list str) :
  exists text' out', transform text verbose out = (Ok text', out').
Proof.
  destruct (transform_loop_spec registry_compiles text []) as (current & log & _ & Ht & Hq).
  rewrite transform_eq.
  destruct verbose; eexists; eexists; [apply Ht|apply Hq].
Qed.

(** C8: every rule is self-consistent: its pattern compiles, its template
    parses, and every group the template refers to is a group of the
    pattern; the templates of the double backslash and line comment rules
    refer to no group. *)
Theorem registry_self_consistent :
  Forall (fun rule =>
            exists p t,
              Re.compile (pattern rule) = Some p /\
              Re.template_items (replacement rule) = Some t /\
              Forall (fun g => 1 <= g <= Re.groups p) (Re.group_refs t) /\
              (In 1 (Re.group_refs t) -> 1 <= Re.groups p) /\
              (name rule = py "double backslash" \/ name rule = py "line comment" ->
               Re.group_refs t = []))
         CONVERSION_RULES.
Proof.
  unfold CONVERSION_RULES.
  repeat (apply Forall_cons;
          [eexists; eexists;
           split; [vm_compute; reflexivity|];
           split; [vm_compute; reflexivity|];
           split; [vm_compute; repeat constructor|];
           split; [first [solve [intros _; vm_compute; repeat constructor]
                         | intros Hin; vm_compute in Hin; contradiction]|];
           intros [Hn|Hn]; solve [vm_compute in Hn; discriminate Hn | reflexivity]|]).
  apply Forall_nil.
Qed.

(** C9: the string returned does not depend on [verbose]; verbosity only
    decides whether progress lines are appended to the output. *)
Theorem transform_result_independent_of_verbose (text : str) (out1 out2 : list str) :
  fst (transform text true out1) = fst (transform text false out2) /\
  snd (transform text false out2) = out2 /\
  exists lines, snd (transform text true out1) = out1 ++ lines.
Proof.
  rewrite (transform_eq text true out1), (transform_eq text false out2).
  split; [apply transform_loop_fst|].
  split; [apply transform_loop_quiet|apply transform_loop_appends].
Qed.

(** C10: comment lines are converted like any other text: the line comment
    rule is the last of the registry, so the rules before it turn
    [%\section{X}] into [%== X], and the last rule turns that into
    [//== X]. *)
Theorem comment_lines_are_converted :
  transform (py "%\section{X}") true [] =
    (Ok (py "//== X"),
     [py "[section] 1 replacements"; py "[line comment] 1 replacements"]) /\
  rule_index (py "line comment") CONVERSION_RULES = Some 16 /\
  length CONVERSION_RULES = 17 /\
  fst (transform_loop (firstn 16 CONVERSION_RULES) (py "%\section{X}") true []) =
    Ok (py "%== X").
Proof.
  repeat split; vm_compute; reflexivity.
Qed.

(** * Consequences for the users of [transform] *)

Unset Implicit Arguments.

(** X1: the line comment rule replaces by [//] every [%] that starts a
    line, that is, stands at the start of the text or right after a line
    feed, and no other character; its count is the number of those [%]. *)
Theorem line_comment_pass (text : str) :
  exists rule,
    rule_named (py "line comment") = Some rule /\
    Re.subn (pattern rule) (replacement rule) text =
    Ok (comment_lines text, count_comments text).
Proof.
  eexists. split; [vm_compute; reflexivity|].
  match goal with
  | |- Re.subn (pattern ?r) _ _ = _ =>
      assert (Hc : compile_rule r = Some (line_comment, [Re.TLit 47%N; Re.TLit 47%N]))
        by (vm_compute; reflexivity);
      rewrite (subn_compiled r text Hc)
  end.
  rewrite (line_comment_scan text None). reflexivity.
Qed.

(** X2: on a text without a backslash only the line comment rule does
    anything: the result is the text with [//] for every [%] that starts a
    line, and the only line printed, when there is such a [%] and the run
    is verbose, is the one of the line comment rule. *)
Theorem plain_text_only_comments (text : str) (H : no_backslash text)
    (verbose : bool) (out : list str) :
  transform text verbose out =
  (Ok (comment_lines text),
   if (negb (Nat.eqb (count_comments text) 0) && verbose)%bool
   then out ++ [py "[line comment] " ++ str_of_nat (count_comments text)
                ++ py " replacements"]
   else out).
Proof. exact (@transform_plain text verbose out H). Qed.

Lemma plain_text_only_comments_witness :
  no_backslash (py "% 100% plain") /\
  transform (py "% 100% plain") true [] =
  (Ok (py "// 100% plain"), [py "[line comment] 1 replacements"]).
Proof.
  assert (H : no_backslash (py "% 100% plain"))
    by (vm_compute; repeat constructor; discriminate).
  split; [exact H|].
  exact (@plain_text_only_comments (py "% 100% plain") H true []).
Defined.

(** X3: in the text [transform] returns no [%] starts a line: every [%] of
    the result has a character before it, and that character is not a line
    feed. *)
Theorem result_has_no_comment_line (text : str) (verbose : bool) (out : list str) :
  exists result,
    fst (transform text verbose out) = Ok result /\
    forall pre post,
      result = pre ++ 37%N :: post -> pre <> [] /\ last pre 0%N <> 10%N.
Proof.
  destruct registry_split as (front & rule & Hs & Hf & Hn & Hc).
  assert (Hfc : Forall compiles front).
  { eapply Forall_impl; [|exact Hf]. intros r; apply backslash_led_compiles. }
  destruct (transform_loop_ok Hfc text verbose out) as (mid & out' & Hm).
  exists (comment_lines mid). split.
  - rewrite transform_eq, Hs, transform_loop_app, Hm.
    rewrite (@line_comment_last rule mid verbose out' Hc). reflexivity.
  - intros pre post E.
    pose proof (comment_from_clean mid true) as Hz.
    fold (comment_lines mid) in Hz. rewrite E in Hz.
    apply count_comments_percent in Hz.
    destruct pre as [|c pre]; [discriminate Hz|].
    split; [discriminate|exact Hz].
Qed.

(** X4: a verbose run that prints nothing has changed nothing: if the
    output after [transform] is the output before it, the text returned is
    the input. *)
Theorem silent_run_is_identity (text : str) (out : list str)
    (H : snd (transform text true out) = out) :
  fst (transform text true out) = Ok text.
Proof.
  revert H. rewrite (transform_eq text true out).
  exact (@transform_loop_silent CONVERSION_RULES registry_compiles text out).
Qed.

Lemma silent_run_is_identity_witness :
  snd (transform (py "a {b} c") true []) = [] /\
  fst (transform (py "a {b} c") true []) = Ok (py "a {b} c").
Proof.
  assert (H : snd (transform (py "a {b} c") true []) = []) by (vm_compute; reflexivity).
  split; [exact H|].
  exact (@silent_run_is_identity (py "a {b} c") [] H).
Defined.

(** X5: [transform] adds only characters of the replacement templates:
    every character of the result is a character of the input or one of
    [# g l s p ( ) _ * = < > @ f o t n e [ ] \ /], the space and the
    double quote. *)
Theorem result_characters (text : str) (verbose : bool) (out : list str) :
  exists result,
    fst (transform text verbose out) = Ok result /\
    forall c, In c result -> In c text \/ In c template_alphabet.
Proof.
  rewrite transform_eq.
  destruct (@transform_loop_ok CONVERSION_RULES registry_compiles text verbose out)
    as (result & out' & H).
  exists result. rewrite H. split; [reflexivity|].
  apply (@transform_loop_chars template_alphabet CONVERSION_RULES registry_alphabet
           text verbose out result).
  rewrite H. reflexivity.
Qed.

(** X6: the text before the first backslash or [%] is copied as it is, and
    what follows it is converted as a text that follows its last
    character. *)
Theorem leading_text_is_kept (s text : str) (Hs : no_marker s) (Hne : s <> [])
    (verbose : bool) (out : list str) :
  fst (transform (s ++ text) verbose out) =
  Ok (s ++ transform_behind (last s 0%N) text).
Proof.
  rewrite transform_eq, transform_behind_eq.
  exact (@transform_loop_prefix CONVERSION_RULES registry_framed s Hs Hne text verbose out).
Qed.

Lemma leading_text_is_kept_witness :
  fst (transform (py "Intro: " ++ py "\emph{x}") true []) =
  Ok (py "Intro: " ++ transform_behind (last (py "Intro: ") 0%N) (py "\emph{x}")).
Proof.
  apply leading_text_is_kept.
  - vm_compute. repeat constructor; discriminate.
  - discriminate.
Defined.

(** X7: a text without backslash, [%] and closing brace that ends the
    input is copied as it is, and changes neither what the text before it
    becomes nor the lines printed. *)
Theorem trailing_text_is_kept (text s : str) (Hs : inert s)
    (verbose : bool) (out : list str) :
  exists result out',
    transform text verbose out = (Ok result, out') /\
    transform (text ++ s) verbose out = (Ok (result ++ s), out').
Proof.
  rewrite (transform_eq text verbose out), (transform_eq (text ++ s) verbose out).
  destruct (@transform_loop_ok CONVERSION_RULES registry_compiles text verbose out)
    as (result & out' & H).
  exists result, out'. split; [exact H|].
  rewrite (@transform_loop_suffix CONVERSION_RULES registry_framed s Hs text verbose out).
  rewrite H. reflexivity.
Qed.

Lemma trailing_text_is_kept_witness :
  exists result out',
    transform (py "\emph{x}") true [] = (Ok result, out') /\
    transform (py "\emph{x}" ++ py " and {more") true [] =
    (Ok (result ++ py " and {more"), out').
Proof.
  apply trailing_text_is_kept.
  vm_compute. repeat constructor; discriminate.
Defined.

(** X8: on a text without a backslash [transform] is idempotent: a second
    application returns what the first one returned. *)
Theorem idempotent_without_backslash (text : str) (H : no_backslash text)
    (verbose : bool) (out : list str) :
  fst (transform_twice text verbose out) = fst (transform text verbose out) /\
  fst (transform text verbose out) = Ok (comment_lines text).
Proof.
  rewrite transform_twice_eq.
  rewrite (@transform_plain text verbose out H).
  rewrite (@transform_plain (comment_lines text) verbose _
             (@comment_from_plain text true H)).
  cbn [fst]. rewrite comment_lines_twice. split; reflexivity.
Qed.

Lemma idempotent_without_backslash_witness :
  no_backslash (py "%% twice") /\
  fst (transform_twice (py "%% twice") true []) = fst (transform (py "%% twice") true []).
Proof.
  assert (H : no_backslash (py "%% twice"))
    by (vm_compute; repeat constructor; discriminate).
  split; [exact H|].
  exact (proj1 (@idempotent_without_backslash (py "%% twice") H true [])).
Defined.

(** X9: lines at the start of the input that hold no backslash and no
    [%] are copied as they are, and the text after them is converted as if
    it stood alone. *)
Theorem leading_lines_are_kept (s text : str) (Hs : no_marker s)
    (verbose : bool) (out : list str) :
  exists result,
    fst (transform text verbose out) = Ok result /\
    fst (transform (s ++ 10%N :: text) verbose out) = Ok (s ++ 10%N :: result).
Proof.
  exists (transform_behind 10%N text). split.
  - rewrite transform_eq, transform_behind_eq.
    apply (@transform_loop_line_start CONVERSION_RULES registry_unanchored).
  - replace (s ++ 10%N :: text) with ((s ++ [10%N]) ++ text)
      by (rewrite <- app_assoc; reflexivity).
    rewrite transform_eq.
    rewrite (@transform_loop_prefix CONVERSION_RULES registry_framed (s ++ [10%N])).
    + rewrite last_last, <- app_assoc, transform_behind_eq. reflexivity.
    + apply Forall_app. split; [exact Hs|].
      repeat constructor; discriminate.
    + intros E. apply app_eq_nil in E. destruct E as [_ E]. discriminate E.
Qed.

Lemma leading_lines_are_kept_witness :
  exists result,
    fst (transform (py "%x") true []) = Ok result /\
    fst (transform (py "Title" ++ 10%N :: py "%x") true []) =
    Ok (py "Title" ++ 10%N :: result).
Proof.
  apply leading_lines_are_kept.
  vm_compute. repeat constructor; discriminate.
Defined.

(** X10: a command whose whole argument is one command.  Take two
    commands of the table [conversions], the outer one with the inner one
    as its whole argument, any whitespace before each of the two opening
    braces, and an argument of the inner command that is not empty and
    holds no backslash and no brace.  Then the inner command is converted;
    the outer one is converted too if and only if the rule of the inner
    command comes before its own rule in the registry; otherwise, when the
    inner rule comes later or both are the same rule, it stays a LaTeX
    command around the converted argument.  At the end every [%] that
    starts a line becomes [//].  The rules are given by their positions in
    the table, which lists the command rules in the order of the registry.
    Deeper nesting, an empty inner argument and text beside the inner
    command are not covered. *)
Theorem nested_commands (outer inner : nat)
    (co pre_o suf_o ci pre_i suf_i sp1 sp2 arg : str)
    (verbose : bool) (out : list str)
    (Ho : nth_error conversions outer = Some (co, pre_o, suf_o))
    (Hi : nth_error conversions inner = Some (ci, pre_i, suf_i))
    (Hsp1 : Forall (fun c => Re.uni_isspace c = true) sp1)
    (Hsp2 : Forall (fun c => Re.uni_isspace c = true) sp2)
    (Harg : Forall (fun c => c <> 92%N /\ c <> 123%N /\ c <> 125%N) arg)
    (Hne : arg <> []) :
  fst (transform (command_text co sp1 (command_text ci sp2 arg)) verbose out) =
    Ok (comment_lines
          (if Nat.ltb inner outer
           then pre_o ++ pre_i ++ arg ++ suf_i ++ suf_o
           else command_text co sp1 (pre_i ++ arg ++ suf_i))) /\
  names conversions = map name (firstn 15 CONVERSION_RULES).
Proof.
  split; [|vm_compute; reflexivity].
  destruct (@nested_runs outer inner co pre_o suf_o ci pre_i suf_i sp1 sp2 arg
              Ho Hi Hsp1 Hsp2 Harg Hne verbose out) as (out' & E).
  rewrite transform_eq, E. reflexivity.
Qed.

Lemma nested_commands_witness :
  fst (transform (py "\textbf{\emph{x}}") true []) = Ok (py "*_x_*").
Proof.
  refine (proj1 (@nested_commands 4 3 (py "textbf") (py "*") (py "*")
                   (py "emph") (py "_") (py "_") [] [] (py "x") true []
                   eq_refl eq_refl _ _ _ _)).
  - constructor.
  - constructor.
  - vm_compute. repeat constructor; discriminate.
  - discriminate.
Defined.

(** X11: flat documents are converted piece by piece.  In a text made of
    pieces that are texts without backslash or commands of the table
    [conversions], each with any whitespace before its brace and a
    non-empty argument without backslash and braces, every command becomes
    its argument between the two texts of its entry and the texts stay as
    they are; at the end every [%] that starts a line becomes [//]. *)
Theorem flat_document (pieces : list piece) (H : Forall piece_ok pieces)
    (verbose : bool) (out : list str) :
  fst (transform (flat_map latex pieces) verbose out) =
  Ok (comment_lines (flat_map typst pieces)).
Proof.
  destruct (@flat_document_runs pieces H verbose out) as (out' & E).
  rewrite transform_eq, E. reflexivity.
Qed.

Lemma flat_document_witness :
  fst (transform (py "\section{Intro}" ++ [10%N] ++ py "Some \emph {text}, see \ref{fig}.")
         true []) =
  Ok (py "== Intro" ++ [10%N] ++ py "Some _text_, see @fig.").
Proof.
  refine (@flat_document
            [Cmd (py "section", py "== ", []) [] (py "Intro");
             Text (10%N :: py "Some ");
             Cmd (py "emph", py "_", py "_") (py " ") (py "text");
             Text (py ", see ");
             Cmd (py "ref", py "@", []) [] (py "fig");
             Text (py ".")] _ true []).
  repeat (apply Forall_cons;
          [match goal with
           | |- piece_ok (Text _) => vm_compute; repeat constructor; discriminate
           | |- piece_ok (Cmd _ _ _) =>
               split; [unfold conversions; cbn [In]; tauto|];
               split; [vm_compute; repeat constructor|];
               split; [vm_compute; repeat constructor; discriminate|discriminate]
           end|]).
  apply Forall_nil.
Defined.

(** X12: a command with an empty argument is not converted: for every
    command of the table, the command with any whitespace and empty braces
    is returned as it is, and nothing is printed. *)
Theorem empty_argument_is_kept (e : str * str * str) (sp : str)
    (He : In e conversions)
    (Hsp : Forall (fun c => Re.uni_isspace c = true) sp)
    (verbose : bool) (out : list str) :
  transform (92%N :: fst (fst e) ++ sp ++ [123%N; 125%N]) verbose out =
  (Ok (92%N :: fst (fst e) ++ sp ++ [123%N; 125%N]), out).
Proof.
  apply transform_unmatched. apply empty_argument_unmatched; assumption.
Qed.

Lemma empty_argument_is_kept_witness :
  transform (py "\emph {}") true [] = (Ok (py "\emph {}"), []).
Proof.
  refine (@empty_argument_is_kept (py "emph", py "_", py "_") (py " ") _ _ true []).
  - unfold conversions. cbn [In]. tauto.
  - vm_compute. repeat constructor.
Defined.

(** * Consequences for the users of the command line *)

(** X13: [--quiet] changes no file and no exit status: the state of the
    file system after [main] and the way [main] ends are the same with and
    without it. *)
Theorem quiet_changes_no_file (fs : Pathlib) (args : Namespace) (q1 q2 : bool)
    (w : world fs) (out : list str) :
  fst (main fs (with_quiet q1 args) w out) = fst (main fs (with_quiet q2 args) w out).
Proof.
  unfold main.
  cbn [with_quiet args_list_rules args_path args_recursive].
  destruct (args_list_rules args); [reflexivity|].
  destruct (args_path args) as [p|]; [|reflexivity].
  destruct (negb (truthy p)); [reflexivity|].
  destruct (exists_ fs w (Path fs p)) as [[|]|e]; try reflexivity.
  destruct (is_file fs w (Path fs p)) as [[|]|e]; try reflexivity.
  - match goal with
    | |- fst (let (_, _) := process_file fs w ?f _ ?o in _) = _ =>
        pose proof (process_file_quiet fs w f args q1 q2 o o) as H;
        destruct (process_file fs w f (with_quiet q1 args) o) as [w1 o1];
        destruct (process_file fs w f (with_quiet q2 args) o) as [w2 o2]
    end.
    cbn [fst] in H. subst w2. reflexivity.
  - destruct (is_dir fs w (Path fs p)) as [[|]|e]; try reflexivity.
    destruct (glob fs w (Path fs p) _) as [[|f tex_files]|e]; try reflexivity.
    match goal with
    | |- fst (let (_, _) := process_files fs w ?l _ ?o in _) = _ =>
        pose proof (process_files_quiet fs args q1 q2 l w o o) as H;
        destruct (process_files fs w l (with_quiet q1 args) o) as [w1 o1];
        destruct (process_files fs w l (with_quiet q2 args) o) as [w2 o2]
    end.
    cbn [fst] in H. subst w2. reflexivity.
Qed.

(** X14: with a prefix or a suffix, [--inplace] has no effect: [main] does
    the same with and without it. *)
Theorem inplace_ignored_with_prefix_or_suffix (fs : Pathlib) (args : Namespace)
    (H : args_prefix args <> [] \/ args_suffix args <> [])
    (b : bool) (w : world fs) (out : list str) :
  main fs (with_inplace b args) w out = main fs args w out.
Proof.
  unfold main.
  cbn [with_inplace args_list_rules args_path args_recursive].
  destruct (args_list_rules args); [reflexivity|].
  destruct (args_path args) as [p|]; [|reflexivity].
  destruct (negb (truthy p)); [reflexivity|].
  destruct (exists_ fs w (Path fs p)) as [[|]|e]; try reflexivity.
  destruct (is_file fs w (Path fs p)) as [[|]|e]; try reflexivity.
  - rewrite (@process_file_inplace fs w (Path fs p) args b _ H). reflexivity.
  - destruct (is_dir fs w (Path fs p)) as [[|]|e]; try reflexivity.
    destruct (glob fs w (Path fs p) _) as [[|f tex_files]|e]; try reflexivity.
    rewrite (@process_files_inplace fs args b H (f :: tex_files) w _). reflexivity.
Qed.

Lemma inplace_ignored_with_prefix_or_suffix_witness :
  let args := {| args_path := Some (py "a.tex"); args_inplace := false;
                 args_prefix := py "new_"; args_suffix := []; args_ext := py ".typ";
                 args_recursive := false; args_quiet := false;
                 args_list_rules := false |} in
  (args_prefix args <> [] \/ args_suffix args <> []) /\
  main memory_fs (with_inplace true args) [(py "a.tex", Some (py "\emph{x}"))] [] =
  main memory_fs args [(py "a.tex", Some (py "\emph{x}"))] [].
Proof.
  intros args.
  assert (H : args_prefix args <> [] \/ args_suffix args <> [])
    by (left; discriminate).
  split; [exact H|].
  exact (@inplace_ignored_with_prefix_or_suffix memory_fs args H true
           [(py "a.tex", Some (py "\emph{x}"))] []).
Defined.

(** X15: a run in place, that is with [--inplace] and without prefix and
    suffix, does not use the extension: [main] does the same for every
    value of [--ext]. *)
Theorem extension_unused_in_place (fs : Pathlib) (args : Namespace)
    (Hi : args_inplace args = true) (Hp : args_prefix args = [])
    (Hs : args_suffix args = [])
    (e : str) (w : world fs) (out : list str) :
  main fs (with_ext e args) w out = main fs args w out.
Proof.
  unfold main.
  cbn [with_ext args_list_rules args_path args_recursive].
  destruct (args_list_rules args); [reflexivity|].
  destruct (args_path args) as [p|]; [|reflexivity].
  destruct (negb (truthy p)); [reflexivity|].
  destruct (exists_ fs w (Path fs p)) as [[|]|x]; try reflexivity.
  destruct (is_file fs w (Path fs p)) as [[|]|x]; try reflexivity.
  - rewrite (@process_file_ext fs w (Path fs p) args e _ Hi Hp Hs). reflexivity.
  - destruct (is_dir fs w (Path fs p)) as [[|]|x]; try reflexivity.
    destruct (glob fs w (Path fs p) _) as [[|f tex_files]|x]; try reflexivity.
    rewrite (@process_files_ext fs args e Hi Hp Hs (f :: tex_files) w _). reflexivity.
Qed.

Lemma extension_unused_in_place_witness :
  let args := {| args_path := Some (py "a.tex"); args_inplace := true;
                 args_prefix := []; args_suffix := []; args_ext := py ".typ";
                 args_recursive := false; args_quiet := false;
                 args_list_rules := false |} in
  main memory_fs (with_ext (py ".txt") args) [(py "a.tex", Some (py "\emph{x}"))] [] =
  main memory_fs args [(py "a.tex", Some (py "\emph{x}"))] [].
Proof.
  intros args.
  exact (@extension_unused_in_place memory_fs args eq_refl eq_refl eq_refl (py ".txt")
           [(py "a.tex", Some (py "\emph{x}"))] []).
Defined.

(** X16: failures while files are processed do not show in the exit
    status: once the path is an existing file, or a directory in which the
    search finds a file, [main] returns 0, whatever reading and writing
    do. *)
Theorem processing_returns_zero (fs : Pathlib) (args : Namespace) (p : str)
    (w : world fs) (out : list str)
    (Hl : args_list_rules args = false)
    (Hp : args_path args = Some p) (Hne : p <> [])
    (He : exists_ fs w (Path fs p) = Returns true)
    (H : is_file fs w (Path fs p) = Returns true \/
         (is_file fs w (Path fs p) = Returns false /\
          is_dir fs w (Path fs p) = Returns true /\
          exists f tex_files,
            glob fs w (Path fs p)
                 (if args_recursive args then py "**/*.tex" else py "*.tex") =
            Returns (f :: tex_files))) :
  fst (fst (main fs args w out)) = Return (Some 0) /\
  exit_status (fst (fst (main fs args w out))) = 0.
Proof.
  assert (G : fst (fst (main fs args w out)) = Return (Some 0)).
  { unfold main. rewrite Hl, Hp.
    destruct p as [|c p]; [contradiction|]. cbn [truthy negb]. rewrite He.
    destruct H as [H|(H1 & H2 & f & tex_files & H3)].
    - rewrite H.
      match goal with
      | |- context [process_file fs w ?f args ?o] =>
          destruct (process_file fs w f args o) as [w' out']
      end.
      reflexivity.
    - rewrite H1, H2, H3.
      match goal with
      | |- context [process_files fs w ?l args ?o] =>
          destruct (process_files fs w l args o) as [w' out']
      end.
      reflexivity. }
  rewrite G. split; reflexivity.
Qed.

Lemma processing_returns_zero_witness :
  let args := {| args_path := Some (py "a.tex"); args_inplace := true;
                 args_prefix := []; args_suffix := []; args_ext := py ".typ";
                 args_recursive := false; args_quiet := false;
                 args_list_rules := false |} in
  exit_status (fst (fst (main memory_fs args [(py "a.tex", None)] []))) = 0.
Proof.
  intros args.
  refine (proj2 (@processing_returns_zero memory_fs args (py "a.tex")
                   [(py "a.tex", None)] [] eq_refl eq_refl _ eq_refl _)).
  - discriminate.
  - left. reflexivity.
Defined.

(** X17: a directory in which no file found can be read: nothing is
    written, every file is announced and reported with the line of its
    exception, and [main] returns 0. *)
Theorem unreadable_files_are_skipped (fs : Pathlib) (args : Namespace) (p : str)
    (w : world fs) (out : list str) (f : path fs) (tex_files : list (path fs))
    (err : path fs -> io_exn)
    (Hl : args_list_rules args = false)
    (Hp : args_path args = Some p) (Hne : p <> [])
    (He : exists_ fs w (Path fs p) = Returns true)
    (Hf : is_file fs w (Path fs p) = Returns false)
    (Hd : is_dir fs w (Path fs p) = Returns true)
    (Hg : glob fs w (Path fs p)
               (if args_recursive args then py "**/*.tex" else py "*.tex") =
          Returns (f :: tex_files))
    (Hr : Forall (fun g => read_text fs w g = Raises (err g)) (f :: tex_files)) :
  main fs args w out =
  (Return (Some 0), w,
   out ++ [py "Found " ++ str_of_nat (length (f :: tex_files))
           ++ py " .tex file(s) to process"]
       ++ flat_map (fun g => [py "Processing: " ++ str_of_path fs g;
                              handler_line fs g (err g)]) (f :: tex_files)).
Proof.
  unfold main. rewrite Hl, Hp.
  destruct p as [|c p]; [contradiction|]. cbn [truthy negb]. rewrite He, Hf, Hd, Hg.
  rewrite (@process_files_unreadable fs args err w (f :: tex_files) _ Hr).
  rewrite <- app_assoc. reflexivity.
Qed.

Lemma unreadable_files_are_skipped_witness :
  let args := {| args_path := Some (py "docs"); args_inplace := false;
                 args_prefix := []; args_suffix := []; args_ext := py ".typ";
                 args_recursive := true; args_quiet := false;
                 args_list_rules := false |} in
  main memory_fs args [(py "a.tex", None); (py "b.tex", None)] [] =
  (Return (Some 0), [(py "a.tex", None); (py "b.tex", None)],
   [py "Found 2 .tex file(s) to process";
    py "Processing: a.tex";
    py "Warning: Could not decode a.tex as UTF-8, skipping";
    py "Processing: b.tex";
    py "Warning: Could not decode b.tex as UTF-8, skipping"]).
Proof.
  intros args.
  refine (@unreadable_files_are_skipped memory_fs args (py "docs")
            [(py "a.tex", None); (py "b.tex", None)] [] (py "a.tex") [py "b.tex"]
            (fun _ => UnicodeDecodeError) eq_refl eq_refl _ eq_refl eq_refl eq_refl
            eq_refl _).
  - discriminate.
  - repeat constructor.
Defined.

(** X18: a file that can be read is written once, with the text
    [transform] returns for its content, whatever the flags for the output
    are: [transform] raises nothing that would make [process_file] skip
    the file.  The file written is the input file for a run in place and
    the file named prefix, stem, suffix, extension beside it otherwise. *)
Theorem readable_file_is_written (fs : Pathlib) (w : world fs) (file_path : path fs)
    (args : Namespace) (out : list str) (data : str)
    (Hr : read_text fs w file_path = Returns data) :
  exists result,
    fst (transform data true []) = Ok result /\
    fst (process_file fs w file_path args out) =
    fst (write_text fs w
           (if (args_inplace args && negb (truthy (args_prefix args))
                && negb (truthy (args_suffix args)))%bool
            then file_path
            else joinpath fs (parent fs file_path)
                   (args_prefix args ++ stem fs file_path ++ args_suffix args
                    ++ args_ext args))
           result).
Proof.
  unfold process_file. rewrite Hr.
  pose proof (transform_fst data (negb (args_quiet args)) true
                (out ++ [py "Processing: " ++ str_of_path fs file_path]) []) as E.
  destruct (@transform_loop_ok CONVERSION_RULES registry_compiles data true [])
    as (result & out' & Ht).
  rewrite <- (transform_eq data true []) in Ht. rewrite Ht in E. cbn [fst] in E.
  exists result. split; [rewrite Ht; reflexivity|].
  destruct (transform data (negb (args_quiet args)) _) as [[r|e] o];
    cbn [fst] in E; [|discriminate E].
  injection E as ->.
  destruct (args_inplace args && negb (truthy (args_prefix args))
            && negb (truthy (args_suffix args)))%bool.
  - destruct (write_text fs w file_path result) as [w' [e|]]; reflexivity.
  - destruct (write_text fs w _ result) as [w' [e|]]; reflexivity.
Qed.

Lemma readable_file_is_written_witness :
  let args := {| args_path := Some (py "a.tex"); args_inplace := false;
                 args_prefix := []; args_suffix := []; args_ext := py ".typ";
                 args_recursive := false; args_quiet := true;
                 args_list_rules := false |} in
  exists result,
    fst (transform (py "\emph{x}") true []) = Ok result /\
    fst (process_file memory_fs [(py "a.tex", Some (py "\emph{x}"))] (py "a.tex") args []) =
    [(py "a.tex.typ", Some result); (py "a.tex", Some (py "\emph{x}"))].
Proof.
  intros args.
  exact (@readable_file_is_written memory_fs [(py "a.tex", Some (py "\emph{x}"))]
           (py "a.tex") args [] (py "\emph{x}") eq_refl).
Defined.
